(** * rotate.py: snapshot rotation, retention decision engine

    A shallow embedding of [rotate.py] (interval calculator, snapshot
    catalog, section evaluator, section loop) together with the parts of
    Python's [datetime], [str] and [int] the script relies on.

    Conventions.
    - Python integers are [Z]; [//] and [%] are [Z.div] and [Z.modulo]
      (both floor, sign of the divisor).
    - A [datetime] is the timezone-naive value of the data model; its
      fields are read as the script reads them.  A datetime with a UTC
      offset, as [fromisoformat] returns it for a directory name that ends
      in one, is a [stamp] of module [AnyZone], where [find_snapshots] is
      modelled for names of any kind.  The evaluator is modelled over a
      reader of naive names; the theorems that start from any reader assume
      that the names of the section directory read as naive datetimes, and
      show that [find_snapshots] then returns the catalog they speak of.
    - A [str] is a string of code points below 256: the ASCII characters
      and the Latin-1 supplement, whose two blanks U+0085 and U+00A0
      [str.strip] and [int] skip.  Text with other characters is outside
      the model.
    - Code that prints, touches the file system or starts a process is
      written in a small trace-and-exception monad [M]: a computation yields
      the events it emitted and either a value or the exception it raised.
    - The file system is what one section sees of it ([World]): the
      listing of a directory, whether a directory can be made, the exit
      status of a command.  The section directory is a directory or
      absent, and a configuration value is handed out as it is written:
      a path that is a regular file where a directory is listed, and
      values with interpolation syntax, are outside the model. *)

From Stdlib Require Import ZArith List String Ascii Bool Lia Permutation Sorted.
Import ListNotations.
Local Open Scope Z_scope.

(** ** Python's calendar arithmetic ([datetime] module) *)

Module PyDatetime.

Record datetime := mkdt {
  year : Z; month : Z; day : Z;
  hour : Z; minute : Z; second : Z; microsecond : Z
}.

Definition MINYEAR : Z := 1.
Definition MAXYEAR : Z := 9999.
Definition MAXORDINAL : Z := 3652059.

(* _is_leap *)
Definition is_leap (y : Z) : bool :=
  (y mod 4 =? 0) && (negb (y mod 100 =? 0) || (y mod 400 =? 0)).

(* _days_before_year *)
Definition days_before_year (y0 : Z) : Z :=
  let y := y0 - 1 in y * 365 + y / 4 - y / 100 + y / 400.

(* _DAYS_IN_MONTH, index 0 is the -1 placeholder *)
Definition DAYS_IN_MONTH : list Z :=
  [-1; 31; 28; 31; 30; 31; 30; 31; 31; 30; 31; 30; 31].

(* _DAYS_BEFORE_MONTH, index 0 is the -1 placeholder *)
Definition DAYS_BEFORE_MONTH : list Z :=
  [-1; 0; 31; 59; 90; 120; 151; 181; 212; 243; 273; 304; 334].

Definition table (t : list Z) (i : Z) : Z := nth (Z.to_nat i) t 0.

(* _days_in_month *)
Definition days_in_month (y m : Z) : Z :=
  if (m =? 2) && is_leap y then 29 else table DAYS_IN_MONTH m.

(* _days_before_month *)
Definition days_before_month (y m : Z) : Z :=
  table DAYS_BEFORE_MONTH m + (if (2 <? m) && is_leap y then 1 else 0).

(* _ymd2ord *)
Definition ymd2ord (y m d : Z) : Z :=
  days_before_year y + days_before_month y m + d.

Definition DI400Y : Z := 146097.
Definition DI100Y : Z := 36524.
Definition DI4Y : Z := 1461.

(* _ord2ymd *)
Definition ord2ymd (n0 : Z) : Z * Z * Z :=
  let n := n0 - 1 in
  let n400 := n / DI400Y in let n := n mod DI400Y in
  let y := n400 * 400 + 1 in
  let n100 := n / DI100Y in let n := n mod DI100Y in
  let n4 := n / DI4Y in let n := n mod DI4Y in
  let n1 := n / 365 in let n := n mod 365 in
  let y := y + n100 * 100 + n4 * 4 + n1 in
  if (n1 =? 4) || (n100 =? 4) then (y - 1, 12, 31)
  else
    let leapyear := (n1 =? 3) && (negb (n4 =? 24) || (n100 =? 3)) in
    let m := Z.shiftr (n + 50) 5 in
    let preceding :=
      table DAYS_BEFORE_MONTH m + (if (2 <? m) && leapyear then 1 else 0) in
    if n <? preceding then
      let m' := m - 1 in
      let preceding' :=
        preceding
        - (table DAYS_IN_MONTH m' + (if (m' =? 2) && leapyear then 1 else 0)) in
      (y, m', n - preceding' + 1)
    else (y, m, n - preceding + 1).

(* datetime.toordinal *)
Definition toordinal (dt : datetime) : Z := ymd2ord (year dt) (month dt) (day dt).

(** The constructor's range checks: the values a [datetime] object can hold. *)
Definition valid_datetime (dt : datetime) : Prop :=
  MINYEAR <= year dt <= MAXYEAR /\
  1 <= month dt <= 12 /\
  1 <= day dt <= days_in_month (year dt) (month dt) /\
  0 <= hour dt < 24 /\ 0 <= minute dt < 60 /\ 0 <= second dt < 60 /\
  0 <= microsecond dt < 1000000.

Definition in_range (lo x hi : Z) : bool := (lo <=? x) && (x <=? hi).

Definition valid_datetimeb (dt : datetime) : bool :=
  in_range MINYEAR (year dt) MAXYEAR &&
  in_range 1 (month dt) 12 &&
  in_range 1 (day dt) (days_in_month (year dt) (month dt)) &&
  in_range 0 (hour dt) 23 && in_range 0 (minute dt) 59 &&
  in_range 0 (second dt) 59 && in_range 0 (microsecond dt) 999999.

(** [timedelta]: normalised (days, seconds, microseconds). *)
Record timedelta := mktd { days : Z; seconds : Z; microseconds : Z }.

Definition US_PER_DAY : Z := 86400 * 1000000.

(* the carries of timedelta(days, seconds, microseconds), integer arguments *)
Definition timedelta_norm (d s us : Z) : timedelta :=
  let total := (d * 86400 + s) * 1000000 + us in
  let r := total mod US_PER_DAY in
  mktd (total / US_PER_DAY) (r / 1000000) (r mod 1000000).

(* timedelta(days, seconds, microseconds): the carries, then the
   |days| <= 999999999 check of the constructor (OverflowError, here None) *)
Definition timedelta_new (d s us : Z) : option timedelta :=
  let t := timedelta_norm d s us in
  if 999999999 <? Z.abs (days t) then None else Some t.

(* datetime.__sub__(datetime), both naive.  The difference of two datetimes
   is less than MAXORDINAL days, so that the range check of the timedelta
   constructor passes (datetime_sub_in_range below). *)
Definition datetime_sub (a b : datetime) : timedelta :=
  let secs x := second x + minute x * 60 + hour x * 3600 in
  timedelta_norm (toordinal a - toordinal b) (secs a - secs b)
                 (microsecond a - microsecond b).

(* date.__sub__(date) on the dates of two datetimes: timedelta(days1 - days2) *)
Definition date_sub (a b : datetime) : timedelta :=
  timedelta_norm (toordinal a - toordinal b) 0 0.

(* datetime.__add__(timedelta); None is OverflowError *)
Definition datetime_add (dt : datetime) (other : timedelta) : option datetime :=
  match timedelta_new (toordinal dt)
          (hour dt * 3600 + minute dt * 60 + second dt) (microsecond dt) with
  | None => None
  | Some delta =>
    match timedelta_new (days delta + days other)
            (seconds delta + seconds other)
            (microseconds delta + microseconds other) with
    | None => None
    | Some delta =>
      let hour := seconds delta / 3600 in
      let rem := seconds delta mod 3600 in
      let minute := rem / 60 in
      let second := rem mod 60 in
      if (0 <? days delta) && (days delta <=? MAXORDINAL) then
        let '(y, m, d) := ord2ymd (days delta) in
        Some (mkdt y m d hour minute second (microseconds delta))
      else None
    end
  end.

(* _isoweek1monday *)
Definition isoweek1monday (y : Z) : Z :=
  let THURSDAY := 3 in
  let firstday := ymd2ord y 1 1 in
  let firstweekday := (firstday + 6) mod 7 in
  let week1monday := firstday - firstweekday in
  if THURSDAY <? firstweekday then week1monday + 7 else week1monday.

(* date.isocalendar: (ISO year, ISO week, ISO weekday) *)
Definition isocalendar (dt : datetime) : Z * Z * Z :=
  let y := year dt in
  let week1monday := isoweek1monday y in
  let today := ymd2ord (year dt) (month dt) (day dt) in
  let week := (today - week1monday) / 7 in
  let day := (today - week1monday) mod 7 in
  if week <? 0 then
    let y := y - 1 in
    let week1monday := isoweek1monday y in
    let week := (today - week1monday) / 7 in
    let day := (today - week1monday) mod 7 in
    (y, week + 1, day + 1)
  else if 52 <=? week then
    if isoweek1monday (y + 1) <=? today then (y + 1, 0 + 1, day + 1)
    else (y, week + 1, day + 1)
  else (y, week + 1, day + 1).

(* date.weekday: Monday is 0 *)
Definition weekday (dt : datetime) : Z := (toordinal dt + 6) mod 7.

(* naive datetimes compare field by field *)
Definition cmp_fields (dt : datetime) : list Z :=
  [year dt; month dt; day dt; hour dt; minute dt; second dt; microsecond dt].

Fixpoint list_ltb (a b : list Z) : bool :=
  match a, b with
  | x :: a', y :: b' => (x <? y) || ((x =? y) && list_ltb a' b')
  | [], _ :: _ => true
  | _, [] => false
  end.

(* datetime.__lt__ *)
Definition datetime_ltb (a b : datetime) : bool :=
  list_ltb (cmp_fields a) (cmp_fields b).

End PyDatetime.
Export PyDatetime.

(** ** Python's [str] and [int] on the text of configuration values *)

Module PyStr.

Local Open Scope string_scope.
Local Open Scope Z_scope.

Definition code (c : ascii) : Z := Z.of_N (N_of_ascii c).

(* str.isspace on one character below U+0100: tab..carriage return, the
   four separators 0x1c..0x1f, the blank, U+0085 and U+00A0 *)
Definition isspace (c : ascii) : bool :=
  in_range 9 (code c) 13 || in_range 28 (code c) 32
  || (code c =? 133) || (code c =? 160).

(* Py_ISSPACE, the blanks PyLong_FromString skips: tab..carriage return and
   the blank, not the separators 0x1c..0x1f *)
Definition Py_ISSPACE (c : ascii) : bool :=
  in_range 9 (code c) 13 || (code c =? 32).

(* the blanks int() skips around a literal: those of Py_ISSPACE, and the
   blanks above U+007F, which int() turns into a blank before it parses *)
Definition int_blank (c : ascii) : bool :=
  Py_ISSPACE c || (code c =? 133) || (code c =? 160).

Fixpoint lstrip_by (sp : ascii -> bool) (s : string) : string :=
  match s with
  | EmptyString => EmptyString
  | String c s' => if sp c then lstrip_by sp s' else s
  end.

Fixpoint rstrip_by (sp : ascii -> bool) (s : string) : string :=
  match s with
  | EmptyString => EmptyString
  | String c s' =>
    match rstrip_by sp s' with
    | EmptyString => if sp c then EmptyString else String c EmptyString
    | r => String c r
    end
  end.

Definition strip_by (sp : ascii -> bool) (s : string) : string :=
  lstrip_by sp (rstrip_by sp s).

(* str.strip() *)
Definition strip (s : string) : string := strip_by isspace s.

(* (s[:-1], s[-1]) of a non-empty string *)
Fixpoint split_last (s : string) : option (string * ascii) :=
  match s with
  | EmptyString => None
  | String c s' =>
    match split_last s' with
    | None => Some (EmptyString, c)
    | Some (init, l) => Some (String c init, l)
    end
  end.

Definition digit_of (c : ascii) : option Z :=
  if in_range 48 (code c) 57 then Some (code c - 48) else None.

(* the digits of an integer literal: single underscores are allowed between
   digits only; [sep] tells that a digit must come next *)
Fixpoint int_digits (acc : Z) (sep : bool) (s : string) : option Z :=
  match s with
  | EmptyString => if sep then None else Some acc
  | String c s' =>
    if Ascii.eqb c "_"%char then
      if sep then None else int_digits acc true s'
    else
      match digit_of c with
      | Some d => int_digits (acc * 10 + d) false s'
      | None => None
      end
  end.

(* the digit characters of a literal *)
Fixpoint count_digits (s : string) : Z :=
  match s with
  | EmptyString => 0
  | String c s' =>
    match digit_of c with
    | Some _ => 1 + count_digits s'
    | None => count_digits s'
    end
  end.

(* sys.int_info.default_max_str_digits *)
Definition MAX_STR_DIGITS : Z := 4300.

(* the digits after the sign: a literal of more than MAX_STR_DIGITS digits
   is refused like one that is no literal *)
Definition int_literal (r : string) : option Z :=
  if MAX_STR_DIGITS <? count_digits r then None else int_digits 0 true r.

(* int(s), base 10: surrounding blanks, an optional sign, digits.
   None is ValueError. *)
Definition int (s : string) : option Z :=
  match strip_by int_blank s with
  | String "+"%char r => int_literal r
  | String "-"%char r => option_map Z.opp (int_literal r)
  | r => int_literal r
  end.

Definition digit_char (d : Z) : ascii := ascii_of_N (Z.to_N (48 + d mod 10)).

(* "%02d" and "%04d" on the fields of a datetime (0..99, 0..9999) *)
Definition fmt02 (n : Z) : string :=
  String (digit_char (n / 10)) (String (digit_char n) EmptyString).

Definition fmt04 (n : Z) : string :=
  String (digit_char (n / 1000)) (String (digit_char (n / 100))
    (String (digit_char (n / 10)) (String (digit_char n) EmptyString))).

(* datetime.isoformat(sep=" ", timespec="minutes") of a naive datetime *)
Definition isoformat_minutes (dt : datetime) : string :=
  fmt04 (year dt) ++ "-" ++ fmt02 (month dt) ++ "-" ++ fmt02 (day dt)
  ++ " " ++ fmt02 (hour dt) ++ ":" ++ fmt02 (minute dt).

End PyStr.

(** ** Effects: events, exceptions and the monad [M] *)

Module Effects.

(* pathlib.Path as its components; p / name appends one *)
Definition Path := list string.
Definition path_join (p : Path) (name : string) : Path := p ++ [name].
Definition path_parent (p : Path) : Path := removelast p.
Definition path_name (p : Path) : string := last p ""%string.

(* argv of the external commands the methods start *)
Inductive command :=
| CpAr (source target : Path)            (* cp -ar source target *)
| CpArl (source target : Path)           (* cp -arl source target *)
| BtrfsSnapshot (source target : Path)   (* btrfs subvolume snapshot -r source target *)
| RmRf (target : Path)                   (* rm -rf target *)
| BtrfsDelete (target : Path).           (* btrfs subvolume delete target *)

(* the texts handed to util.say *)
Inductive message :=
| MsgNotADirectory (child : Path)
| MsgNotADatetime (child : Path)
| MsgInvalidMethod
| MsgInvalidInterval
| MsgInvalidOffset
| MsgInvalidAmount
| MsgSectionSkipped
| MsgAlreadyCovered (p : Path)
| MsgMakingNewSnapshot
| MsgSourceDirectory (p : Path)
| MsgSnapshotDirectory (p : Path)
| MsgConfigFile (p : Path)
| MsgTime (t : string)
| MsgDryRun (b : bool)
| MsgSections (names : list string)
| MsgBlank
| MsgSection (name : string).

Inductive exn :=
| OperationFailedException
| CalledProcessError
| ValueError
| OverflowError
| KeyError
| IndexError
| TypeError.

Inductive event :=
| Say (m : message)                 (* util.say *)
| Running (c : command)             (* util.run: "COMMAND: Running ..." *)
| Spawn (c : command)               (* subprocess.run starts the process *)
| Exited (code : option Z)          (* "COMMAND: Exited with code ...", None is 'dry-run' *)
| Mkdir (p : Path)                  (* p.mkdir(parents=True, exist_ok=True) *)
| PrintOperationFailed              (* the two prints of the top-level handler *)
| Traceback (e : exn).              (* an exception nobody caught *)

Inductive result (A : Type) := Ok (a : A) | Raise (e : exn).
Arguments Ok {A} a.
Arguments Raise {A} e.

Definition M (A : Type) : Type := list event * result A.

Definition ret {A} (a : A) : M A := ([], Ok a).
Definition raise {A} (e : exn) : M A := ([], Raise e).
Definition emit (ev : event) : M unit := ([ev], Ok tt).

Definition bind {A B} (m : M A) (f : A -> M B) : M B :=
  match m with
  | (t, Ok a) => let (t', r) := f a in (t ++ t', r)
  | (t, Raise e) => (t, Raise e)
  end.

(* try: m  except e: handler *)
Definition try_except {A} (m : M A) (e : exn) (handler : M A) : M A :=
  match m with
  | (t, Raise e') =>
    if match e, e' with
       | OperationFailedException, OperationFailedException
       | CalledProcessError, CalledProcessError
       | ValueError, ValueError
       | OverflowError, OverflowError
       | KeyError, KeyError
       | IndexError, IndexError
       | TypeError, TypeError => true
       | _, _ => false
       end
    then let (t', r) := handler in (t ++ t', r)
    else m
  | _ => m
  end.

(* a library call that answers None where Python raises e *)
Definition lift {A} (e : exn) (o : option A) : M A :=
  match o with Some a => ret a | None => raise e end.

Definition trace {A} (m : M A) : list event := fst m.
Definition outcome {A} (m : M A) : result A := snd m.

(** The file system and the external commands, as the run observes them. *)
Record World := mkWorld {
  (* the children of a directory as (name, is_dir); None: it does not exist *)
  iterdir : Path -> option (list (string * bool));
  (* target.parent.mkdir(parents=True, exist_ok=True): false is FileExistsError *)
  mkdir_parents : Path -> bool;
  (* exit status of an external command *)
  returncode : command -> Z
}.

(* Path.exists(): the path is listed in its parent directory *)
Definition path_exists (w : World) (p : Path) : bool :=
  match iterdir w (path_parent p) with
  | Some children => existsb (String.eqb (path_name p)) (map fst children)
  | None => false
  end.

End Effects.
Export Effects.

Declare Scope M_scope.
Delimit Scope M_scope with M.
Notation "x <- m ;; k" := (bind m (fun x => k))
  (at level 61, m at next level, right associativity) : M_scope.
Notation "m ;; k" := (bind m (fun _ => k))
  (at level 61, right associativity) : M_scope.

(** ** rotate.py *)

Module Rotate.

Import PyStr.
Local Open Scope M_scope.

(** *** Utility functions and classes *)

(* julian_day *)
Definition julian_day (dt : datetime) : Z :=
  let delta := datetime_sub dt (mkdt 1 1 1 0 0 0 0) in
  days delta + 1721426.

(* days_from_string *)
Definition days_from_string (string : string) : option Z :=
  let string := strip string in
  match split_last string with
  | Some (init, c) => if Ascii.eqb c "d"%char then int init else None
  | None => None
  end.

(* format_time *)
Definition format_time (dt : datetime) : string := isoformat_minutes dt.

Record Util := mkUtil { prefix : string; dry_run : bool }.

(* Util.say *)
Definition say (util : Util) (m : message) : M unit := emit (Say m).

(* Util.run *)
Definition util_run (w : World) (util : Util) (cmdargs : command) : M unit :=
  emit (Running cmdargs) ;;
  if dry_run util then emit (Exited None)
  else
    emit (Spawn cmdargs) ;;
    let code := returncode w cmdargs in
    emit (Exited (Some code)) ;;
    if code =? 0 then ret tt else raise CalledProcessError.

(** *** Intervals *)

(* the values the interval functions return: an int or a tuple of ints *)
Inductive key := KInt (n : Z) | KTuple (l : list Z).

Fixpoint tuple_eqb (a b : list Z) : bool :=
  match a, b with
  | [], [] => true
  | x :: a', y :: b' => (x =? y) && tuple_eqb a' b'
  | _, _ => false
  end.

(* == on those values *)
Definition key_eqb (a b : key) : bool :=
  match a, b with
  | KInt x, KInt y => x =? y
  | KTuple x, KTuple y => tuple_eqb x y
  | _, _ => false
  end.

Definition Interval := datetime -> key.

Definition interval_daily (dt : datetime) : key :=
  KTuple [year dt; month dt; day dt].

Definition interval_weekly (dt : datetime) : key :=
  let '(year, week, _) := isocalendar dt in
  KTuple [year; week].

Definition interval_monthly (dt : datetime) : key :=
  KTuple [year dt; month dt].

Definition interval_biyearly (dt : datetime) : key :=
  KTuple [year dt; if month dt <=? 6 then 1 else 2].

Definition interval_yearly (dt : datetime) : key :=
  KInt (year dt).

Definition interval_custom (days : Z) : Interval :=
  fun dt => KInt (julian_day dt / days).

Fixpoint dict_get {V : Type} (d : list (string * V)) (k : string) : option V :=
  match d with
  | [] => None
  | (k', v) :: d' => if String.eqb k k' then Some v else dict_get d' k
  end.

Definition INTERVALS : list (string * Interval) :=
  [ ("daily"%string, interval_daily);
    ("weekly"%string, interval_weekly);
    ("monthly"%string, interval_monthly);
    ("biyearly"%string, interval_biyearly);
    ("yearly"%string, interval_yearly) ].

(* interval_from_string *)
Definition interval_from_string (string : string) : option Interval :=
  let string := strip string in
  match dict_get INTERVALS string with
  | Some interval => Some interval
  | None =>
    match days_from_string string with
    | Some days => if 0 <? days then Some (interval_custom days) else None
    | None => None
    end
  end.

(** *** Methods *)

(* the three subclasses of Method *)
Inductive Method := CopyMethod | HardlinkMethod | BtrfsSnapshotMethod.

(* Method.prepare_target *)
Definition prepare_target (w : World) (util : Util) (target : Path) : M unit :=
  if path_exists w target then raise OperationFailedException
  else if dry_run util then ret tt
  else
    emit (Mkdir (path_parent target)) ;;
    if mkdir_parents w (path_parent target) then ret tt
    else raise OperationFailedException.

(* Method.run *)
Definition method_run (w : World) (util : Util) (args : command) : M unit :=
  try_except (util_run w util args) CalledProcessError
    (raise OperationFailedException).

Definition create_command (m : Method) (source target : Path) : command :=
  match m with
  | CopyMethod => CpAr source target
  | HardlinkMethod => CpArl source target
  | BtrfsSnapshotMethod => BtrfsSnapshot source target
  end.

Definition remove_command (m : Method) (target : Path) : command :=
  match m with
  | CopyMethod => RmRf target
  | HardlinkMethod => RmRf target
  | BtrfsSnapshotMethod => BtrfsDelete target
  end.

(* create_snapshot of the three methods *)
Definition create_snapshot (w : World) (util : Util) (m : Method)
    (source target : Path) : M unit :=
  prepare_target w util target ;;
  method_run w util (create_command m source target).

(* remove_snapshot of the three methods *)
Definition remove_snapshot (w : World) (util : Util) (m : Method)
    (target : Path) : M unit :=
  method_run w util (remove_command m target).

(* method_from_string *)
Definition method_from_string (string : string) : option Method :=
  if String.eqb string "copy" then Some CopyMethod
  else if String.eqb string "hardlink" then Some HardlinkMethod
  else if String.eqb string "btrfs" then Some BtrfsSnapshotMethod
  else None.

(** *** Snapshots *)

Record Snapshot := mkSnapshot { path : Path; when : datetime }.

(* list.sort(key=lambda x: x.when): stable, compares keys with < *)
Fixpoint insert_by_when (x : Snapshot) (l : list Snapshot) : list Snapshot :=
  match l with
  | [] => [x]
  | y :: l' =>
    if datetime_ltb (when y) (when x) then y :: insert_by_when x l'
    else x :: y :: l'
  end.

Definition sort_by_when (l : list Snapshot) : list Snapshot :=
  fold_right insert_by_when [] l.

(** *** Sections *)

Record SectionOptions := mkSectionOptions {
  method : Method;
  interval : Interval;
  offset : Z;
  amount : Z
}.

(* configparser.ConfigParser after config.read: the DEFAULT values and the
   sections in file order, each with its own options *)
Record ConfigParser := mkConfig {
  defaults : list (string * string);
  config_sections : list (string * list (string * string))
}.

(* config.sections() *)
Definition sections (config : ConfigParser) : list string :=
  map fst (config_sections config).

(* config[section_name]: the section's options, then the defaults *)
Definition config_getitem (config : ConfigParser) (section_name : string)
  : option (list (string * string)) :=
  option_map (fun own => own ++ defaults config)
             (dict_get (config_sections config) section_name).

(* section.get(option, fallback=...) *)
Definition section_get (section : list (string * string)) (option : string)
    (fallback : string) : string :=
  match dict_get section option with Some v => v | None => fallback end.

(* section.getint(option, fallback=...): int() of the value *)
Definition section_getint (section : list (string * string)) (option : string)
    (fallback : Z) : M Z :=
  match dict_get section option with
  | Some v => lift ValueError (int v)
  | None => ret fallback
  end.

Record Options := mkOptions {
  source_dir : Path;
  snapshot_dir : Path;
  config_file : Path;
  options_dry_run : bool;
  time : datetime;
  config : ConfigParser
}.

(* read_section_options *)
Definition read_section_options (util : Util) (options : Options)
    (section_name : string) : M (option SectionOptions) :=
  section <- lift KeyError (config_getitem (config options) section_name) ;;
  method <- match method_from_string (section_get section "method" "copy") with
            | None => say util MsgInvalidMethod ;; ret None
            | Some maybe_method => ret (Some maybe_method)
            end ;;
  interval <- match interval_from_string (section_get section "interval" "daily") with
              | None => say util MsgInvalidInterval ;; ret None
              | Some maybe_interval => ret (Some maybe_interval)
              end ;;
  offset <- match days_from_string (section_get section "offset" "0d") with
            | None => say util MsgInvalidOffset ;; ret None
            | Some maybe_offset => ret (Some maybe_offset)
            end ;;
  maybe_amount <- section_getint section "amount" 7 ;;
  amount <- (if maybe_amount <=? 0 then say util MsgInvalidAmount ;; ret None
             else ret (Some maybe_amount)) ;;
  match method, interval, offset, amount with
  | Some method, Some interval, Some offset, Some amount =>
    ret (Some (mkSectionOptions method interval offset amount))
  | _, _, _, _ => ret None
  end.

Section Catalog.

(* datetime.datetime.fromisoformat on a directory name: the naive datetime
   it denotes, None for ValueError *)
Variable fromisoformat : string -> option datetime.

(* the body of "for child in directory.iterdir()" *)
Fixpoint scan_children (util : Util) (directory : Path)
    (children : list (string * bool)) (snapshots : list Snapshot)
  : M (list Snapshot) :=
  match children with
  | [] => ret snapshots
  | (name, is_dir) :: rest =>
    let child := path_join directory name in
    if negb is_dir then
      say util (MsgNotADirectory child) ;;
      scan_children util directory rest snapshots
    else
      match fromisoformat name with
      | Some dt =>
        scan_children util directory rest (snapshots ++ [mkSnapshot child dt])
      | None =>
        say util (MsgNotADatetime child) ;;
        scan_children util directory rest snapshots
      end
  end.

(* find_snapshots *)
Definition find_snapshots (w : World) (util : Util) (directory : Path)
  : M (list Snapshot) :=
  match iterdir w directory with
  | None => ret []
  | Some children =>
    snapshots <- scan_children util directory children [] ;;
    ret (sort_by_when snapshots)
  end.

(* "for snapshot in snapshots: ... break / else": true when the loop was
   left by break *)
Fixpoint check_covered (util : Util) (interval : Interval) (offset : timedelta)
    (now_interval : key) (snapshots : list Snapshot) : M bool :=
  match snapshots with
  | [] => ret false
  | snapshot :: rest =>
    shifted <- lift OverflowError (datetime_add (when snapshot) offset) ;;
    let snapshot_interval := interval shifted in
    if key_eqb now_interval snapshot_interval then
      say util (MsgAlreadyCovered (path snapshot)) ;; ret true
    else check_covered util interval offset now_interval rest
  end.

(* "while len(snapshots) > amount: snapshots.pop(0) ..." *)
Fixpoint remove_old (w : World) (util : Util) (m : Method)
    (snapshots : list Snapshot) (amount : Z) : M unit :=
  match snapshots with
  | [] => if amount <? 0 then raise IndexError else ret tt
  | snapshot :: rest =>
    if amount <? Z.of_nat (List.length snapshots) then
      remove_snapshot w util m (path snapshot) ;;
      remove_old w util m rest amount
    else ret tt
  end.

(* do_section *)
Definition do_section (w : World) (util : Util) (options : Options)
    (section_name : string) : M unit :=
  section_options <- read_section_options util options section_name ;;
  match section_options with
  | None => say util MsgSectionSkipped
  | Some section_options =>
    let section_dir := path_join (snapshot_dir options) section_name in
    let interval := interval section_options in
    offset <- lift OverflowError (timedelta_new (offset section_options) 0 0) ;;
    snapshots <- find_snapshots w util section_dir ;;
    let amount := amount section_options in
    shifted_now <- lift OverflowError (datetime_add (time options) offset) ;;
    let now_interval := interval shifted_now in
    covered <- check_covered util interval offset now_interval snapshots ;;
    amount <- (if covered then ret amount
               else
                 say util MsgMakingNewSnapshot ;;
                 let new_snapshot_path :=
                   path_join section_dir (format_time (time options)) in
                 create_snapshot w util (method section_options)
                   (source_dir options) new_snapshot_path ;;
                 ret (amount - 1)) ;;
    remove_old w util (method section_options) snapshots amount
  end.

(** *** Everything else *)

(* "for section_name in config.sections(): ..." *)
Fixpoint do_sections (w : World) (util : Util) (options : Options)
    (names : list string) : M unit :=
  match names with
  | [] => ret tt
  | section_name :: rest =>
    say util MsgBlank ;;
    say util (MsgSection section_name) ;;
    do_section w util options section_name ;;
    do_sections w util options rest
  end.

(* main, from the point where the arguments and the config file are read *)
Definition main (w : World) (options : Options) : M unit :=
  let util := mkUtil "rotate.py" (options_dry_run options) in
  say util (MsgSourceDirectory (source_dir options)) ;;
  say util (MsgSnapshotDirectory (snapshot_dir options)) ;;
  say util (MsgConfigFile (config_file options)) ;;
  say util (MsgTime (format_time (time options))) ;;
  say util (MsgDryRun (options_dry_run options)) ;;
  say util (MsgSections (sections (config options))) ;;
  do_sections w util options (sections (config options)).

(* the "if __name__ == '__main__'" block: the events of the run and the
   exit status of the process *)
Definition script (w : World) (options : Options) : list event * Z :=
  match main w options with
  | (t, Ok _) => (t, 0)
  | (t, Raise OperationFailedException) => (t ++ [PrintOperationFailed], 1)
  | (t, Raise e) => (t ++ [Traceback e], 1)
  end.

End Catalog.

End Rotate.
Export Rotate.

(** ** A reader of ISO names

    [fromisoformat_naive] reads the spellings [isoformat] gives a naive
    datetime: [YYYY-MM-DD], optionally one separator character and
    [HH[:MM[:SS[.fff[fff]]]]], followed by the range checks of the datetime
    constructor.  These are read alike by every [fromisoformat] since Python
    3.7; the library of Python 3.11 reads further spellings (dates without
    dashes, week dates, fractions of any length), which this reader refuses.
    It instantiates the [fromisoformat] the catalog is parameterised by, in
    the sample runs; the properties are proved for an arbitrary reader. *)

Module PyIso.

Import PyStr.

(* exactly n ASCII digits *)
Fixpoint parse_digits (n : nat) (acc : Z) (s : string) : option (Z * string) :=
  match n with
  | O => Some (acc, s)
  | S n' =>
    match s with
    | String c s' =>
      match digit_of c with
      | Some d => parse_digits n' (acc * 10 + d) s'
      | None => None
      end
    | EmptyString => None
    end
  end.

Definition expect (c : ascii) (s : string) : option string :=
  match s with
  | String c' s' => if Ascii.eqb c c' then Some s' else None
  | EmptyString => None
  end.

Definition obind {A B} (o : option A) (f : A -> option B) : option B :=
  match o with Some a => f a | None => None end.

Definition parse_isoformat_date (s : string) : option (Z * Z * Z * string) :=
  obind (parse_digits 4 0 s) (fun '(y, s) =>
  obind (expect "-" s) (fun s =>
  obind (parse_digits 2 0 s) (fun '(m, s) =>
  obind (expect "-" s) (fun s =>
  obind (parse_digits 2 0 s) (fun '(d, s) =>
  Some (y, m, d, s)))))).

Definition parse_fraction (s : string) : option Z :=
  match String.length s with
  | 3%nat => obind (parse_digits 3 0 s) (fun '(f, _) => Some (f * 1000))
  | 6%nat => obind (parse_digits 6 0 s) (fun '(f, _) => Some f)
  | _ => None
  end.

(* HH[:MM[:SS[.fff[fff]]]] *)
Definition parse_hh_mm_ss_ff (s : string) : option (Z * Z * Z * Z) :=
  obind (parse_digits 2 0 s) (fun '(hh, s) =>
  match s with
  | EmptyString => Some (hh, 0, 0, 0)
  | String c s =>
    if negb (Ascii.eqb c ":") then None else
    obind (parse_digits 2 0 s) (fun '(mm, s) =>
    match s with
    | EmptyString => Some (hh, mm, 0, 0)
    | String c s =>
      if negb (Ascii.eqb c ":") then None else
      obind (parse_digits 2 0 s) (fun '(ss, s) =>
      match s with
      | EmptyString => Some (hh, mm, ss, 0)
      | String c s =>
        if negb (Ascii.eqb c ".") then None else
        obind (parse_fraction s) (fun ff => Some (hh, mm, ss, ff))
      end)
    end)
  end).

Definition checked (dt : datetime) : option datetime :=
  if valid_datetimeb dt then Some dt else None.

Definition fromisoformat_naive (s : string) : option datetime :=
  obind (parse_isoformat_date s) (fun '(y, m, d, rest) =>
  match rest with
  | EmptyString => checked (mkdt y m d 0 0 0 0)
  | String _ EmptyString => None
  | String _ tstr =>
    obind (parse_hh_mm_ss_ff tstr) (fun '(hh, mm, ss, ff) =>
    checked (mkdt y m d hh mm ss ff))
  end).

End PyIso.
Export PyIso.

(** ** Reading a trace, and the vocabulary of the properties *)

Module Observe.

(* the targets of the snapshot-creating commands the run issued *)
Definition create_target (ev : event) : option Path :=
  match ev with
  | Running (CpAr _ t) | Running (CpArl _ t) | Running (BtrfsSnapshot _ t) => Some t
  | _ => None
  end.

(* the targets of the snapshot-removing commands the run issued *)
Definition remove_target (ev : event) : option Path :=
  match ev with
  | Running (RmRf t) | Running (BtrfsDelete t) => Some t
  | _ => None
  end.

Fixpoint filter_map {A B} (f : A -> option B) (l : list A) : list B :=
  match l with
  | [] => []
  | x :: l' =>
    match f x with
    | Some y => y :: filter_map f l'
    | None => filter_map f l'
    end
  end.

Definition created (t : list event) : list Path := filter_map create_target t.
Definition removed (t : list event) : list Path := filter_map remove_target t.

(* the names of the sections the run started to process *)
Definition section_started (ev : event) : option string :=
  match ev with
  | Say (MsgSection name) => Some name
  | _ => None
  end.

Definition processed (t : list event) : list string := filter_map section_started t.

(* do_section reached "Making a new snapshot" *)
Definition decided_creation (t : list event) : Prop :=
  In (Say MsgMakingNewSnapshot) t.

(* the interval functions a section can be configured with *)
Definition is_scheme (interval : Interval) : Prop :=
  interval = interval_daily \/ interval = interval_weekly \/
  interval = interval_monthly \/ interval = interval_biyearly \/
  interval = interval_yearly \/
  exists n, 0 < n /\ interval = interval_custom n.

(* a string neither starts nor ends with a character of the class sp *)
Definition no_lead (sp : ascii -> bool) (s : string) : Prop :=
  match s with
  | String c _ => sp c = false
  | EmptyString => True
  end.

Definition no_trail (sp : ascii -> bool) (s : string) : Prop :=
  match PyStr.split_last s with
  | Some (_, c) => sp c = false
  | None => True
  end.

(* the scheme strings as the interval calculator's contract words them:
   one of the five names, or a positive integer in digits followed by d *)
Fixpoint all_digits (s : string) : bool :=
  match s with
  | EmptyString => true
  | String c s' =>
    match PyStr.digit_of c with Some _ => all_digits s' | None => false end
  end.

Definition scheme_string_as_specified (s : string) : bool :=
  existsb (String.eqb s)
    ["daily"; "weekly"; "monthly"; "biyearly"; "yearly"]%string
  || match PyStr.split_last s with
     | Some (p, c) =>
       Ascii.eqb c "d" && all_digits p
       && match PyStr.int_digits 0 true p with
          | Some n => 0 <? n
          | None => false
          end
     | None => false
     end.

(* the time-of-day fields are in range *)
Definition valid_time (t : datetime) : Prop :=
  0 <= hour t < 24 /\ 0 <= minute t < 60 /\ 0 <= second t < 60 /\
  0 <= microsecond t < 1000000.

(* events that are neither a decision, nor a command, nor a section header *)
Definition silent (ev : event) : Prop :=
  ev <> Say MsgMakingNewSnapshot /\ create_target ev = None /\
  remove_target ev = None /\ section_started ev = None.

Definition same_date (a b : datetime) : Prop :=
  year a = year b /\ month a = month b /\ day a = day b.

(* two catalogs that agree on paths and on the dates of their timestamps *)
Definition same_dates (a b : Snapshot) : Prop :=
  path a = path b /\ valid_datetime (when a) /\ valid_datetime (when b) /\
  same_date (when a) (when b).

(* replace(second=0, microsecond=0): what a minute-precision name denotes *)
Definition minute_precision (dt : datetime) : datetime :=
  mkdt (year dt) (month dt) (day dt) (hour dt) (minute dt) 0 0.

(* bucket_key(scheme, t + offset_days); None where the sum is out of range *)
Definition shifted_key (interval : Interval) (offset : timedelta)
    (t : datetime) : option key :=
  option_map interval (datetime_add t offset).

(* a <= b on timestamps, as the sort sees it *)
Definition when_le (a b : Snapshot) : Prop :=
  datetime_ltb (when b) (when a) = false.

(* the entries of a listing that are directories with a readable name, in
   listing order *)
Definition parsed_entries (fromisoformat : string -> option datetime)
    (directory : Path) (children : list (string * bool)) : list Snapshot :=
  filter_map
    (fun child : string * bool =>
       let '(name, is_dir) := child in
       if is_dir then
         option_map (mkSnapshot (path_join directory name)) (fromisoformat name)
       else None)
    children.

(* the diagnostics of a listing: one per skipped entry, in listing order *)
Definition skip_diagnostics (fromisoformat : string -> option datetime)
    (directory : Path) (children : list (string * bool)) : list event :=
  filter_map
    (fun child : string * bool =>
       let '(name, is_dir) := child in
       if negb is_dir then Some (Say (MsgNotADirectory (path_join directory name)))
       else match fromisoformat name with
            | Some _ => None
            | None => Some (Say (MsgNotADatetime (path_join directory name)))
            end)
    children.

(* December 31 of year y and the next January 1 differ in their weekly key
   exactly when that January 1 is a Monday *)
Definition weekly_new_year_check (y : Z) : bool :=
  let t1 := mkdt y 12 31 0 0 0 0 in
  let t2 := mkdt (y + 1) 1 1 0 0 0 0 in
  Bool.eqb (negb (key_eqb (interval_weekly t1) (interval_weekly t2)))
           (weekday t2 =? 0).

(* January 1 of year y + 1 is the day after December 31 of year y *)
Definition new_year_ordinal_check (y : Z) : bool :=
  ymd2ord (y + 1) 1 1 =? ymd2ord y 12 31 + 1.

(* what find_snapshots returns and says for a directory *)
Definition catalog (fromisoformat : string -> option datetime) (w : World)
    (directory : Path) : list Snapshot :=
  match iterdir w directory with
  | None => []
  | Some children => sort_by_when (parsed_entries fromisoformat directory children)
  end.

Definition catalog_diagnostics (fromisoformat : string -> option datetime)
    (w : World) (directory : Path) : list event :=
  match iterdir w directory with
  | None => []
  | Some children => skip_diagnostics fromisoformat directory children
  end.

Definition datetime_eqb (a b : datetime) : bool :=
  tuple_eqb (cmp_fields a) (cmp_fields b).

Definition taken_at (t : datetime) (s : Snapshot) : bool := datetime_eqb (when s) t.

(* the commands the run started and saw exit with status 0: in the log, a
   process started and the exit status 0 right after it *)
Fixpoint succeeded (t : list event) : list command :=
  match t with
  | [] => []
  | Spawn c :: t' =>
    match t' with
    | Exited (Some 0) :: _ => c :: succeeded t'
    | _ => succeeded t'
    end
  | _ :: t' => succeeded t'
  end.

Definition made_by (c : command) : option Path :=
  match c with
  | CpAr _ t | CpArl _ t | BtrfsSnapshot _ t => Some t
  | RmRf _ | BtrfsDelete _ => None
  end.

Definition deleted_by (c : command) : option Path :=
  match c with
  | RmRf t | BtrfsDelete t => Some t
  | CpAr _ _ | CpArl _ _ | BtrfsSnapshot _ _ => None
  end.

(* the snapshots the run made, and those it deleted: the targets of the
   creating and of the removing commands that ran to the exit status 0.
   [created] and [removed] above read the command lines the run logged,
   which a dry run logs too *)
Definition snapshots_made (t : list event) : list Path :=
  filter_map made_by (succeeded t).

Definition snapshots_deleted (t : list event) : list Path :=
  filter_map deleted_by (succeeded t).

(* the value of a section has no interpolation syntax: configparser hands
   it out as it is written *)
Fixpoint no_percent (s : string) : bool :=
  match s with
  | EmptyString => true
  | String c s' => negb (Ascii.eqb c "%") && no_percent s'
  end.

End Observe.
Export Observe.

(** ** Directory names with a UTC offset

    [datetime.fromisoformat] reads a name such as [2024-01-01 00:00+01:00]
    as an aware datetime; [find_snapshots] puts it in the list like any
    other, and [list.sort] compares it with the others.  [AnyZone] is
    [find_snapshots] for any reader; the definitions of [Rotate] are its
    restriction to readers of naive names. *)

Module AnyZone.

Import PyStr.
Local Open Scope M_scope.

(* a datetime as fromisoformat returns it: the fields, and the UTC offset
   in microseconds of a name that ends in one (None: a naive datetime) *)
Record stamp := mkStamp { fields : datetime; utcoffset : option Z }.

(* Snapshot(child, dt) *)
Record Snapshot := mkSnapshot { path : Path; when : stamp }.

(* microseconds from 0001-01-01 00:00 to the wall-clock time of the fields *)
Definition wall_clock (dt : datetime) : Z :=
  ((toordinal dt - 1) * 86400 + hour dt * 3600 + minute dt * 60 + second dt)
  * 1000000 + microsecond dt.

(* the datetime has a tzinfo *)
Definition aware (t : stamp) : bool :=
  match utcoffset t with Some _ => true | None => false end.

(* the instant of an aware datetime, in microseconds from 0001-01-01 00:00
   UTC; for a naive one, its wall-clock time *)
Definition instant (t : stamp) : Z :=
  wall_clock (fields t) - match utcoffset t with Some o => o | None => 0 end.

(* datetime.__lt__: the fields of two naive datetimes, or of two aware ones
   of one offset; the instants of two aware ones of different offsets;
   TypeError between a naive and an aware one *)
Definition datetime_lt (a b : stamp) : result bool :=
  match utcoffset a, utcoffset b with
  | None, None => Ok (datetime_ltb (fields a) (fields b))
  | Some oa, Some ob =>
    if oa =? ob then Ok (datetime_ltb (fields a) (fields b))
    else Ok (wall_clock (fields a) - oa <? wall_clock (fields b) - ob)
  | _, _ => Raise TypeError
  end.

(* list.sort(key=lambda x: x.when): stable, compares keys with <, and an
   exception of a comparison ends it.  Which keys list.sort compares is the
   library's business; a list that holds a naive and an aware key cannot be
   sorted without comparing two such, and no other comparison raises, so
   that any order of comparisons raises on the same lists *)
Fixpoint insert_by_when (x : Snapshot) (l : list Snapshot)
  : result (list Snapshot) :=
  match l with
  | [] => Ok [x]
  | y :: l' =>
    match datetime_lt (when y) (when x) with
    | Raise e => Raise e
    | Ok true =>
      match insert_by_when x l' with
      | Ok r => Ok (y :: r)
      | Raise e => Raise e
      end
    | Ok false => Ok (x :: y :: l')
    end
  end.

Fixpoint sort_by_when (l : list Snapshot) : result (list Snapshot) :=
  match l with
  | [] => Ok []
  | x :: l' =>
    match sort_by_when l' with
    | Ok sorted => insert_by_when x sorted
    | Raise e => Raise e
    end
  end.

Section Reader.

(* datetime.datetime.fromisoformat on a directory name; None is ValueError *)
Variable fromisoformat : string -> option stamp.

(* the body of "for child in directory.iterdir()" *)
Fixpoint scan_children (util : Util) (directory : Path)
    (children : list (string * bool)) (snapshots : list Snapshot)
  : M (list Snapshot) :=
  match children with
  | [] => ret snapshots
  | (name, is_dir) :: rest =>
    let child := path_join directory name in
    if negb is_dir then
      say util (MsgNotADirectory child) ;;
      scan_children util directory rest snapshots
    else
      match fromisoformat name with
      | Some dt =>
        scan_children util directory rest (snapshots ++ [mkSnapshot child dt])
      | None =>
        say util (MsgNotADatetime child) ;;
        scan_children util directory rest snapshots
      end
  end.

(* find_snapshots *)
Definition find_snapshots (w : World) (util : Util) (directory : Path)
  : M (list Snapshot) :=
  match iterdir w directory with
  | None => ret []
  | Some children =>
    snapshots <- scan_children util directory children [] ;;
    ([], sort_by_when snapshots)
  end.

(* the entries of a listing that are directories with a readable name, in
   listing order *)
Definition parsed_entries (directory : Path) (children : list (string * bool))
  : list Snapshot :=
  filter_map
    (fun child : string * bool =>
       let '(name, is_dir) := child in
       if is_dir then
         option_map (mkSnapshot (path_join directory name)) (fromisoformat name)
       else None)
    children.

(* the diagnostics of a listing: one per skipped entry, in listing order *)
Definition skip_diagnostics (directory : Path)
    (children : list (string * bool)) : list event :=
  filter_map
    (fun child : string * bool =>
       let '(name, is_dir) := child in
       if negb is_dir then Some (Say (MsgNotADirectory (path_join directory name)))
       else match fromisoformat name with
            | Some _ => None
            | None => Some (Say (MsgNotADatetime (path_join directory name)))
            end)
    children.

(* the reader on the names it reads as naive datetimes *)
Definition naive (name : string) : option datetime :=
  match fromisoformat name with
  | Some (mkStamp dt None) => Some dt
  | _ => None
  end.

(* no directory of the listing has a name that reads with a UTC offset *)
Definition naive_names (children : list (string * bool)) : bool :=
  forallb
    (fun child : string * bool =>
       let '(name, is_dir) := child in
       negb is_dir
       || match fromisoformat name with
          | Some (mkStamp _ (Some _)) => false
          | _ => true
          end)
    children.

Definition naive_directory (w : World) (directory : Path) : bool :=
  match iterdir w directory with
  | None => true
  | Some children => naive_names children
  end.

End Reader.

(* the list holds a naive and an aware timestamp *)
Definition mixed (l : list Snapshot) : bool :=
  existsb (fun s => negb (aware (when s))) l
  && existsb (fun s => aware (when s)) l.

(* ascending by timestamp *)
Definition ascending (l : list Snapshot) : Prop :=
  StronglySorted (fun a b => instant (when a) <= instant (when b)) l.

Definition stamp_eqb (a b : stamp) : bool :=
  datetime_eqb (fields a) (fields b)
  && match utcoffset a, utcoffset b with
     | Some oa, Some ob => oa =? ob
     | None, None => true
     | _, _ => false
     end.

Definition taken_at (t : stamp) (s : Snapshot) : bool := stamp_eqb (when s) t.

(* a snapshot of the naive catalog, as find_snapshots holds it *)
Definition of_naive (s : Rotate.Snapshot) : Snapshot :=
  mkSnapshot (Rotate.path s) (mkStamp (Rotate.when s) None).

(* +HH:MM or -HH:MM, in microseconds *)
Definition parse_offset (s : string) : option Z :=
  match s with
  | String sign rest =>
    if Ascii.eqb sign "+" || Ascii.eqb sign "-" then
      obind (parse_digits 2 0 rest) (fun '(hh, rest) =>
      obind (expect ":" rest) (fun rest =>
      obind (parse_digits 2 0 rest) (fun '(mm, rest) =>
      match rest with
      | EmptyString =>
        if (hh <=? 23) && (mm <=? 59) then
          Some ((if Ascii.eqb sign "-" then -1 else 1)
                * (hh * 3600 + mm * 60) * 1000000)
        else None
      | String _ _ => None
      end)))
    else None
  | EmptyString => None
  end.

(* a reader of the names isoformat writes: those [fromisoformat_naive]
   reads, and those with a time of day followed by the offset +HH:MM or
   -HH:MM of a zone of whole minutes *)
Definition fromisoformat_offset (s : string) : option stamp :=
  let n := String.length s in
  match (if (19 <=? n)%nat then parse_offset (substring (n - 6) 6 s) else None)
  with
  | Some off =>
    option_map (fun dt => mkStamp dt (Some off))
               (fromisoformat_naive (substring 0 (n - 6) s))
  | None => option_map (fun dt => mkStamp dt None) (fromisoformat_naive s)
  end.

End AnyZone.

(** ** Sample runs *)

Module Scenarios.

Local Open Scope string_scope.
Local Open Scope Z_scope.

Fixpoint path_eqb (p q : Path) : bool :=
  match p, q with
  | [], [] => true
  | a :: p', b :: q' => String.eqb a b && path_eqb p' q'
  | _, _ => false
  end.

Fixpoint lookup_dir (dirs : list (Path * list (string * bool))) (p : Path)
  : option (list (string * bool)) :=
  match dirs with
  | [] => None
  | (q, children) :: rest => if path_eqb q p then Some children else lookup_dir rest p
  end.

(* a file system holding the given directories, where mkdir and every
   command succeed *)
Definition world_of (dirs : list (Path * list (string * bool))) : World :=
  mkWorld (lookup_dir dirs) (fun _ => true) (fun _ => 0).

Definition the_util : Util := mkUtil "rotate.py" false.

Definition options_at (now : datetime) (cfg : ConfigParser) : Options :=
  mkOptions ["data"] ["data-snapshots"] ["data-snapshots"; "rotate.conf"]
            false now cfg.

(* monthly section, offset 5d, one snapshot at 2024-03-30 00:00 *)
Definition monthly_options : Options :=
  options_at (mkdt 2024 3 27 10 0 0 0)
    (mkConfig [] [("monthly", [("interval", "monthly"); ("offset", "5d")])]).

Definition monthly_world : World :=
  world_of [(["data-snapshots"; "monthly"], [("2024-03-30 00:00", true)])].

(* the same section with no snapshot yet *)
Definition monthly_empty_world : World := world_of [].

(* daily section, amount 3, five snapshots, the fifth taken today *)
Definition five_options : Options :=
  options_at (mkdt 2024 1 5 12 0 0 0)
    (mkConfig [] [("daily", [("amount", "3")])]).

Definition five_world : World :=
  world_of [(["data-snapshots"; "daily"],
             [("2024-01-04 00:00", true); ("2024-01-01 00:00", true);
              ("2024-01-05 00:00", true); ("2024-01-03 00:00", true);
              ("2024-01-02 00:00", true)])].

(* two sections; in the first one a regular file already has the name of
   the snapshot to make, and eight older snapshots await pruning *)
Definition collision_options : Options :=
  options_at (mkdt 2024 1 10 9 0 0 0) (mkConfig [] [("a", []); ("b", [])]).

Definition collision_world : World :=
  world_of [(["data-snapshots"; "a"],
             [("2024-01-01", true); ("2024-01-02", true); ("2024-01-03", true);
              ("2024-01-04", true); ("2024-01-05", true); ("2024-01-06", true);
              ("2024-01-07", true); ("2024-01-08", true);
              ("2024-01-10 09:00", false)])].

(* a first run at 14:30:45.123456 into an empty section, and the directory
   afterwards *)
Definition first_run_options : Options :=
  options_at (mkdt 2024 3 7 14 30 45 123456) (mkConfig [] [("daily", [])]).

Definition before_first_run : World := world_of [].

Definition after_first_run : World :=
  world_of [(["data-snapshots"; "daily"], [("2024-03-07 14:30", true)])].

(* a section whose amount is not an integer, followed by a sound one *)
Definition seven_options : Options :=
  options_at (mkdt 2024 1 3 9 0 0 0)
    (mkConfig [] [("a", [("amount", "seven")]); ("b", [])]).

(* a section with a sound integer amount that is not positive *)
Definition zero_options : Options :=
  options_at (mkdt 2024 1 3 9 0 0 0)
    (mkConfig [] [("a", [("amount", "0")]); ("b", [])]).

End Scenarios.

(** ** Vocabulary of the further properties *)

Module Further.

(* events of a run that executes nothing: no process started, no directory
   made, no exit status of a process logged *)
Definition inert (ev : event) : Prop :=
  match ev with
  | Spawn _ | Mkdir _ | Exited (Some _) => False
  | _ => True
  end.

(* what a run announces: its messages and the command lines it logs *)
Definition is_announcement (ev : event) : bool :=
  match ev with
  | Say _ | Running _ => true
  | _ => false
  end.

Definition announced (t : list event) : list event := filter is_announcement t.

(* a world in which mkdir and every external command succeed *)
Definition benign (w : World) : Prop :=
  (forall p, mkdir_parents w p = true) /\ (forall c, returncode w c = 0).

(* p is an initial segment of l *)
Definition prefix_of {A : Type} (p l : list A) : Prop := exists rest, l = p ++ rest.

End Further.
Export Further.

(** ** Further sample runs *)

Module MoreScenarios.

Local Open Scope string_scope.
Local Open Scope Z_scope.

Definition dry (options : Options) : Options :=
  mkOptions (source_dir options) (snapshot_dir options) (config_file options)
            true (time options) (config options).

Definition the_dry_util : Util := mkUtil "rotate.py" true.


(* a directory with a naive name and a name with a UTC offset *)
Definition zoned_world : World :=
  Scenarios.world_of
    [(["data-snapshots"; "daily"],
      [("2024-01-01 00:00", true); ("2024-01-02 00:00+01:00", true)])].



(* a section with an unknown method and a negative amount *)
Definition sloppy_options : Options :=
  Scenarios.options_at (mkdt 2024 1 3 9 0 0 0)
    (mkConfig [] [("a", [("method", "cp"); ("amount", "-1")]); ("b", [])]).

End MoreScenarios.

Module FurtherRelations.

(* two computations announce the same and end the same *)
Definition same_run {A} (m m' : M A) : Prop :=
  announced (trace m) = announced (trace m') /\ outcome m = outcome m'.

End FurtherRelations.
Export FurtherRelations.

(** ** The events a section may show *)

Module SectionEvents.

(* an event a section may show when its snapshot is made by [create] in the
   directory [parent] and the commands in [removal] remove its snapshots:
   nothing is started or made in a dry run, and nothing else ever *)
Definition section_event (dry : bool) (create : command) (parent : Path)
    (removal : command -> Prop) (ev : event) : Prop :=
  match ev with
  | Say _ | Exited _ => True
  | Running c => c = create \/ removal c
  | Spawn c => dry = false /\ (c = create \/ removal c)
  | Mkdir p => dry = false /\ p = parent
  | PrintOperationFailed | Traceback _ => False
  end.

(* every process started was logged before *)
Definition logged (t : list event) : Prop :=
  forall pre c post, t = pre ++ Spawn c :: post ->
    exists pre', pre = pre' ++ [Running c].

End SectionEvents.
Export SectionEvents.

(** ** The month table of [_ord2ymd] *)

Module MonthTable.

(* the month and the day that _ord2ymd finds for the 0-based day n of a
   year: the estimate (n + 50) >> 5, corrected by the table *)
Definition month_day (leapyear : bool) (n : Z) : Z * Z :=
  let m := Z.shiftr (n + 50) 5 in
  let preceding :=
    table DAYS_BEFORE_MONTH m + (if (2 <? m) && leapyear then 1 else 0) in
  if n <? preceding then
    let m' := m - 1 in
    let preceding' :=
      preceding
      - (table DAYS_IN_MONTH m' + (if (m' =? 2) && leapyear then 1 else 0)) in
    (m', n - preceding' + 1)
  else (m, n - preceding + 1).

(* the month found is a month, the day a day of it, and the days before
   them count up to n *)
Definition month_day_check (leapyear : bool) (n : Z) : bool :=
  let '(m, d) := month_day leapyear n in
  in_range 1 m 12
  && in_range 1 d (if (m =? 2) && leapyear then 29 else table DAYS_IN_MONTH m)
  && (table DAYS_BEFORE_MONTH m + (if (2 <? m) && leapyear then 1 else 0) + d
      =? n + 1).

Definition day_numbers : list Z := map Z.of_nat (seq 0 365).

End MonthTable.
Export MonthTable.

(** * Properties *)

(** ** Calendar arithmetic *)

Lemma valid_datetime_time t : valid_datetime t -> valid_time t.
Proof. unfold valid_datetime, valid_time. tauto. Qed.

Lemma valid_datetimeb_true t : valid_datetimeb t = true <-> valid_datetime t.
Proof.
  unfold valid_datetimeb, valid_datetime, in_range.
  rewrite !andb_true_iff, !Z.leb_le. lia.
Qed.

Lemma timedelta_norm_carry d s us :
  0 <= s * 1000000 + us < US_PER_DAY ->
  timedelta_norm d s us =
  mktd d ((s * 1000000 + us) / 1000000) ((s * 1000000 + us) mod 1000000).
Proof.
  intros Hr. unfold timedelta_norm.
  replace ((d * 86400 + s) * 1000000 + us)
    with ((s * 1000000 + us) + d * US_PER_DAY) by (unfold US_PER_DAY; lia).
  rewrite Z.div_add, Z.mod_add by (unfold US_PER_DAY; lia).
  rewrite Z.div_small, Z.mod_small by exact Hr.
  reflexivity.
Qed.

Lemma time_of_day_range t :
  valid_time t ->
  0 <= (hour t * 3600 + minute t * 60 + second t) * 1000000 + microsecond t
    < US_PER_DAY.
Proof. unfold valid_time, US_PER_DAY. lia. Qed.

Lemma table_before_month_range m :
  1 <= m <= 12 -> 0 <= table DAYS_BEFORE_MONTH m <= 334.
Proof.
  intros Hm.
  assert (Hc : m = 1 \/ m = 2 \/ m = 3 \/ m = 4 \/ m = 5 \/ m = 6 \/ m = 7
               \/ m = 8 \/ m = 9 \/ m = 10 \/ m = 11 \/ m = 12) by lia.
  repeat (destruct Hc as [-> | Hc]; [cbv; split; discriminate |]).
  subst m. cbv. split; discriminate.
Qed.

Lemma days_in_month_le y m : days_in_month y m <= 31.
Proof.
  unfold days_in_month.
  destruct ((m =? 2) && is_leap y); [lia |].
  unfold table, DAYS_IN_MONTH. generalize (Z.to_nat m) as n. intros n.
  do 13 (destruct n as [| n]; [simpl; lia |]).
  destruct n; simpl; lia.
Qed.

Lemma days_before_year_range y :
  1 <= y <= 9999 -> 0 <= days_before_year y <= 3651694.
Proof.
  intros Hy. unfold days_before_year.
  pose proof (Z.div_mod (y - 1) 4 ltac:(lia)).
  pose proof (Z.mod_pos_bound (y - 1) 4 ltac:(lia)).
  pose proof (Z.div_mod (y - 1) 100 ltac:(lia)).
  pose proof (Z.mod_pos_bound (y - 1) 100 ltac:(lia)).
  pose proof (Z.div_mod (y - 1) 400 ltac:(lia)).
  pose proof (Z.mod_pos_bound (y - 1) 400 ltac:(lia)).
  lia.
Qed.

Lemma toordinal_range t :
  valid_datetime t -> 1 <= toordinal t <= 3652060.
Proof.
  intros (Hy & Hm & Hd & _).
  unfold MINYEAR, MAXYEAR in Hy.
  unfold toordinal, ymd2ord, days_before_month.
  pose proof (days_before_year_range (year t) Hy).
  pose proof (table_before_month_range (month t) Hm).
  pose proof (days_in_month_le (year t) (month t)).
  destruct ((2 <? month t) && is_leap (year t)); lia.
Qed.

(** The range check of the timedelta constructor passes on the difference
    of two datetimes. *)
Lemma datetime_sub_in_range a b :
  valid_datetime a -> valid_datetime b ->
  let secs x := second x + minute x * 60 + hour x * 3600 in
  timedelta_new (toordinal a - toordinal b) (secs a - secs b)
                (microsecond a - microsecond b)
  = Some (datetime_sub a b).
Proof.
  intros Ha Hb secs. unfold timedelta_new.
  assert (Hd : Z.abs (days (datetime_sub a b)) <= 3652061).
  { pose proof (toordinal_range a Ha). pose proof (toordinal_range b Hb).
    pose proof (time_of_day_range a (valid_datetime_time a Ha)).
    pose proof (time_of_day_range b (valid_datetime_time b Hb)).
    unfold datetime_sub, timedelta_norm. simpl days.
    unfold US_PER_DAY in *.
    match goal with |- Z.abs (?n / ?d) <= _ =>
      pose proof (Z.div_mod n d ltac:(lia));
      pose proof (Z.mod_pos_bound n d ltac:(lia))
    end.
    lia. }
  change (timedelta_norm (toordinal a - toordinal b) (secs a - secs b)
            (microsecond a - microsecond b)) with (datetime_sub a b).
  destruct (Z.ltb_spec 999999999 (Z.abs (days (datetime_sub a b)))); [lia |].
  reflexivity.
Qed.

Lemma julian_day_ordinal t :
  valid_time t -> julian_day t = toordinal t - 1 + 1721426.
Proof.
  intros Ht. unfold julian_day, datetime_sub.
  cbn [second minute hour microsecond].
  change (toordinal (mkdt 1 1 1 0 0 0 0)) with 1.
  pose proof (time_of_day_range t Ht) as Hr.
  rewrite timedelta_norm_carry by lia.
  cbn [days]. lia.
Qed.

Lemma timedelta_whole_days off td :
  timedelta_new off 0 0 = Some td ->
  td = mktd off 0 0 /\ Z.abs off <= 999999999.
Proof.
  unfold timedelta_new.
  rewrite timedelta_norm_carry by (unfold US_PER_DAY; lia).
  cbn [days]. change ((0 * 1000000 + 0) / 1000000) with 0.
  change ((0 * 1000000 + 0) mod 1000000) with 0.
  destruct (Z.ltb_spec 999999999 (Z.abs off)); [discriminate |].
  intros [= <-]. split; [reflexivity | lia].
Qed.

Lemma split_seconds h m s :
  0 <= m < 60 -> 0 <= s < 60 ->
  (h * 3600 + m * 60 + s) / 3600 = h /\
  ((h * 3600 + m * 60 + s) mod 3600) / 60 = m /\
  ((h * 3600 + m * 60 + s) mod 3600) mod 60 = s.
Proof.
  intros Hm Hs.
  assert (Hq : (h * 3600 + m * 60 + s) / 3600 = h)
    by (symmetry; apply Z.div_unique with (r := m * 60 + s); lia).
  assert (Hr : (h * 3600 + m * 60 + s) mod 3600 = m * 60 + s)
    by (symmetry; apply Z.mod_unique with (q := h); lia).
  rewrite Hq, Hr. repeat split.
  - symmetry. apply Z.div_unique with (r := s); lia.
  - symmetry. apply Z.mod_unique with (q := m); lia.
Qed.

Lemma split_microseconds secs us :
  0 <= us < 1000000 ->
  (secs * 1000000 + us) / 1000000 = secs /\
  (secs * 1000000 + us) mod 1000000 = us.
Proof.
  intros Hus. split.
  - symmetry. apply Z.div_unique with (r := us); lia.
  - symmetry. apply Z.mod_unique with (q := secs); lia.
Qed.

(** Adding a whole number of days moves the date by that many ordinals and
    keeps the time of day; the sum is out of range exactly when the new
    ordinal is. *)
Lemma datetime_add_whole_days t off td :
  valid_datetime t ->
  timedelta_new off 0 0 = Some td ->
  datetime_add t td =
  if (0 <? toordinal t + off) && (toordinal t + off <=? MAXORDINAL) then
    let '(y, m, d) := ord2ymd (toordinal t + off) in
    Some (mkdt y m d (hour t) (minute t) (second t) (microsecond t))
  else None.
Proof.
  intros Ht Htd.
  destruct (timedelta_whole_days off td Htd) as [-> Hoff].
  pose proof (toordinal_range t Ht) as Hord.
  pose proof (time_of_day_range t (valid_datetime_time t Ht)) as Hr.
  destruct (valid_datetime_time t Ht) as (Hh & Hm & Hs & Hus).
  unfold datetime_add, timedelta_new.
  set (secs := hour t * 3600 + minute t * 60 + second t) in *.
  destruct (split_microseconds secs (microsecond t) Hus) as [Hq1 Hq2].
  rewrite timedelta_norm_carry by exact Hr.
  cbn [days seconds microseconds]. rewrite Hq1, Hq2.
  destruct (Z.ltb_spec 999999999 (Z.abs (toordinal t))) as [? | _]; [lia |].
  cbn [days seconds microseconds].
  rewrite !Z.add_0_r.
  rewrite timedelta_norm_carry by exact Hr.
  cbn [days seconds microseconds]. rewrite Hq1, Hq2.
  destruct (Z.ltb_spec 999999999 (Z.abs (toordinal t + off))) as [Hbig | _].
  - assert (Hmax : MAXORDINAL = 3652059) by reflexivity.
    destruct (Z.ltb_spec 0 (toordinal t + off));
    destruct (Z.leb_spec (toordinal t + off) MAXORDINAL);
    simpl; try reflexivity; lia.
  - cbn [days seconds microseconds].
    destruct (split_seconds (hour t) (minute t) (second t) Hm Hs)
      as (E1 & E2 & E3).
    fold secs in E1, E2, E3. rewrite E1, E2, E3. reflexivity.
Qed.

Lemma toordinal_same_date a b : same_date a b -> toordinal a = toordinal b.
Proof. intros (Ey & Em & Ed). unfold toordinal. rewrite Ey, Em, Ed. reflexivity. Qed.

Lemma isocalendar_same_date a b : same_date a b -> isocalendar a = isocalendar b.
Proof. intros (Ey & Em & Ed). unfold isocalendar. rewrite Ey, Em, Ed. reflexivity. Qed.

(** ** The interval calculator *)

Lemma interval_from_string_scheme s interval :
  interval_from_string s = Some interval -> is_scheme interval.
Proof.
  unfold interval_from_string, is_scheme. cbn [dict_get INTERVALS].
  repeat match goal with
         | |- context [String.eqb ?a ?b] => destruct (String.eqb a b)
         end;
    try (intros [= <-]; tauto).
  destruct (days_from_string (PyStr.strip s)) as [n |]; [| discriminate].
  destruct (Z.ltb_spec 0 n); [| discriminate].
  intros [= <-]. do 5 right. exists n. auto.
Qed.

Lemma scheme_date_only interval t1 t2 :
  is_scheme interval -> valid_time t1 -> valid_time t2 -> same_date t1 t2 ->
  interval t1 = interval t2.
Proof.
  intros Hs H1 H2 Hd.
  pose proof (isocalendar_same_date _ _ Hd) as Hiso.
  pose proof (toordinal_same_date _ _ Hd) as Hord.
  destruct Hd as (Ey & Em & Ed).
  destruct Hs as [-> | [-> | [-> | [-> | [-> | (n & Hn & ->)]]]]].
  - unfold interval_daily. rewrite Ey, Em, Ed. reflexivity.
  - unfold interval_weekly. rewrite Hiso. reflexivity.
  - unfold interval_monthly. rewrite Ey, Em. reflexivity.
  - unfold interval_biyearly. rewrite Ey, Em. reflexivity.
  - unfold interval_yearly. rewrite Ey. reflexivity.
  - unfold interval_custom. rewrite !julian_day_ordinal by assumption.
    rewrite Hord. reflexivity.
Qed.

Lemma date_sub_days a b : days (date_sub a b) = toordinal a - toordinal b.
Proof.
  unfold date_sub. rewrite timedelta_norm_carry by (unfold US_PER_DAY; lia).
  reflexivity.
Qed.

(** C8: for every positive n and every timestamp t, the key of t under the
    custom n-day scheme is floor(J / n), where J is the day difference
    between the date of t and 0001-01-01 plus 1721426; the first day of the
    proleptic Gregorian calendar has J = 1721426. *)
Theorem custom_interval_key (n : Z) (t : datetime) :
  0 < n -> valid_datetime t ->
  let J := days (date_sub t (mkdt 1 1 1 0 0 0 0)) + 1721426 in
  julian_day t = J /\
  interval_custom n t = KInt (J / n) /\
  n * (J / n) <= J < n * (J / n + 1) /\
  (toordinal t = 1 -> J = 1721426).
Proof.
  intros Hn Ht J.
  assert (HJ : julian_day t = J).
  { rewrite (julian_day_ordinal t (valid_datetime_time t Ht)).
    unfold J. rewrite date_sub_days. reflexivity. }
  split; [exact HJ |].
  split; [unfold interval_custom; rewrite HJ; reflexivity |].
  split.
  - pose proof (Z.div_mod J n ltac:(lia)).
    pose proof (Z.mod_pos_bound J n Hn). lia.
  - intros H1. unfold J. rewrite date_sub_days, H1. reflexivity.
Qed.

Lemma custom_interval_key_witness :
  interval_custom 30 (mkdt 2024 3 7 14 30 0 0) = KInt 82012 /\
  julian_day (mkdt 1 1 1 23 59 59 999999) = 1721426.
Proof.
  split.
  - apply (proj1 (proj2 (custom_interval_key 30 (mkdt 2024 3 7 14 30 0 0)
                           ltac:(lia) ltac:(cbv; intuition discriminate)))).
  - apply (proj1 (custom_interval_key 1 (mkdt 1 1 1 23 59 59 999999)
                    ltac:(lia) ltac:(cbv; intuition discriminate))).
Defined.

(** ** The turn of the year *)

Lemma all_years (P : Z -> bool) :
  forallb P (map Z.of_nat (seq 1 (Z.to_nat 9998))) = true ->
  forall y, 1 <= y <= 9998 -> P y = true.
Proof.
  intros H y Hy. rewrite forallb_forall in H. apply H.
  apply in_map_iff. exists (Z.to_nat y). split; [lia |].
  apply in_seq. lia.
Qed.

Lemma weekly_new_year y : 1 <= y <= 9998 -> weekly_new_year_check y = true.
Proof. apply all_years. vm_compute. reflexivity. Qed.

Lemma new_year_ordinal y : 1 <= y <= 9998 -> new_year_ordinal_check y = true.
Proof. apply all_years. vm_compute. reflexivity. Qed.

Lemma floor_succ_boundary J n :
  0 < n -> (J / n =? (J + 1) / n) = false <-> (J + 1) mod n = 0.
Proof.
  intros Hn.
  pose proof (Z.div_mod J n ltac:(lia)) as HJ.
  pose proof (Z.mod_pos_bound J n Hn) as Hr.
  destruct (Z.eq_dec (J mod n + 1) n) as [Hlast | Hin].
  - assert (Hq : (J + 1) / n = J / n + 1)
      by (symmetry; apply Z.div_unique with (r := 0); lia).
    assert (Hm : (J + 1) mod n = 0)
      by (symmetry; apply Z.mod_unique with (q := J / n + 1); lia).
    rewrite Hq, Hm. split; [reflexivity | intros _; apply Z.eqb_neq; lia].
  - assert (Hq : (J + 1) / n = J / n)
      by (symmetry; apply Z.div_unique with (r := J mod n + 1); lia).
    assert (Hm : (J + 1) mod n = J mod n + 1)
      by (symmetry; apply Z.mod_unique with (q := J / n); lia).
    rewrite Hq, Hm, Z.eqb_refl. split; [discriminate | lia].
Qed.

(** C5 (as the spec states it, refuted): 2024-12-31 and 2025-01-01 lie in
    the same ISO week, so their weekly keys are equal. *)
Lemma weekly_key_shared_across_new_year :
  let t1 := mkdt 2024 12 31 23 59 0 0 in
  let t2 := mkdt 2025 1 1 0 0 0 0 in
  valid_datetime t1 /\ valid_datetime t2 /\
  interval_weekly t1 = KTuple [2025; 1] /\
  interval_weekly t2 = KTuple [2025; 1] /\
  key_eqb (interval_weekly t1) (interval_weekly t2) = true.
Proof.
  cbv zeta. repeat split; try reflexivity; cbv; discriminate.
Qed.

(** C5 (amended): two timestamps of one calendar day have the same daily
    key; for t1 on a December 31 and t2 on the following January 1 the keys
    differ under daily, monthly, biyearly and yearly, they differ under
    weekly exactly when that January 1 is a Monday, and under a custom n-day
    scheme exactly when n divides the Julian day of that January 1. *)
Theorem year_boundary_keys (t1 t2 : datetime) :
  valid_datetime t1 -> valid_datetime t2 ->
  (same_date t1 t2 -> interval_daily t1 = interval_daily t2) /\
  (month t1 = 12 -> day t1 = 31 ->
   year t2 = year t1 + 1 -> month t2 = 1 -> day t2 = 1 ->
   key_eqb (interval_daily t1) (interval_daily t2) = false /\
   key_eqb (interval_monthly t1) (interval_monthly t2) = false /\
   key_eqb (interval_biyearly t1) (interval_biyearly t2) = false /\
   key_eqb (interval_yearly t1) (interval_yearly t2) = false /\
   (key_eqb (interval_weekly t1) (interval_weekly t2) = false
    <-> weekday t2 = 0) /\
   (forall n, 0 < n ->
      key_eqb (interval_custom n t1) (interval_custom n t2) = false
      <-> julian_day t2 mod n = 0)).
Proof.
  intros H1 H2. split.
  - intros (Ey & Em & Ed). unfold interval_daily. rewrite Ey, Em, Ed. reflexivity.
  - intros Em1 Ed1 Ey Em2 Ed2.
    assert (Hy : 1 <= year t1 <= 9998).
    { destruct H1 as (Hy1 & _), H2 as (Hy2 & _).
      unfold MINYEAR, MAXYEAR in *. lia. }
    assert (Hne : (year t1 =? year t2) = false) by (apply Z.eqb_neq; lia).
    repeat split.
    + unfold interval_daily. cbn [key_eqb tuple_eqb]. rewrite Hne. reflexivity.
    + unfold interval_monthly. cbn [key_eqb tuple_eqb]. rewrite Hne. reflexivity.
    + unfold interval_biyearly. cbn [key_eqb tuple_eqb]. rewrite Hne. reflexivity.
    + unfold interval_yearly. cbn [key_eqb]. exact Hne.
    + intros Hk. pose proof (weekly_new_year (year t1) Hy) as Hc.
      unfold weekly_new_year_check in Hc. cbv zeta in Hc.
      unfold interval_weekly in Hk, Hc.
      rewrite (isocalendar_same_date t1 (mkdt (year t1) 12 31 0 0 0 0)) in Hk
        by (repeat split; assumption).
      rewrite (isocalendar_same_date t2 (mkdt (year t1 + 1) 1 1 0 0 0 0)) in Hk
        by (repeat split; assumption).
      rewrite Hk in Hc. apply Bool.eqb_prop in Hc. symmetry in Hc.
      apply Z.eqb_eq in Hc. unfold weekday in *.
      rewrite (toordinal_same_date t2 (mkdt (year t1 + 1) 1 1 0 0 0 0))
        by (repeat split; assumption).
      exact Hc.
    + intros Hw. pose proof (weekly_new_year (year t1) Hy) as Hc.
      unfold weekly_new_year_check in Hc. cbv zeta in Hc.
      unfold interval_weekly in Hc |- *.
      rewrite (isocalendar_same_date t1 (mkdt (year t1) 12 31 0 0 0 0))
        by (repeat split; assumption).
      rewrite (isocalendar_same_date t2 (mkdt (year t1 + 1) 1 1 0 0 0 0))
        by (repeat split; assumption).
      unfold weekday in Hw, Hc.
      rewrite (toordinal_same_date t2 (mkdt (year t1 + 1) 1 1 0 0 0 0)) in Hw
        by (repeat split; assumption).
      rewrite Hw in Hc. change (0 =? 0) with true in Hc.
      apply Bool.eqb_prop in Hc. apply negb_true_iff in Hc. exact Hc.
    + unfold interval_custom. cbn [key_eqb].
      rewrite !julian_day_ordinal by (apply valid_datetime_time; assumption).
      pose proof (new_year_ordinal (year t1) Hy) as Ho.
      unfold new_year_ordinal_check in Ho. apply Z.eqb_eq in Ho.
      unfold toordinal. rewrite Em1, Ed1, Ey, Em2, Ed2, Ho.
      replace (ymd2ord (year t1) 12 31 + 1 - 1 + 1721426)
        with (ymd2ord (year t1) 12 31 - 1 + 1721426 + 1) by lia.
      apply floor_succ_boundary; assumption.
    + unfold interval_custom. cbn [key_eqb].
      rewrite !julian_day_ordinal by (apply valid_datetime_time; assumption).
      pose proof (new_year_ordinal (year t1) Hy) as Ho.
      unfold new_year_ordinal_check in Ho. apply Z.eqb_eq in Ho.
      unfold toordinal. rewrite Em1, Ed1, Ey, Em2, Ed2, Ho.
      replace (ymd2ord (year t1) 12 31 + 1 - 1 + 1721426)
        with (ymd2ord (year t1) 12 31 - 1 + 1721426 + 1) by lia.
      apply floor_succ_boundary; assumption.
Qed.

Lemma year_boundary_keys_witness :
  let t1 := mkdt 2023 12 31 10 0 0 0 in
  let t2 := mkdt 2024 1 1 9 30 0 0 in
  key_eqb (interval_yearly t1) (interval_yearly t2) = false /\
  key_eqb (interval_weekly t1) (interval_weekly t2) = false.
Proof.
  intros t1 t2.
  assert (V1 : valid_datetime t1) by (cbv; intuition discriminate).
  assert (V2 : valid_datetime t2) by (cbv; intuition discriminate).
  destruct (year_boundary_keys t1 t2 V1 V2) as [_ H].
  destruct (H eq_refl eq_refl eq_refl eq_refl eq_refl)
    as (_ & _ & _ & Hy & Hw & _).
  split; [exact Hy | apply Hw; reflexivity].
Defined.

(** ** The snapshot catalog *)

Lemma list_ltb_asym a b : list_ltb a b = true -> list_ltb b a = false.
Proof.
  revert b. induction a as [| x a IH]; intros [| y b]; simpl; try congruence.
  intros H. apply orb_true_iff in H. apply orb_false_iff.
  destruct H as [H | H].
  - apply Z.ltb_lt in H. split; [apply Z.ltb_ge; lia |].
    apply andb_false_iff. left. apply Z.eqb_neq. lia.
  - apply andb_true_iff in H. destruct H as [E H]. apply Z.eqb_eq in E. subst y.
    split; [apply Z.ltb_irrefl |]. rewrite Z.eqb_refl. simpl. apply IH, H.
Qed.

Lemma list_ltb_ge_trans (a b c : list Z) :
  List.length a = List.length b -> List.length b = List.length c ->
  list_ltb b a = false -> list_ltb c b = false -> list_ltb c a = false.
Proof.
  revert b c. induction a as [| x a IH]; intros [| y b] [| z c]; simpl;
    try congruence; try discriminate.
  intros La Lb Hba Hcb. injection La as La. injection Lb as Lb.
  apply orb_false_iff in Hba. destruct Hba as [Hyx Hba].
  apply orb_false_iff in Hcb. destruct Hcb as [Hzy Hcb].
  apply Z.ltb_ge in Hyx. apply Z.ltb_ge in Hzy.
  apply orb_false_iff. split; [apply Z.ltb_ge; lia |].
  destruct (Z.eqb_spec z x) as [-> | Hne]; [| reflexivity]. simpl.
  assert (y = x) by lia. subst y.
  rewrite Z.eqb_refl in Hba, Hcb. simpl in Hba, Hcb.
  apply (IH b c); assumption.
Qed.

Lemma tuple_eqb_eq a b : tuple_eqb a b = true <-> a = b.
Proof.
  revert b. induction a as [| x a IH]; intros [| y b]; simpl;
    try (split; congruence).
  rewrite andb_true_iff, Z.eqb_eq, IH. split.
  - intros [-> ->]. reflexivity.
  - intros [= -> ->]. auto.
Qed.

Lemma list_ltb_irrefl a : list_ltb a a = false.
Proof.
  induction a as [| x a IH]; simpl; [reflexivity |].
  rewrite Z.ltb_irrefl, Z.eqb_refl. exact IH.
Qed.

Lemma when_le_trans a b c : when_le a b -> when_le b c -> when_le a c.
Proof.
  unfold when_le, datetime_ltb. intros Hab Hbc.
  apply (list_ltb_ge_trans _ (cmp_fields (when b))); auto.
Qed.

Lemma when_lt_le a b : datetime_ltb (when a) (when b) = true -> when_le a b.
Proof. unfold when_le, datetime_ltb. apply list_ltb_asym. Qed.

Lemma insert_by_when_in x l s :
  In s (insert_by_when x l) <-> s = x \/ In s l.
Proof.
  induction l as [| y l IH]; simpl.
  - intuition congruence.
  - destruct (datetime_ltb (when y) (when x)); simpl; rewrite ?IH;
      intuition congruence.
Qed.

Lemma insert_by_when_sorted x l :
  StronglySorted when_le l -> StronglySorted when_le (insert_by_when x l).
Proof.
  induction 1 as [| y l Hs IH Hy]; simpl.
  - constructor; constructor.
  - destruct (datetime_ltb (when y) (when x)) eqn:Hlt.
    + constructor; [exact IH |].
      apply Forall_forall. intros s Hin.
      apply insert_by_when_in in Hin. destruct Hin as [-> | Hin].
      * apply when_lt_le, Hlt.
      * rewrite Forall_forall in Hy. apply Hy, Hin.
    + constructor; [constructor; assumption |].
      constructor; [exact Hlt |].
      apply Forall_forall. intros s Hin.
      rewrite Forall_forall in Hy.
      apply (when_le_trans x y s); [exact Hlt | apply Hy, Hin].
Qed.

Lemma sort_by_when_sorted l : StronglySorted when_le (sort_by_when l).
Proof.
  induction l as [| x l IH]; simpl; [constructor |].
  apply insert_by_when_sorted, IH.
Qed.

Lemma insert_by_when_perm x l : Permutation (insert_by_when x l) (x :: l).
Proof.
  induction l as [| y l IH]; simpl; [reflexivity |].
  destruct (datetime_ltb (when y) (when x)); [| reflexivity].
  rewrite IH. apply perm_swap.
Qed.

Lemma sort_by_when_perm l : Permutation (sort_by_when l) l.
Proof.
  induction l as [| x l IH]; simpl; [reflexivity |].
  rewrite insert_by_when_perm. constructor. exact IH.
Qed.

Lemma sort_by_when_in l s : In s (sort_by_when l) <-> In s l.
Proof.
  split; apply Permutation_in;
    [apply sort_by_when_perm | symmetry; apply sort_by_when_perm].
Qed.

(** The sort is stable: the snapshots of one timestamp keep their order. *)
Lemma insert_by_when_stable t x l :
  filter (taken_at t) (insert_by_when x l) = filter (taken_at t) (x :: l).
Proof.
  induction l as [| y l IH]; [reflexivity |].
  cbn [insert_by_when].
  destruct (datetime_ltb (when y) (when x)) eqn:Hlt; [| reflexivity].
  cbn [filter] in *. rewrite IH.
  destruct (taken_at t x) eqn:Hx; [| reflexivity].
  destruct (taken_at t y) eqn:Hy; [| reflexivity].
  exfalso. unfold taken_at, datetime_eqb in Hx, Hy.
  apply tuple_eqb_eq in Hx. apply tuple_eqb_eq in Hy.
  unfold datetime_ltb in Hlt. rewrite Hx, Hy, list_ltb_irrefl in Hlt.
  discriminate.
Qed.

Lemma sort_by_when_stable t l :
  filter (taken_at t) (sort_by_when l) = filter (taken_at t) l.
Proof.
  induction l as [| x l IH]; [reflexivity |].
  cbn [sort_by_when fold_right]. fold (sort_by_when l).
  rewrite insert_by_when_stable. cbn [filter]. rewrite IH. reflexivity.
Qed.

Section CatalogFacts.

Variable fromisoformat : string -> option datetime.

Lemma scan_children_spec util directory children acc :
  scan_children fromisoformat util directory children acc =
  (skip_diagnostics fromisoformat directory children,
   Ok (acc ++ parsed_entries fromisoformat directory children)).
Proof.
  revert acc. induction children as [| [name is_dir] rest IH]; intros acc.
  - simpl. unfold ret. rewrite app_nil_r. reflexivity.
  - cbn [scan_children]. unfold skip_diagnostics, parsed_entries.
    cbn [filter_map]. destruct is_dir; cbn [negb].
    + destruct (fromisoformat name) as [dt |]; cbn [option_map].
      * rewrite IH. rewrite <- app_assoc. reflexivity.
      * unfold bind, say, emit. rewrite IH. reflexivity.
    + unfold bind, say, emit. rewrite IH. reflexivity.
Qed.

Lemma find_snapshots_spec w util directory :
  find_snapshots fromisoformat w util directory =
  match iterdir w directory with
  | None => ([], Ok [])
  | Some children =>
    (skip_diagnostics fromisoformat directory children,
     Ok (sort_by_when (parsed_entries fromisoformat directory children)))
  end.
Proof.
  unfold find_snapshots. destruct (iterdir w directory) as [children |];
    [| reflexivity].
  rewrite scan_children_spec. unfold bind, ret. cbn [app].
  rewrite app_nil_r. reflexivity.
Qed.

End CatalogFacts.

(** ** Reading interval and offset strings *)

Module StripFacts.

Import PyStr.

Lemma split_last_cons c s :
  split_last (String c s) =
  match split_last s with
  | None => Some (EmptyString, c)
  | Some (init, l) => Some (String c init, l)
  end.
Proof. reflexivity. Qed.

Lemma split_last_none s : split_last s = None -> s = EmptyString.
Proof.
  destruct s as [| c s]; [reflexivity |].
  rewrite split_last_cons. destruct (split_last s) as [[init l] |]; discriminate.
Qed.

Lemma split_last_app p c :
  split_last (p ++ String c EmptyString) = Some (p, c).
Proof.
  induction p as [| x p IH]; [reflexivity |].
  cbn [append]. rewrite split_last_cons, IH. reflexivity.
Qed.

Lemma split_last_inv s p c :
  split_last s = Some (p, c) -> s = (p ++ String c EmptyString)%string.
Proof.
  revert p. induction s as [| x s IH]; intros p; [discriminate |].
  rewrite split_last_cons.
  destruct (split_last s) as [[init l] |] eqn:E.
  - intros [= <- <-]. cbn [append]. rewrite (IH init eq_refl). reflexivity.
  - intros [= <- <-]. apply split_last_none in E. subst s. reflexivity.
Qed.

Section By.

Variable sp : ascii -> bool.

Lemma rstrip_no_trail s : no_trail sp (rstrip_by sp s).
Proof.
  unfold no_trail. induction s as [| c s IH]; [exact I |].
  cbn [rstrip_by]. destruct (rstrip_by sp s) as [| d r] eqn:E.
  - destruct (sp c) eqn:Hc; [exact I | exact Hc].
  - rewrite split_last_cons.
    destruct (split_last (String d r)) as [[init l] |] eqn:E'; [exact IH |].
    apply split_last_none in E'. discriminate.
Qed.

Lemma rstrip_fix s : no_trail sp s -> rstrip_by sp s = s.
Proof.
  unfold no_trail. induction s as [| c s IH]; [reflexivity |].
  rewrite split_last_cons. cbn [rstrip_by].
  destruct (split_last s) as [[init l] |] eqn:E.
  - intros Hl. rewrite (IH Hl).
    destruct s; [discriminate | reflexivity].
  - intros Hc. apply split_last_none in E. subst s. cbn [rstrip_by].
    rewrite Hc. reflexivity.
Qed.

Lemma lstrip_no_lead s : no_lead sp (lstrip_by sp s).
Proof.
  induction s as [| c s IH]; [exact I |].
  cbn [lstrip_by]. destruct (sp c) eqn:Hc; [exact IH | exact Hc].
Qed.

Lemma lstrip_fix s : no_lead sp s -> lstrip_by sp s = s.
Proof.
  destruct s as [| c s]; [reflexivity |].
  cbn [no_lead lstrip_by]. intros ->. reflexivity.
Qed.

Lemma lstrip_keeps_no_trail s : no_trail sp s -> no_trail sp (lstrip_by sp s).
Proof.
  induction s as [| c s IH]; [trivial |].
  intros Ht. cbn [lstrip_by]. destruct (sp c); [| exact Ht].
  apply IH. unfold no_trail in *. rewrite split_last_cons in Ht.
  destruct (split_last s) as [[init l] |]; [exact Ht | exact I].
Qed.

Lemma strip_by_fix s : no_lead sp s -> no_trail sp s -> strip_by sp s = s.
Proof.
  intros Hl Ht. unfold strip_by. rewrite (rstrip_fix s Ht). apply lstrip_fix, Hl.
Qed.

Lemma strip_by_idempotent s : strip_by sp (strip_by sp s) = strip_by sp s.
Proof.
  apply strip_by_fix; unfold strip_by.
  - apply lstrip_no_lead.
  - apply lstrip_keeps_no_trail, rstrip_no_trail.
Qed.

End By.

Lemma strip_fix s : no_lead isspace s -> no_trail isspace s -> strip s = s.
Proof. apply strip_by_fix. Qed.

Lemma strip_idempotent s : strip (strip s) = strip s.
Proof. apply strip_by_idempotent. Qed.

End StripFacts.

Module SchemeStrings.

Import PyStr StripFacts.
Local Open Scope string_scope.
Local Open Scope Z_scope.

Lemma names_do_not_end_in_d p : dict_get INTERVALS (p ++ "d") = None.
Proof.
  cbn [dict_get INTERVALS].
  repeat match goal with
  | |- context [String.eqb ?a ?b] =>
    destruct (String.eqb_spec a b) as [E | _];
      [apply (f_equal split_last) in E; rewrite split_last_app in E;
       cbv in E; discriminate |]
  end.
  reflexivity.
Qed.

Lemma digit_not_space c d :
  digit_of c = Some d -> isspace c = false /\ int_blank c = false.
Proof.
  unfold digit_of, isspace, int_blank, Py_ISSPACE, in_range.
  destruct ((48 <=? code c) && (code c <=? 57)) eqn:E; [| discriminate].
  intros _. apply andb_true_iff in E. destruct E as [E1 E2].
  apply Z.leb_le in E1. apply Z.leb_le in E2.
  split;
    repeat match goal with
           | |- context [?a <=? ?b] => destruct (Z.leb_spec a b); try lia
           | |- context [?a =? ?b] => destruct (Z.eqb_spec a b); try lia
           end; reflexivity.
Qed.

Lemma all_digits_last p init c :
  all_digits p = true -> split_last p = Some (init, c) ->
  exists d, digit_of c = Some d.
Proof.
  revert init. induction p as [| x p IH]; intros init; [discriminate |].
  cbn [all_digits]. destruct (digit_of x) as [d |] eqn:Hx; [| discriminate].
  intros Hp. rewrite split_last_cons.
  destruct (split_last p) as [[init' l] |] eqn:E.
  - intros [= <- <-]. eapply IH; eauto.
  - intros [= <- <-]. eauto.
Qed.

Lemma digits_strip p : all_digits p = true -> strip_by int_blank p = p.
Proof.
  intros Hp. apply strip_by_fix.
  - destruct p as [| x p]; [exact I |]. cbn [all_digits] in Hp. cbn [no_lead].
    destruct (digit_of x) as [d |] eqn:Hx; [| discriminate].
    apply (digit_not_space x d Hx).
  - unfold no_trail. destruct (split_last p) as [[init c] |] eqn:E; [| exact I].
    destruct (all_digits_last p init c Hp E) as [d Hd].
    apply (digit_not_space c d Hd).
Qed.

Lemma count_digits_le p : 0 <= count_digits p <= Z.of_nat (String.length p).
Proof.
  induction p as [| x p IH]; cbn [count_digits String.length]; [lia |].
  destruct (digit_of x); lia.
Qed.

(** A string of at most 4300 digits is read by its digits. *)
Lemma digits_int p :
  all_digits p = true -> (String.length p <= 4300)%nat ->
  int p = int_digits 0 true p.
Proof.
  intros Hp Hlen. unfold int. rewrite (digits_strip p Hp).
  assert (Hlit : int_literal p = int_digits 0 true p).
  { unfold int_literal, MAX_STR_DIGITS.
    pose proof (count_digits_le p).
    destruct (Z.ltb_spec 4300 (count_digits p)); [lia | reflexivity]. }
  destruct p as [| x p]; [reflexivity |].
  cbn [all_digits] in Hp. destruct (digit_of x) as [d |] eqn:Hx; [| discriminate].
  destruct (Ascii.eqb_spec x "+"%char) as [-> | Hplus]; [discriminate Hx |].
  destruct (Ascii.eqb_spec x "-"%char) as [-> | Hminus]; [discriminate Hx |].
  rewrite <- Hlit.
  destruct x as [[] [] [] [] [] [] [] []]; try reflexivity; congruence.
Qed.

Lemma interval_from_string_iff s i :
  interval_from_string s = Some i <->
  (strip s = "daily" /\ i = interval_daily) \/
  (strip s = "weekly" /\ i = interval_weekly) \/
  (strip s = "monthly" /\ i = interval_monthly) \/
  (strip s = "biyearly" /\ i = interval_biyearly) \/
  (strip s = "yearly" /\ i = interval_yearly) \/
  (exists p n, strip s = p ++ "d" /\ int p = Some n /\ 0 < n /\
               i = interval_custom n).
Proof.
  split.
  - unfold interval_from_string. cbn [dict_get INTERVALS].
    repeat match goal with
    | |- context [String.eqb ?a ?b] =>
      destruct (String.eqb_spec a b) as [E | _];
        [intros [= <-]; tauto |]
    end.
    unfold days_from_string. rewrite strip_idempotent.
    destruct (split_last (strip s)) as [[p c] |] eqn:E; [| discriminate].
    destruct (Ascii.eqb_spec c "d"%char) as [-> | _]; [| discriminate].
    destruct (int p) as [n |] eqn:Hn; [| discriminate].
    destruct (Z.ltb_spec 0 n); [| discriminate].
    intros [= <-]. do 5 right. exists p, n.
    split; [apply split_last_inv, E | auto].
  - intros [[E ->] | [[E ->] | [[E ->] | [[E ->] | [[E ->] | H]]]]];
      try (unfold interval_from_string; rewrite E; reflexivity).
    destruct H as (p & n & E & Hn & Hpos & ->).
    unfold interval_from_string. rewrite E, names_do_not_end_in_d.
    unfold days_from_string. rewrite <- E, strip_idempotent, E.
    rewrite split_last_app, Ascii.eqb_refl, Hn.
    destruct (Z.ltb_spec 0 n); [reflexivity | lia].
Qed.

Lemma length_append (p q : string) :
  String.length (p ++ q) = (String.length p + String.length q)%nat.
Proof. induction p as [| x p IH]; cbn; [reflexivity | rewrite IH; reflexivity]. Qed.

Lemma specified_strings_resolve s :
  scheme_string_as_specified s = true -> (String.length s <= 4301)%nat ->
  interval_from_string s <> None.
Proof.
  unfold scheme_string_as_specified. intros H Hlen.
  apply orb_true_iff in H. destruct H as [H | H].
  - cbn [existsb] in H.
    repeat match type of H with
    | (String.eqb ?a ?b || _) = true =>
      apply orb_true_iff in H; destruct H as [H | H];
        [apply String.eqb_eq in H; subst s; discriminate |]
    end.
    discriminate.
  - destruct (split_last s) as [[p c] |] eqn:E; [| discriminate].
    apply andb_true_iff in H. destruct H as [H Hn].
    apply andb_true_iff in H. destruct H as [Hc Hp].
    apply Ascii.eqb_eq in Hc. subst c.
    destruct (int_digits 0 true p) as [n |] eqn:Hi; [| discriminate].
    apply Z.ltb_lt in Hn. apply split_last_inv in E.
    assert (Hs : strip s = s).
    { subst s. apply strip_fix.
      - destruct p as [| x p]; [discriminate |]. cbn [append no_lead].
        cbn [all_digits] in Hp.
        destruct (digit_of x) as [d |] eqn:Hx; [| discriminate].
        apply (digit_not_space x d Hx).
      - unfold no_trail. rewrite split_last_app. reflexivity. }
    assert (Hplen : (String.length p <= 4300)%nat).
    { rewrite E, length_append in Hlen. cbn in Hlen. lia. }
    assert (R : interval_from_string s = Some (interval_custom n)).
    { apply interval_from_string_iff. do 5 right. exists p, n.
      rewrite Hs, (digits_int p Hp Hplen). auto. }
    rewrite R. discriminate.
Qed.

End SchemeStrings.

(** C7 (as the spec states it, refuted): a name with surrounding blanks and
    a signed day count are resolved although neither is one of the five
    names as spelled nor digits followed by d. *)
Lemma padded_scheme_string_resolves :
  scheme_string_as_specified " daily"%string = false /\
  interval_from_string " daily"%string = Some interval_daily /\
  scheme_string_as_specified "+30d"%string = false /\
  interval_from_string "+30d"%string = Some (interval_custom 30).
Proof. repeat split. Qed.

(** C7 (amended): on text of code points below 256, interval_from_string
    first strips surrounding whitespace; the stripped string resolves
    exactly when it is one of the five names, spelled case-sensitively, or
    ends in d after a prefix that int() reads as a positive integer (int()
    reads no more than 4300 digits); every string of the spec's own grammar
    of at most 4301 characters resolves; "0d" and "-5d" do not, "30d" does,
    to the same scheme on every call. *)
Theorem interval_from_string_resolution (s : string) (i : Interval) :
  (interval_from_string s = Some i <->
   (PyStr.strip s = "daily"%string /\ i = interval_daily) \/
   (PyStr.strip s = "weekly"%string /\ i = interval_weekly) \/
   (PyStr.strip s = "monthly"%string /\ i = interval_monthly) \/
   (PyStr.strip s = "biyearly"%string /\ i = interval_biyearly) \/
   (PyStr.strip s = "yearly"%string /\ i = interval_yearly) \/
   (exists p n, PyStr.strip s = (p ++ "d")%string /\ PyStr.int p = Some n /\
                0 < n /\ i = interval_custom n)) /\
  (scheme_string_as_specified s = true -> (String.length s <= 4301)%nat ->
   interval_from_string s <> None) /\
  interval_from_string "0d"%string = None /\
  interval_from_string "-5d"%string = None /\
  interval_from_string "30d"%string = Some (interval_custom 30) /\
  interval_from_string "Daily"%string = None /\
  interval_from_string "d"%string = None.
Proof.
  split; [apply SchemeStrings.interval_from_string_iff |].
  split; [apply SchemeStrings.specified_strings_resolve |].
  repeat split.
Qed.

Lemma interval_from_string_resolution_witness :
  interval_from_string "  60d "%string = Some (interval_custom 60) /\
  interval_from_string "0060d"%string <> None.
Proof.
  split.
  - apply (proj1 (interval_from_string_resolution "  60d " (interval_custom 60))).
    do 5 right. exists "60"%string, 60. repeat split.
  - apply (proj1 (proj2 (interval_from_string_resolution "0060d" interval_daily)));
      [reflexivity | cbn; lia].
Defined.

(** ** Traces *)

Lemma filter_map_app {A B} (f : A -> option B) (l1 l2 : list A) :
  filter_map f (l1 ++ l2) = filter_map f l1 ++ filter_map f l2.
Proof.
  induction l1 as [| x l1 IH]; [reflexivity |].
  simpl. destruct (f x); [simpl; f_equal |]; exact IH.
Qed.

Lemma created_app t1 t2 : created (t1 ++ t2) = created t1 ++ created t2.
Proof. apply filter_map_app. Qed.

Lemma removed_app t1 t2 : removed (t1 ++ t2) = removed t1 ++ removed t2.
Proof. apply filter_map_app. Qed.

Lemma processed_app t1 t2 : processed (t1 ++ t2) = processed t1 ++ processed t2.
Proof. apply filter_map_app. Qed.

Lemma bind_eq {A B} (m : M A) (f : A -> M B) :
  bind m f =
  match m with
  | (t, Ok a) => (t ++ trace (f a), outcome (f a))
  | (t, Raise e) => (t, Raise e)
  end.
Proof.
  unfold bind, trace, outcome. destruct m as [t [a | e]]; [| reflexivity].
  destruct (f a). reflexivity.
Qed.

Lemma M_eta {A} (m : M A) : m = (trace m, outcome m).
Proof. destruct m. reflexivity. Qed.

Lemma silent_trace t :
  Forall silent t ->
  ~ decided_creation t /\ created t = [] /\ removed t = [] /\ processed t = [].
Proof.
  induction 1 as [| ev t (H1 & H2 & H3 & H4) _ (I1 & I2 & I3 & I4)].
  - repeat split. intros [].
  - unfold decided_creation, created, removed, processed in *.
    cbn [filter_map]. rewrite H2, H3, H4. repeat split; try assumption.
    intros [E | Hin]; [congruence | tauto].
Qed.

Lemma key_eqb_eq a b : key_eqb a b = true <-> a = b.
Proof.
  destruct a as [x | x], b as [y | y]; simpl.
  - rewrite Z.eqb_eq. split; congruence.
  - split; discriminate.
  - split; discriminate.
  - rewrite tuple_eqb_eq. split; congruence.
Qed.

(** ** The mechanism *)

Lemma method_run_cases w util c :
  exists rest r,
    method_run w util c = (Running c :: rest, r) /\
    Forall silent rest /\
    (r = Ok tt \/ r = Raise OperationFailedException).
Proof.
  unfold method_run, util_run, try_except, bind, emit, ret, raise.
  destruct (dry_run util).
  - eexists _, _. split; [reflexivity |]. split; [| left; reflexivity].
    repeat constructor; discriminate.
  - destruct (returncode w c =? 0).
    + eexists _, _. split; [reflexivity |]. split; [| left; reflexivity].
      repeat constructor; discriminate.
    + eexists _, _. split; [reflexivity |]. split; [| right; reflexivity].
      repeat constructor; discriminate.
Qed.

Lemma create_target_command m source target :
  create_target (Running (create_command m source target)) = Some target /\
  remove_target (Running (create_command m source target)) = None.
Proof. destruct m; split; reflexivity. Qed.

Lemma remove_target_command m target :
  remove_target (Running (remove_command m target)) = Some target /\
  create_target (Running (remove_command m target)) = None.
Proof. destruct m; split; reflexivity. Qed.

Lemma remove_snapshot_spec w util m target :
  let r := remove_snapshot w util m target in
  removed (trace r) = [target] /\ created (trace r) = [] /\
  ~ decided_creation (trace r) /\ processed (trace r) = [] /\
  (outcome r = Ok tt \/ outcome r = Raise OperationFailedException).
Proof.
  unfold remove_snapshot.
  destruct (method_run_cases w util (remove_command m target))
    as (rest & r & -> & Hs & Hr).
  destruct (silent_trace rest Hs) as (S1 & S2 & S3 & S4).
  destruct (remove_target_command m target) as [E1 E2].
  cbn [trace outcome fst snd].
  unfold removed, created, processed, decided_creation in *.
  cbn [filter_map section_started]. rewrite E1, E2, S2, S3, S4.
  split; [reflexivity |]. split; [reflexivity |].
  split; [| split; [reflexivity | exact Hr]].
  intros [E | Hin]; [discriminate | exact (S1 Hin)].
Qed.

Lemma create_snapshot_spec w util m source target :
  let r := create_snapshot w util m source target in
  (forall p, In p (created (trace r)) -> p = target) /\
  (outcome r = Ok tt ->
   created (trace r) = [target] /\ path_exists w target = false) /\
  removed (trace r) = [] /\ ~ decided_creation (trace r) /\
  processed (trace r) = [] /\
  (outcome r = Ok tt \/ outcome r = Raise OperationFailedException).
Proof.
  unfold create_snapshot, prepare_target.
  destruct (method_run_cases w util (create_command m source target))
    as (rest & r & Hrun & Hs & Hr).
  destruct (silent_trace rest Hs) as (S1 & S2 & S3 & S4).
  destruct (create_target_command m source target) as [E1 E2].
  assert (Hfail : forall t : list event,
    (forall ev, In ev t -> silent ev) ->
    let r := (t, @Raise unit OperationFailedException) in
    (forall p, In p (created (trace r)) -> p = target) /\
    (outcome r = Ok tt ->
     created (trace r) = [target] /\ path_exists w target = false) /\
    removed (trace r) = [] /\ ~ decided_creation (trace r) /\
    processed (trace r) = [] /\
    (outcome r = Ok tt \/ outcome r = Raise OperationFailedException)).
  { intros t Ht. apply Forall_forall in Ht.
    destruct (silent_trace t Ht) as (T1 & T2 & T3 & T4).
    cbn [trace outcome fst snd]. rewrite T2.
    split; [intros p [] |]. split; [discriminate |].
    split; [exact T3 |]. split; [exact T1 |]. split; [exact T4 |].
    right. reflexivity. }
  destruct (path_exists w target) eqn:Hex.
  - apply (Hfail []). intros ev [].
  - destruct (dry_run util).
    + rewrite bind_eq. unfold ret. rewrite Hrun.
      cbn [trace outcome fst snd app].
      unfold created, removed, processed, decided_creation in *.
      cbn [filter_map section_started]. rewrite E1, E2, S2, S3, S4.
      split; [intros p [<- | []]; reflexivity |].
      split; [intros _; split; reflexivity |].
      split; [reflexivity |].
      split; [| split; [reflexivity | exact Hr]].
      intros [E | Hin]; [discriminate | exact (S1 Hin)].
    + destruct (mkdir_parents w (path_parent target)).
      * rewrite !bind_eq. unfold emit, ret. cbn [trace outcome fst snd app].
        rewrite Hrun. cbn [trace outcome fst snd app].
        unfold created, removed, processed, decided_creation in *.
        cbn [filter_map]. rewrite E1, E2, S2, S3, S4.
        cbn [create_target remove_target section_started].
        split; [intros p [<- | []]; reflexivity |].
        split; [intros _; split; reflexivity |].
        split; [reflexivity |].
        split; [| split; [reflexivity | exact Hr]].
        intros [E | [E | Hin]]; [discriminate | discriminate | exact (S1 Hin)].
      * rewrite !bind_eq. unfold emit, raise.
        cbn [trace outcome fst snd app].
        apply (Hfail [Mkdir (path_parent target)]).
        intros ev [<- | []]. repeat split; discriminate.
Qed.

(** ** Pruning *)

Lemma remove_old_spec w util m l amount :
  let r := remove_old w util m l amount in
  created (trace r) = [] /\ ~ decided_creation (trace r) /\
  processed (trace r) = [] /\
  (exists k, removed (trace r) = map path (firstn k l)) /\
  (outcome r = Ok tt ->
   removed (trace r) =
   map path (firstn (Z.to_nat (Z.of_nat (List.length l) - amount)) l)) /\
  (0 <= amount ->
   outcome r = Ok tt \/ outcome r = Raise OperationFailedException).
Proof.
  induction l as [| s rest IH].
  - cbn [remove_old]. destruct (Z.ltb_spec amount 0); cbn.
    + repeat split; try tauto; try discriminate; try lia.
      exists 0%nat. reflexivity.
    + repeat split; try tauto.
      * exists 0%nat. reflexivity.
      * intros _. rewrite firstn_nil. reflexivity.
  - cbn [remove_old].
    destruct (Z.ltb_spec amount (Z.of_nat (List.length (s :: rest)))) as [Hlt | Hge].
    + rewrite bind_eq.
      destruct (remove_snapshot_spec w util m (path s))
        as (R1 & R2 & R3 & R4 & R5).
      cbv zeta in R1, R2, R3, R4, R5.
      destruct (remove_snapshot w util m (path s)) as [t1 [[] | e]];
        cbn [trace outcome fst snd] in *.
      * destruct IH as (I1 & I2 & I3 & (k & I4) & I5 & I6).
        rewrite created_app, removed_app, processed_app, R1, R2, R4, I1, I3.
        split; [reflexivity |]. split.
        { unfold decided_creation in *. rewrite in_app_iff. tauto. }
        split; [reflexivity |]. split.
        { exists (S k). rewrite I4. reflexivity. }
        split; [| exact I6].
        intros Hok. rewrite (I5 Hok).
        replace (Z.to_nat (Z.of_nat (List.length (s :: rest)) - amount))
          with (S (Z.to_nat (Z.of_nat (List.length rest) - amount)))
          by (cbn [List.length] in *; lia).
        reflexivity.
      * rewrite R1, R2, R4.
        split; [reflexivity |]. split; [exact R3 |]. split; [reflexivity |].
        split; [exists 1%nat; reflexivity |].
        split; [discriminate |]. intros _. destruct R5 as [R5 | R5]; [discriminate |].
        right. exact R5.
    + unfold ret. cbn [trace outcome fst snd].
      replace (Z.to_nat (Z.of_nat (List.length (s :: rest)) - amount)) with 0%nat
        by lia.
      split; [reflexivity |]. split; [intros [] |]. split; [reflexivity |].
      split; [exists 0%nat; reflexivity |].
      split; [reflexivity | left; reflexivity].
Qed.

(** ** The coverage check *)

Lemma check_covered_cases util interval td now_interval l :
  let r := check_covered util interval td now_interval l in
  (r = ([], Ok false) /\
   forall s, In s l ->
     exists t, datetime_add (when s) td = Some t /\ interval t <> now_interval)
  \/ (exists s, In s l /\
        r = ([Say (MsgAlreadyCovered (path s))], Ok true) /\
        shifted_key interval td (when s) = Some now_interval)
  \/ (r = ([], Raise OverflowError) /\
      exists s, In s l /\ datetime_add (when s) td = None).
Proof.
  induction l as [| s rest IH]; cbn [check_covered].
  - left. split; [reflexivity | intros s []].
  - unfold shifted_key in *.
    destruct (datetime_add (when s) td) as [t |] eqn:Hadd.
    + unfold lift. rewrite bind_eq. unfold ret.
      cbn [trace outcome fst snd app].
      destruct (key_eqb now_interval (interval t)) eqn:Hk.
      * right; left. exists s. split; [left; reflexivity |].
        split; [reflexivity |]. rewrite Hadd. cbn [option_map].
        apply key_eqb_eq in Hk. congruence.
      * rewrite <- M_eta.
        destruct IH as [[E Hall] | [(s' & Hin & E & Hc) | (E & s' & Hin & Hn)]].
        -- left. split; [exact E |]. intros s0 [<- | Hin0]; [| auto].
           exists t. split; [exact Hadd |]. intros Heq.
           rewrite Heq in Hk.
           assert (key_eqb now_interval now_interval = true)
             by (apply key_eqb_eq; reflexivity).
           congruence.
        -- right; left. exists s'. split; [right; exact Hin | auto].
        -- right; right. split; [exact E |]. exists s'. split; [right |]; auto.
    + right; right. split; [reflexivity |]. exists s. split; [left |]; auto.
Qed.

(** ** Section options *)

Lemma read_section_options_some util options section_name tr so :
  read_section_options util options section_name = (tr, Ok (Some so)) ->
  tr = [] /\ 0 < amount so /\ is_scheme (interval so).
Proof.
  unfold read_section_options, section_getint, lift, say, emit, bind, ret, raise.
  destruct (config_getitem (config options) section_name) as [section |];
    [| discriminate].
  destruct (method_from_string (section_get section "method" "copy"));
  destruct (interval_from_string (section_get section "interval" "daily"))
    as [i |] eqn:Hi;
  destruct (days_from_string (section_get section "offset" "0d"));
  destruct (dict_get section "amount") as [v |];
  try destruct (PyStr.int v) as [n |];
  cbn [app];
  try discriminate;
  match goal with
  | |- context [?a <=? 0] => destruct (Z.leb_spec a 0)
  end;
  cbn [app]; try discriminate;
  intros [= <- <-]; cbn [amount interval];
  (split; [reflexivity |]);
  (split; [lia | eapply interval_from_string_scheme; eassumption]).
Qed.

(** ** One section *)

Section SectionFacts.

Variable fromisoformat : string -> option datetime.

Lemma find_snapshots_catalog_eq w util directory :
  find_snapshots fromisoformat w util directory =
  (catalog_diagnostics fromisoformat w directory,
   Ok (catalog fromisoformat w directory)).
Proof.
  rewrite find_snapshots_spec. unfold catalog, catalog_diagnostics.
  destruct (iterdir w directory); reflexivity.
Qed.

Lemma skip_diagnostics_silent directory children :
  Forall silent (skip_diagnostics fromisoformat directory children).
Proof.
  unfold skip_diagnostics.
  induction children as [| [name is_dir] rest IH]; [constructor |].
  cbn [filter_map]. destruct is_dir; cbn [negb].
  - destruct (fromisoformat name); [exact IH |].
    constructor; [| exact IH]. repeat split; discriminate.
  - constructor; [| exact IH]. repeat split; discriminate.
Qed.

Lemma catalog_diagnostics_silent w directory :
  Forall silent (catalog_diagnostics fromisoformat w directory).
Proof.
  unfold catalog_diagnostics. destruct (iterdir w directory);
    [apply skip_diagnostics_silent | constructor].
Qed.

(** The course of do_section on a well-configured section. *)
Lemma do_section_shape w util options section_name tr so :
  read_section_options util options section_name = (tr, Ok (Some so)) ->
  let section_dir := path_join (snapshot_dir options) section_name in
  let diag := catalog_diagnostics fromisoformat w section_dir in
  let snapshots := catalog fromisoformat w section_dir in
  let target := path_join section_dir (format_time (time options)) in
  do_section fromisoformat w util options section_name =
  match timedelta_new (offset so) 0 0 with
  | None => ([], Raise OverflowError)
  | Some td =>
    match datetime_add (time options) td with
    | None => (diag, Raise OverflowError)
    | Some shifted_now =>
      let c := check_covered util (interval so) td (interval so shifted_now)
                 snapshots in
      match outcome c with
      | Raise e => (diag ++ trace c, Raise e)
      | Ok true =>
        let p := remove_old w util (method so) snapshots (amount so) in
        (diag ++ trace c ++ trace p, outcome p)
      | Ok false =>
        let cr := create_snapshot w util (method so) (source_dir options) target in
        match outcome cr with
        | Raise e => (diag ++ trace c ++ Say MsgMakingNewSnapshot :: trace cr, Raise e)
        | Ok _ =>
          let p := remove_old w util (method so) snapshots (amount so - 1) in
          (diag ++ trace c ++ Say MsgMakingNewSnapshot :: trace cr ++ trace p,
           outcome p)
        end
      end
    end
  end.
Proof.
  intros Hread section_dir diag snapshots target.
  destruct (read_section_options_some _ _ _ _ _ Hread) as (-> & _ & _).
  unfold do_section. rewrite Hread.
  unfold bind at 1. cbn [app].
  destruct (timedelta_new (offset so) 0 0) as [td |]; [| reflexivity].
  unfold lift at 1, ret at 1, bind at 1.
  rewrite find_snapshots_catalog_eq.
  fold section_dir. fold diag. fold snapshots.
  unfold bind at 1.
  destruct (datetime_add (time options) td) as [shifted_now |];
    [| cbn; rewrite app_nil_r; reflexivity].
  unfold lift at 1, ret at 1, bind at 1. cbv zeta.
  destruct (check_covered util (interval so) td (interval so shifted_now) snapshots)
    as [tc [[|] | e]]; cbn [trace outcome fst snd].
  - unfold bind, ret.
    destruct (remove_old w util (method so) snapshots (amount so)) as [tp rp].
    cbn [app trace outcome fst snd]. reflexivity.
  - unfold bind, ret, say, emit. fold section_dir. fold target.
    destruct (create_snapshot w util (method so) (source_dir options) target)
      as [tcr [[] | e]]; cbn [app trace outcome fst snd].
    + destruct (remove_old w util (method so) snapshots (amount so - 1))
        as [tp rp].
      cbn [app trace outcome fst snd]. rewrite app_nil_r. reflexivity.
    + reflexivity.
  - reflexivity.
Qed.

End SectionFacts.

Lemma decided_creation_app t1 t2 :
  decided_creation (t1 ++ t2) <-> decided_creation t1 \/ decided_creation t2.
Proof. unfold decided_creation. apply in_app_iff. Qed.

Lemma create_snapshot_issued w util m source target :
  path_exists w target = false ->
  dry_run util = true \/ mkdir_parents w (path_parent target) = true ->
  created (trace (create_snapshot w util m source target)) = [target].
Proof.
  intros Hex Hprep. unfold create_snapshot, prepare_target. rewrite Hex.
  destruct (method_run_cases w util (create_command m source target))
    as (rest & r & Hrun & Hs & _).
  destruct (silent_trace rest Hs) as (_ & S2 & _).
  destruct (create_target_command m source target) as [E1 _].
  destruct (dry_run util).
  - rewrite bind_eq. unfold ret. rewrite Hrun. cbn [trace fst app].
    unfold created in *. cbn [filter_map]. rewrite E1, S2. reflexivity.
  - destruct Hprep as [Hd | Hmk]; [discriminate |]. rewrite Hmk.
    rewrite !bind_eq. unfold emit, ret. cbn [trace outcome fst snd app].
    rewrite Hrun. cbn [trace fst app].
    unfold created in *. cbn [filter_map]. rewrite E1, S2. reflexivity.
Qed.

Lemma created_say m t : created (Say m :: t) = created t.
Proof. reflexivity. Qed.

Lemma removed_say m t : removed (Say m :: t) = removed t.
Proof. reflexivity. Qed.

Lemma created_nil : created [] = [].
Proof. reflexivity. Qed.

Lemma removed_nil : removed [] = [].
Proof. reflexivity. Qed.

Create Rewrite HintDb traces.
#[local] Hint Rewrite created_app removed_app created_say removed_say
  created_nil removed_nil app_nil_r app_nil_l : traces.

(** ** Paths of the catalog *)


Lemma parsed_entries_in fromisoformat directory children s :
  In s (parsed_entries fromisoformat directory children) <->
  exists name, In (name, true) children /\
               fromisoformat name = Some (when s) /\
               path s = path_join directory name.
Proof.
  unfold parsed_entries.
  induction children as [| [name is_dir] rest IH]; cbn [filter_map].
  - split; [intros [] | intros (name & [] & _)].
  - destruct is_dir.
    + destruct (fromisoformat name) as [dt |] eqn:Hp; cbn [option_map].
      * cbn [In]. rewrite IH. split.
        -- intros [<- | (n & Hin & H)].
           ++ exists name. cbn. auto.
           ++ exists n. cbn [In]. auto.
        -- intros (n & [[= <-] | Hin] & Hn & Hpath).
           ++ left. destruct s as [p t]. cbn in *. congruence.
           ++ right. exists n. auto.
      * rewrite IH. split.
        -- intros (n & Hin & H). exists n. cbn [In]. auto.
        -- intros (n & [[= <-] | Hin] & Hn & Hpath); [congruence |].
           exists n. auto.
    + rewrite IH. split.
      * intros (n & Hin & H). exists n. cbn [In]. auto.
      * intros (n & [[=] | Hin] & H). exists n. auto.
Qed.

Lemma catalog_in fromisoformat w directory s :
  In s (catalog fromisoformat w directory) <->
  exists children name,
    iterdir w directory = Some children /\ In (name, true) children /\
    fromisoformat name = Some (when s) /\ path s = path_join directory name.
Proof.
  unfold catalog. destruct (iterdir w directory) as [children |].
  - rewrite sort_by_when_in, parsed_entries_in. split.
    + intros (name & H). exists children, name. tauto.
    + intros (ch & name & [= <-] & H). exists name. exact H.
  - split; [intros [] | intros (ch & name & [=] & _)].
Qed.

Lemma catalog_sorted fromisoformat w directory :
  StronglySorted when_le (catalog fromisoformat w directory).
Proof.
  unfold catalog. destruct (iterdir w directory);
    [apply sort_by_when_sorted | constructor].
Qed.


Lemma firstn_in {A} (n : nat) (l : list A) (x : A) :
  In x (firstn n l) -> In x l.
Proof.
  revert l. induction n as [| n IH]; intros [| y l]; cbn; try tauto.
  intros [-> | H]; [left; reflexivity | right; apply IH, H].
Qed.


(** ** The section loop *)

Lemma read_section_options_silent util options section_name :
  Forall silent (trace (read_section_options util options section_name)).
Proof.
  unfold read_section_options, section_getint, lift, say, emit, bind, ret, raise.
  destruct (config_getitem (config options) section_name) as [section |];
    [| constructor].
  destruct (method_from_string (section_get section "method" "copy"));
  destruct (interval_from_string (section_get section "interval" "daily"));
  destruct (days_from_string (section_get section "offset" "0d"));
  destruct (dict_get section "amount") as [v |];
  try destruct (PyStr.int v) as [n |];
  cbn [app trace fst];
  try match goal with
  | |- context [?a <=? 0] => destruct (a <=? 0)
  end;
  cbn [app trace fst];
  repeat (constructor; [repeat split; discriminate |]); constructor.
Qed.

Lemma read_section_options_outcome util options section_name :
  outcome (read_section_options util options section_name)
    <> Raise OperationFailedException.
Proof.
  unfold read_section_options, section_getint, lift, say, emit, bind, ret, raise.
  destruct (config_getitem (config options) section_name) as [section |];
    [| discriminate].
  destruct (method_from_string (section_get section "method" "copy"));
  destruct (interval_from_string (section_get section "interval" "daily"));
  destruct (days_from_string (section_get section "offset" "0d"));
  destruct (dict_get section "amount") as [v |];
  try destruct (PyStr.int v) as [n |];
  cbn [app outcome snd];
  try match goal with
  | |- context [?a <=? 0] => destruct (a <=? 0)
  end;
  cbn [app outcome snd]; discriminate.
Qed.

Lemma remove_old_failure w util m l amount :
  outcome (remove_old w util m l amount) = Raise OperationFailedException ->
  exists k s,
    nth_error l k = Some s /\
    removed (trace (remove_old w util m l amount)) = map path (firstn (S k) l) /\
    outcome (remove_snapshot w util m (path s)) = Raise OperationFailedException.
Proof.
  induction l as [| s rest IH]; cbn [remove_old].
  - destruct (amount <? 0); discriminate.
  - destruct (amount <? Z.of_nat (List.length (s :: rest))); [| discriminate].
    rewrite bind_eq.
    destruct (remove_snapshot_spec w util m (path s)) as (R1 & _).
    cbv zeta in R1.
    destruct (remove_snapshot w util m (path s)) as [t1 [[] | e]] eqn:Hrm;
      cbn [trace outcome fst snd] in *.
    + intros Hfail. destruct (IH Hfail) as (k & s' & Hnth & Hrem & Hout).
      exists (S k), s'. split; [exact Hnth |]. split; [| exact Hout].
      rewrite removed_app, R1, Hrem. reflexivity.
    + intros [= ->]. exists 0%nat, s. split; [reflexivity |].
      split; [rewrite R1; reflexivity |]. rewrite Hrm. reflexivity.
Qed.

Section Loop.

Variable fromisoformat : string -> option datetime.

Lemma check_covered_processed util interval td now_interval l :
  processed (trace (check_covered util interval td now_interval l)) = [] /\
  removed (trace (check_covered util interval td now_interval l)) = [] /\
  created (trace (check_covered util interval td now_interval l)) = [] /\
  ~ decided_creation (trace (check_covered util interval td now_interval l)).
Proof.
  destruct (check_covered_cases util interval td now_interval l)
    as [[E _] | [(s & _ & E & _) | (E & _)]]; cbv zeta in E; rewrite E;
    cbn [trace fst];
    (split; [reflexivity |]); (split; [reflexivity |]); (split; [reflexivity |]);
    unfold decided_creation; cbn [In]; intuition discriminate.
Qed.

Lemma do_section_processed w util options section_name :
  processed (trace (do_section fromisoformat w util options section_name)) = [].
Proof.
  pose proof (read_section_options_silent util options section_name) as Hs.
  destruct (read_section_options util options section_name)
    as [tr [[so |] | e]] eqn:Hread; cbn [trace fst] in Hs.
  - rewrite (do_section_shape fromisoformat w util options section_name tr so Hread).
    cbv zeta.
    destruct (silent_trace _ (catalog_diagnostics_silent fromisoformat w
               (path_join (snapshot_dir options) section_name)))
      as (_ & _ & _ & D4).
    destruct (timedelta_new (offset so) 0 0) as [td |]; [| reflexivity].
    destruct (datetime_add (time options) td) as [shifted_now |];
      [| exact D4].
    match goal with
    | |- context [check_covered ?u ?i ?t ?k ?l] =>
      destruct (check_covered_processed u i t k l) as (K4 & _);
      destruct (check_covered u i t k l) as [tc [[|] | e]]
    end; cbn [trace outcome fst snd] in *.
    + match goal with
      | |- context [remove_old ?a ?b ?c ?d ?e] =>
        destruct (remove_old_spec a b c d e) as (_ & _ & P3 & _)
      end.
      cbv zeta in P3. rewrite !processed_app, D4, K4, P3. reflexivity.
    + match goal with
      | |- context [create_snapshot ?a ?b ?c ?d ?e] =>
        destruct (create_snapshot_spec a b c d e) as (_ & _ & _ & _ & C5 & _);
        cbv zeta in C5;
        destruct (create_snapshot a b c d e) as [tcr [[] | e']]
      end; cbn [trace outcome fst snd] in *.
      * match goal with
        | |- context [remove_old ?a ?b ?c ?d ?e] =>
          destruct (remove_old_spec a b c d e) as (_ & _ & P3 & _)
        end.
        cbv zeta in P3. rewrite !processed_app, D4, K4. cbn [app].
        unfold processed at 1. cbn [filter_map section_started].
        fold (processed (tcr ++ trace (remove_old w util (method so)
               (catalog fromisoformat w
                  (path_join (snapshot_dir options) section_name))
               (amount so - 1)))).
        rewrite processed_app, C5, P3. reflexivity.
      * rewrite !processed_app, D4, K4. cbn [app].
        unfold processed at 1. cbn [filter_map section_started]. exact C5.
    + rewrite !processed_app, D4, K4. reflexivity.
  - unfold do_section. rewrite Hread. unfold bind, say, emit.
    cbn [trace fst]. rewrite processed_app.
    destruct (silent_trace tr Hs) as (_ & _ & _ & S4). rewrite S4. reflexivity.
  - unfold do_section. rewrite Hread. unfold bind. cbn [trace fst].
    destruct (silent_trace tr Hs) as (_ & _ & _ & S4). exact S4.
Qed.

Lemma do_sections_app w util options pre rest :
  do_sections fromisoformat w util options (pre ++ rest) =
  bind (do_sections fromisoformat w util options pre)
       (fun _ => do_sections fromisoformat w util options rest).
Proof.
  induction pre as [| name pre IH]; cbn [app do_sections].
  - unfold bind, ret. destruct (do_sections fromisoformat w util options rest).
    reflexivity.
  - rewrite IH. unfold bind, say, emit.
    destruct (do_section fromisoformat w util options name) as [t1 [[] | e]];
      [| reflexivity].
    destruct (do_sections fromisoformat w util options pre) as [t2 [[] | e]];
      [| reflexivity].
    destruct (do_sections fromisoformat w util options rest) as [t3 r3].
    cbn [app]. rewrite !app_assoc. reflexivity.
Qed.

Lemma do_sections_processed w util options names t :
  do_sections fromisoformat w util options names = (t, Ok tt) ->
  processed t = names.
Proof.
  revert t. induction names as [| name names IH]; intros t; cbn [do_sections].
  - intros [= <-]. reflexivity.
  - pose proof (do_section_processed w util options name) as Hp.
    unfold bind, say, emit.
    destruct (do_section fromisoformat w util options name) as [t1 [[] | e]];
      [| discriminate].
    destruct (do_sections fromisoformat w util options names) as [t2 [[] | e]];
      [| discriminate].
    cbn [app trace fst] in *. intros [= <-].
    unfold processed at 1. cbn [filter_map section_started].
    fold (processed (t1 ++ t2)). rewrite processed_app, Hp, (IH t2 eq_refl).
    reflexivity.
Qed.

End Loop.

(** C3 (as the spec states it, refuted): the first of two sections cannot
    make its snapshot because a file of that name exists.  Eight snapshots
    exceed the amount of 7, yet nothing is pruned; the second section is
    never started; the exit status is 1. *)
Lemma failed_creation_stops_the_run :
  let r := script fromisoformat_naive Scenarios.collision_world
             Scenarios.collision_options in
  sections (config Scenarios.collision_options) = ["a"; "b"]%string /\
  path_exists Scenarios.collision_world
    ["data-snapshots"; "a"; "2024-01-10 09:00"]%string = true /\
  List.length (catalog fromisoformat_naive Scenarios.collision_world
                 ["data-snapshots"; "a"]%string) = 8%nat /\
  In (Say MsgMakingNewSnapshot) (fst r) /\
  created (fst r) = [] /\
  removed (fst r) = [] /\
  processed (fst r) = ["a"]%string /\
  snd r = 1.
Proof.
  vm_compute. repeat split.
  do 9 right. left. reflexivity.
Qed.

Section FailureSemantics.

Variable fromisoformat : string -> option datetime.

(** C3 (amended): when do_section raises OperationFailedException in some
    section, the run ends there with exit status 1 after printing the
    failure: no later section is started; within the failing section, a
    failed creation is followed by no removal at all, and a failed removal
    is the last removal attempted. *)
Theorem operation_failure_aborts_run w options pre name post t0 t :
  let util := mkUtil "rotate.py" (options_dry_run options) in
  let section_dir := path_join (snapshot_dir options) name in
  let target := path_join section_dir (format_time (time options)) in
  sections (config options) = pre ++ name :: post ->
  do_sections fromisoformat w util options pre = (t0, Ok tt) ->
  do_section fromisoformat w util options name
    = (t, Raise OperationFailedException) ->
  (exists header,
     Forall silent header /\
     script fromisoformat w options =
       (header ++ t0 ++ Say MsgBlank :: Say (MsgSection name) :: t
               ++ [PrintOperationFailed], 1)) /\
  processed (fst (script fromisoformat w options)) = pre ++ [name] /\
  exists tr so,
    read_section_options util options name = (tr, Ok (Some so)) /\
    let snapshots := catalog fromisoformat w section_dir in
    ((decided_creation t /\
      outcome (create_snapshot w util (method so) (source_dir options) target)
        = Raise OperationFailedException /\
      removed t = [])
     \/
     (exists k s,
        nth_error snapshots k = Some s /\
        removed t = map path (firstn (S k) snapshots) /\
        outcome (remove_snapshot w util (method so) (path s))
          = Raise OperationFailedException)).
Proof.
  intros util section_dir target Hsec Hpre Hfail.
  assert (Hscript :
    script fromisoformat w options =
    ([Say (MsgSourceDirectory (source_dir options));
      Say (MsgSnapshotDirectory (snapshot_dir options));
      Say (MsgConfigFile (config_file options));
      Say (MsgTime (format_time (time options)));
      Say (MsgDryRun (options_dry_run options));
      Say (MsgSections (pre ++ name :: post))]
     ++ t0 ++ Say MsgBlank :: Say (MsgSection name) :: t
     ++ [PrintOperationFailed], 1)).
  { unfold script, main. fold util. rewrite Hsec.
    rewrite do_sections_app, Hpre. cbn [do_sections].
    rewrite Hfail. unfold bind, say, emit. cbn [app].
    rewrite <- ?app_assoc. cbn [app]. rewrite ?app_nil_r. reflexivity. }
  split; [| split].
  - eexists. split; [| exact Hscript].
    repeat (constructor; [repeat split; discriminate |]). constructor.
  - rewrite Hscript. cbn [fst]. cbn [app].
    unfold processed. cbn [filter_map section_started].
    rewrite filter_map_app. cbn [filter_map section_started].
    rewrite filter_map_app. cbn [filter_map section_started].
    fold (processed t0). fold (processed t).
    rewrite (do_sections_processed fromisoformat w util options pre t0 Hpre).
    pose proof (do_section_processed fromisoformat w util options name) as Hp.
    rewrite Hfail in Hp. cbn [trace fst] in Hp. rewrite Hp. reflexivity.
  - pose proof (read_section_options_outcome util options name) as Hout.
    destruct (read_section_options util options name)
      as [tr [[so |] | e]] eqn:Hread; cbn [outcome snd] in Hout.
    + exists tr, so. split; [reflexivity |].
      pose proof (do_section_shape fromisoformat w util options name tr so Hread)
        as Hshape.
      cbv zeta in Hshape. fold section_dir in Hshape. fold target in Hshape.
      rewrite Hfail in Hshape. cbv zeta.
      destruct (silent_trace _ (catalog_diagnostics_silent fromisoformat w section_dir))
        as (D1 & D2 & D3 & D4).
      destruct (timedelta_new (offset so) 0 0) as [td |]; [| discriminate].
      destruct (datetime_add (time options) td) as [shifted_now |];
        [| discriminate].
      destruct (check_covered_cases util (interval so) td (interval so shifted_now)
                  (catalog fromisoformat w section_dir))
        as [[E _] | [(s & _ & E & _) | (E & _)]];
        cbv zeta in E; rewrite E in Hshape; cbn [trace outcome fst snd] in Hshape;
        [| | discriminate].
      * set (cr := create_snapshot w util (method so) (source_dir options) target)
          in *.
        destruct (create_snapshot_spec w util (method so) (source_dir options)
                    target) as (_ & _ & C3 & _).
        fold cr in C3. cbv zeta in C3.
        destruct (outcome cr) as [[] | e] eqn:Hcr.
        -- right. injection Hshape as Ht Ho. symmetry in Ho.
           destruct (remove_old_failure w util (method so)
                       (catalog fromisoformat w section_dir) (amount so - 1) Ho)
             as (k & s & Hnth & Hrem & Hrs).
           exists k, s. split; [exact Hnth |]. split; [| exact Hrs].
           rewrite Ht. autorewrite with traces. rewrite D3, C3, Hrem.
           reflexivity.
        -- left. injection Hshape as Ht He. subst e.
           split; [| split; [reflexivity |]].
           ++ rewrite Ht. apply decided_creation_app. right. left. reflexivity.
           ++ rewrite Ht. autorewrite with traces. rewrite D3, C3. reflexivity.
      * right. injection Hshape as Ht Ho. symmetry in Ho.
        destruct (remove_old_failure w util (method so)
                    (catalog fromisoformat w section_dir) (amount so) Ho)
          as (k & s' & Hnth & Hrem & Hrs).
        exists k, s'. split; [exact Hnth |]. split; [| exact Hrs].
        rewrite Ht. autorewrite with traces. rewrite D3, Hrem. reflexivity.
    + exfalso. unfold do_section in Hfail. rewrite Hread in Hfail.
      unfold bind, say, emit in Hfail. discriminate.
    + exfalso. unfold do_section in Hfail. rewrite Hread in Hfail.
      unfold bind in Hfail. injection Hfail as _ He. congruence.
Qed.

End FailureSemantics.

Lemma operation_failure_aborts_run_witness :
  processed (fst (script fromisoformat_naive Scenarios.collision_world
                    Scenarios.collision_options)) = ["a"]%string /\
  snd (script fromisoformat_naive Scenarios.collision_world
         Scenarios.collision_options) = 1.
Proof.
  pose proof (operation_failure_aborts_run fromisoformat_naive
                Scenarios.collision_world Scenarios.collision_options
                [] "a"%string ["b"%string] []
                [Say (MsgNotADirectory
                        ["data-snapshots"; "a"; "2024-01-10 09:00"]%string);
                 Say MsgMakingNewSnapshot]
                ltac:(vm_compute; reflexivity)
                ltac:(vm_compute; reflexivity)
                ltac:(vm_compute; reflexivity)) as H.
  cbv zeta in H. destruct H as ((header & _ & Hscript) & Hproc & _).
  split; [exact Hproc |]. rewrite Hscript. reflexivity.
Defined.

(** ** Bucketing looks at the date only *)

Lemma shifted_key_date_only interval off td a b :
  is_scheme interval -> timedelta_new off 0 0 = Some td ->
  valid_datetime a -> valid_datetime b -> same_date a b ->
  shifted_key interval td a = shifted_key interval td b.
Proof.
  intros Hs Htd Ha Hb Hd. unfold shifted_key.
  rewrite (datetime_add_whole_days a off td Ha Htd).
  rewrite (datetime_add_whole_days b off td Hb Htd).
  rewrite (toordinal_same_date a b Hd).
  destruct ((0 <? toordinal b + off) && (toordinal b + off <=? MAXORDINAL));
    [| reflexivity].
  destruct (ord2ymd (toordinal b + off)) as [[y m] d].
  cbn [option_map]. f_equal.
  apply scheme_date_only; [exact Hs | | | repeat split].
  - apply (valid_datetime_time a Ha).
  - apply (valid_datetime_time b Hb).
Qed.

Lemma check_covered_step util interval td now_interval s rest :
  check_covered util interval td now_interval (s :: rest) =
  match shifted_key interval td (when s) with
  | None => ([], Raise OverflowError)
  | Some k =>
    if key_eqb now_interval k
    then ([Say (MsgAlreadyCovered (path s))], Ok true)
    else check_covered util interval td now_interval rest
  end.
Proof.
  cbn [check_covered]. unfold shifted_key.
  destruct (datetime_add (when s) td) as [t |]; [| reflexivity].
  cbn [option_map lift]. unfold bind, ret, say, emit.
  destruct (key_eqb now_interval (interval t)); [reflexivity |].
  destruct (check_covered util interval td now_interval rest). reflexivity.
Qed.

(** C10: under every scheme a section can be configured with, timestamps of
    one calendar date have the same bucket key, also after a whole-day
    offset is added to them; hence the coverage check gives the same answer
    for two current times of one date and for two catalogs whose timestamps
    agree in their dates. *)
Theorem bucketing_depends_on_date_only (s : string) (interval : Interval)
    (off : Z) (td : timedelta) :
  interval_from_string s = Some interval ->
  timedelta_new off 0 0 = Some td ->
  (forall t1 t2, valid_datetime t1 -> valid_datetime t2 -> same_date t1 t2 ->
     interval t1 = interval t2 /\
     shifted_key interval td t1 = shifted_key interval td t2) /\
  (forall util now now' snapshots snapshots',
     valid_datetime now -> valid_datetime now' -> same_date now now' ->
     Forall2 same_dates snapshots snapshots' ->
     shifted_key interval td now = shifted_key interval td now' /\
     forall k,
       check_covered util interval td k snapshots =
       check_covered util interval td k snapshots').
Proof.
  intros Hres Htd.
  pose proof (interval_from_string_scheme s interval Hres) as Hs.
  split.
  - intros t1 t2 H1 H2 Hd. split.
    + apply scheme_date_only; auto using valid_datetime_time.
    + eapply shifted_key_date_only; eauto.
  - intros util now now' snapshots snapshots' Hn Hn' Hd Hall.
    split; [eapply shifted_key_date_only; eauto |].
    intros k. induction Hall as [| a b l l' (Hp & Ha & Hb & Hab) _ IH];
      [reflexivity |].
    rewrite !check_covered_step.
    rewrite (shifted_key_date_only interval off td (when a) (when b) Hs Htd Ha Hb Hab).
    rewrite Hp, IH. reflexivity.
Qed.

Lemma bucketing_depends_on_date_only_witness :
  interval_weekly (mkdt 2024 3 7 0 0 0 0) =
  interval_weekly (mkdt 2024 3 7 23 59 59 999999) /\
  shifted_key (interval_custom 30) (mktd 5 0 0) (mkdt 2024 3 7 0 0 0 0) =
  shifted_key (interval_custom 30) (mktd 5 0 0) (mkdt 2024 3 7 23 59 59 999999).
Proof.
  assert (V1 : valid_datetime (mkdt 2024 3 7 0 0 0 0))
    by (cbv; intuition discriminate).
  assert (V2 : valid_datetime (mkdt 2024 3 7 23 59 59 999999))
    by (cbv; intuition discriminate).
  assert (D : same_date (mkdt 2024 3 7 0 0 0 0) (mkdt 2024 3 7 23 59 59 999999))
    by (repeat split).
  split.
  - apply (proj1 (proj1 (bucketing_depends_on_date_only "weekly" interval_weekly
                           5 (mktd 5 0 0) eq_refl eq_refl) _ _ V1 V2 D)).
  - apply (proj2 (proj1 (bucketing_depends_on_date_only " 30d" (interval_custom 30)
                           5 (mktd 5 0 0) eq_refl eq_refl) _ _ V1 V2 D)).
Defined.

(** ** The decision of a section *)

Section Decision.

Variable fromisoformat : string -> option datetime.


End Decision.

(** ** Names written and read back *)

Module IsoFacts.

Import PyStr.

Lemma digit_of_digit_char d : digit_of (digit_char d) = Some (d mod 10).
Proof.
  pose proof (Z.mod_pos_bound d 10 ltac:(lia)) as Hr.
  unfold digit_of, digit_char, code. rewrite N_ascii_embedding by lia.
  unfold in_range. rewrite Z2N.id by lia.
  destruct (Z.leb_spec 48 (48 + d mod 10)); [| lia].
  destruct (Z.leb_spec (48 + d mod 10) 57); [| lia].
  cbn [andb]. f_equal. lia.
Qed.

Lemma four_digits y :
  0 <= y <= 9999 ->
  (((0 * 10 + (y / 1000) mod 10) * 10 + (y / 100) mod 10) * 10
   + (y / 10) mod 10) * 10 + y mod 10 = y.
Proof. intros Hy. Z.div_mod_to_equations. lia. Qed.

Lemma two_digits n :
  0 <= n <= 99 -> (0 * 10 + (n / 10) mod 10) * 10 + n mod 10 = n.
Proof. intros Hn. Z.div_mod_to_equations. lia. Qed.

Lemma fromisoformat_naive_format_time dt :
  valid_datetime dt ->
  fromisoformat_naive (format_time dt) = Some (minute_precision dt).
Proof.
  intros Hv. pose proof Hv as (Hy & Hm & Hd & Hh & Hmi & _).
  unfold MINYEAR, MAXYEAR in Hy.
  pose proof (days_in_month_le (year dt) (month dt)) as Hdim.
  unfold fromisoformat_naive, format_time, isoformat_minutes, fmt04, fmt02.
  cbn [append]. unfold parse_isoformat_date, parse_hh_mm_ss_ff.
  repeat (progress (cbn [obind expect parse_digits negb];
                    rewrite ?digit_of_digit_char;
                    change (Ascii.eqb "-" "-") with true;
                    change (Ascii.eqb ":" ":") with true;
                    cbn beta iota)).
  rewrite four_digits by lia. rewrite !two_digits by lia.
  unfold checked.
  assert (Hvb : valid_datetimeb (minute_precision dt) = true).
  { apply valid_datetimeb_true. unfold valid_datetime, MINYEAR, MAXYEAR.
    cbn. lia. }
  unfold minute_precision in *. rewrite Hvb. reflexivity.
Qed.

End IsoFacts.

(** ** Invalid sections *)

Lemma section_skipped_when_invalid fromisoformat w util options section_name tr :
  read_section_options util options section_name = (tr, Ok None) ->
  tr <> [] /\
  do_section fromisoformat w util options section_name
    = (tr ++ [Say MsgSectionSkipped], Ok tt).
Proof.
  intros Hread. split.
  - revert Hread.
    unfold read_section_options, section_getint, lift, say, emit, bind, ret, raise.
    destruct (config_getitem (config options) section_name) as [section |];
      [| discriminate].
    destruct (method_from_string (section_get section "method" "copy"));
    destruct (interval_from_string (section_get section "interval" "daily"));
    destruct (days_from_string (section_get section "offset" "0d"));
    destruct (dict_get section "amount") as [v |];
    try destruct (PyStr.int v) as [n |];
    cbn [app];
    try discriminate;
    try match goal with
    | |- context [?a <=? 0] => destruct (a <=? 0)
    end;
    cbn [app]; try discriminate;
    intros [= <-]; discriminate.
  - unfold do_section. rewrite Hread. unfold bind, say, emit. reflexivity.
Qed.

(** C6 (the code departs from the claim): an amount that int() cannot read
    makes getint raise ValueError; nothing catches it, so the section is
    not skipped with a diagnostic and the run ends there, before the
    remaining sections.  An integer amount that is not positive, by
    contrast, is reported, the section skipped and the run goes on; a
    section without keys reads as copy, daily, 0d, 7. *)
Theorem non_integer_amount_aborts_run :
  (forall fromisoformat w util options section_name section v,
     config_getitem (config options) section_name = Some section ->
     dict_get section "amount" = Some v ->
     PyStr.int v = None ->
     outcome (read_section_options util options section_name)
       = Raise ValueError /\
     outcome (do_section fromisoformat w util options section_name)
       = Raise ValueError /\
     ~ In (Say MsgSectionSkipped)
          (trace (do_section fromisoformat w util options section_name))) /\
  (let r := script fromisoformat_naive Scenarios.before_first_run
              Scenarios.seven_options in
   sections (config Scenarios.seven_options) = ["a"; "b"]%string /\
   processed (fst r) = ["a"]%string /\
   In (Traceback ValueError) (fst r) /\
   ~ In (Say MsgSectionSkipped) (fst r) /\
   snd r = 1) /\
  (let r := script fromisoformat_naive Scenarios.before_first_run
              Scenarios.zero_options in
   processed (fst r) = ["a"; "b"]%string /\
   In (Say MsgInvalidAmount) (fst r) /\
   In (Say MsgSectionSkipped) (fst r) /\
   snd r = 0) /\
  read_section_options Scenarios.the_util Scenarios.first_run_options "daily"
    = ([], Ok (Some (mkSectionOptions CopyMethod interval_daily 0 7))).
Proof.
  split; [| split; [| split]].
  - intros fromisoformat w util options section_name section v Hsec Hv Hint.
    assert (Hread : exists tr,
              read_section_options util options section_name
                = (tr, Raise ValueError) /\
              ~ In (Say MsgSectionSkipped) tr).
    { unfold read_section_options, section_getint, lift, say, emit, bind, ret, raise.
      rewrite Hsec, Hv, Hint.
      destruct (method_from_string (section_get section "method" "copy"));
      destruct (interval_from_string (section_get section "interval" "daily"));
      destruct (days_from_string (section_get section "offset" "0d"));
      cbn [app]; eexists; (split; [reflexivity |]);
      cbn [In]; intuition discriminate. }
    destruct Hread as (tr & Hread & Hno).
    unfold do_section. rewrite Hread. unfold bind. cbn [trace outcome fst snd].
    auto.
  - vm_compute. split; [reflexivity |]. split; [reflexivity |].
    split; [do 8 right; left; reflexivity |].
    split; [intuition discriminate | reflexivity].
  - vm_compute. split; [reflexivity |].
    split; [do 8 right; left; reflexivity |].
    split; [do 9 right; left; reflexivity | reflexivity].
  - vm_compute. reflexivity.
Qed.

(** * Further properties *)

(** ** Dry runs *)

Lemma Forall_bind {A B} (P : event -> Prop) (m : M A) (f : A -> M B) :
  Forall P (trace m) ->
  (forall a, outcome m = Ok a -> Forall P (trace (f a))) ->
  Forall P (trace (bind m f)).
Proof.
  intros Hm Hf. rewrite bind_eq. destruct m as [t [a | e]]; cbn [trace outcome fst snd] in *.
  - apply Forall_app. split; [exact Hm | apply Hf; reflexivity].
  - exact Hm.
Qed.

Lemma lift_trace {A} (e : exn) (o : option A) : trace (lift e o) = [].
Proof. destruct o; reflexivity. Qed.

Lemma inert_say m : inert (Say m).
Proof. exact I. Qed.

Lemma read_section_options_says util options section_name :
  Forall (fun ev => exists m, ev = Say m)
         (trace (read_section_options util options section_name)).
Proof.
  unfold read_section_options, section_getint, lift, say, emit, bind, ret, raise.
  destruct (config_getitem (config options) section_name) as [section |];
    [| constructor].
  destruct (method_from_string (section_get section "method" "copy"));
  destruct (interval_from_string (section_get section "interval" "daily"));
  destruct (days_from_string (section_get section "offset" "0d"));
  destruct (dict_get section "amount") as [v |];
  try destruct (PyStr.int v) as [n |];
  cbn [app trace fst];
  try match goal with
  | |- context [?a <=? 0] => destruct (a <=? 0)
  end;
  cbn [app trace fst];
  repeat (constructor; [eexists; reflexivity |]); constructor.
Qed.

Lemma says_inert t :
  Forall (fun ev => exists m, ev = Say m) t -> Forall inert t.
Proof.
  apply Forall_impl. intros ev (m & ->). exact I.
Qed.

Lemma skip_diagnostics_says fromisoformat directory children :
  Forall (fun ev => exists m, ev = Say m)
         (skip_diagnostics fromisoformat directory children).
Proof.
  unfold skip_diagnostics.
  induction children as [| [name is_dir] rest IH]; [constructor |].
  cbn [filter_map]. destruct is_dir; cbn [negb].
  - destruct (fromisoformat name); [exact IH |].
    constructor; [eexists; reflexivity | exact IH].
  - constructor; [eexists; reflexivity | exact IH].
Qed.

Lemma find_snapshots_says fromisoformat w util directory :
  Forall (fun ev => exists m, ev = Say m)
         (trace (find_snapshots fromisoformat w util directory)).
Proof.
  rewrite find_snapshots_spec. destruct (iterdir w directory);
    [apply skip_diagnostics_says | constructor].
Qed.

Lemma check_covered_says util interval td k l :
  Forall (fun ev => exists m, ev = Say m)
         (trace (check_covered util interval td k l)).
Proof.
  destruct (check_covered_cases util interval td k l)
    as [[E _] | [(s & _ & E & _) | (E & _)]]; cbv zeta in E; rewrite E;
    cbn [trace fst]; repeat (constructor; [eexists; reflexivity |]);
    constructor.
Qed.

Section DryRun.

Variable fromisoformat : string -> option datetime.
Variable w : World.
Variable util : Util.
Hypothesis Hdry : dry_run util = true.

Lemma method_run_dry c :
  method_run w util c = ([Running c; Exited None], Ok tt).
Proof.
  unfold method_run, util_run, try_except, bind, emit. rewrite Hdry. reflexivity.
Qed.

Lemma create_snapshot_dry m source target :
  Forall inert (trace (create_snapshot w util m source target)).
Proof.
  unfold create_snapshot, prepare_target. rewrite Hdry.
  destruct (path_exists w target); [constructor |].
  rewrite bind_eq. unfold ret. cbn [trace outcome fst snd app].
  rewrite method_run_dry. repeat constructor.
Qed.

Lemma remove_old_dry m l amount :
  Forall inert (trace (remove_old w util m l amount)).
Proof.
  induction l as [| s rest IH]; cbn [remove_old].
  - destruct (amount <? 0); constructor.
  - destruct (amount <? Z.of_nat (List.length (s :: rest))); [| constructor].
    apply Forall_bind; [| intros _ _; exact IH].
    unfold remove_snapshot. rewrite method_run_dry. repeat constructor.
Qed.

Lemma do_section_dry options section_name :
  Forall inert (trace (do_section fromisoformat w util options section_name)).
Proof.
  unfold do_section.
  apply Forall_bind; [apply says_inert, read_section_options_says |].
  intros [so |] _; [| repeat constructor].
  apply Forall_bind; [rewrite lift_trace; constructor |]. intros td _.
  apply Forall_bind; [apply says_inert, find_snapshots_says |]. intros snapshots _.
  apply Forall_bind; [rewrite lift_trace; constructor |]. intros shifted_now _.
  cbv zeta.
  apply Forall_bind; [apply says_inert, check_covered_says |]. intros covered _.
  apply Forall_bind; [| intros amount _; apply remove_old_dry].
  destruct covered; [constructor |].
  apply Forall_bind; [repeat constructor |]. intros _ _.
  apply Forall_bind; [apply create_snapshot_dry | intros _ _; constructor].
Qed.

Lemma do_sections_dry options names :
  Forall inert (trace (do_sections fromisoformat w util options names)).
Proof.
  induction names as [| name names IH]; cbn [do_sections]; [constructor |].
  apply Forall_bind; [repeat constructor |]. intros _ _.
  apply Forall_bind; [repeat constructor |]. intros _ _.
  apply Forall_bind; [apply do_section_dry | intros _ _; exact IH].
Qed.

End DryRun.

(** X4: in a dry run nothing is executed: whatever the configuration and
    the state of the file system, the run starts no process, makes no
    directory and logs no exit status of a process. *)
Theorem dry_run_executes_nothing fromisoformat w options :
  options_dry_run options = true ->
  Forall inert (fst (script fromisoformat w options)).
Proof.
  intros Hdry.
  assert (Hmain : Forall inert (trace (main fromisoformat w options))).
  { unfold main.
    repeat (apply Forall_bind; [repeat constructor | intros _ _]).
    apply do_sections_dry. exact Hdry. }
  unfold script. destruct (main fromisoformat w options) as [t [[] | e]];
    cbn [trace fst] in *; [exact Hmain | ].
  destruct e; cbn [fst]; apply Forall_app; split; try exact Hmain;
    repeat constructor.
Qed.

Lemma dry_run_executes_nothing_witness :
  Forall inert (fst (script fromisoformat_naive Scenarios.five_world
                       (MoreScenarios.dry Scenarios.five_options))).
Proof.
  apply dry_run_executes_nothing. reflexivity.
Defined.

Lemma announced_app t1 t2 : announced (t1 ++ t2) = announced t1 ++ announced t2.
Proof. apply filter_app. Qed.

Lemma same_run_refl {A} (m : M A) : same_run m m.
Proof. split; reflexivity. Qed.

Lemma same_run_bind {A B} (m m' : M A) (f f' : A -> M B) :
  same_run m m' -> (forall a, same_run (f a) (f' a)) ->
  same_run (bind m f) (bind m' f').
Proof.
  intros [Ht Ho] Hf. unfold same_run.
  destruct m as [t [a | e]], m' as [t' [a' | e']];
    cbn [trace outcome fst snd] in Ht, Ho; try discriminate;
    rewrite !bind_eq; cbn [trace outcome fst snd].
  - injection Ho as <-. destruct (Hf a) as [Hft Hfo].
    rewrite !announced_app, Ht, Hft. split; [reflexivity | exact Hfo].
  - injection Ho as <-. split; [exact Ht | reflexivity].
Qed.

Lemma created_announced t : created (announced t) = created t.
Proof.
  induction t as [| ev t IH]; [reflexivity |].
  unfold announced in *. cbn [filter].
  destruct ev as [m | c | c | code | p | | e]; cbn [is_announcement];
    unfold created in *; cbn [filter_map create_target]; try exact IH.
  destruct c; cbn; rewrite IH; reflexivity.
Qed.

Lemma removed_announced t : removed (announced t) = removed t.
Proof.
  induction t as [| ev t IH]; [reflexivity |].
  unfold announced in *. cbn [filter].
  destruct ev as [m | c | c | code | p | | e]; cbn [is_announcement];
    unfold removed in *; cbn [filter_map remove_target]; try exact IH.
  destruct c; cbn; rewrite IH; reflexivity.
Qed.

Lemma scan_children_util fromisoformat u u' directory children acc :
  scan_children fromisoformat u directory children acc =
  scan_children fromisoformat u' directory children acc.
Proof. rewrite !scan_children_spec. reflexivity. Qed.

Lemma check_covered_util u u' interval td k l :
  check_covered u interval td k l = check_covered u' interval td k l.
Proof.
  induction l as [| s rest IH]; [reflexivity |].
  rewrite !check_covered_step, IH. reflexivity.
Qed.

Section DryAndReal.

Variable fromisoformat : string -> option datetime.
Variable w : World.
Variables ud ur : Util.
Hypothesis Hbenign : benign w.
Hypothesis Hdry : dry_run ud = true.
Hypothesis Hreal : dry_run ur = false.

Lemma method_run_same c : same_run (method_run w ud c) (method_run w ur c).
Proof.
  unfold method_run, util_run, try_except, bind, emit, ret.
  rewrite Hdry, Hreal, (proj2 Hbenign c). split; reflexivity.
Qed.

Lemma create_snapshot_same m source target :
  same_run (create_snapshot w ud m source target)
           (create_snapshot w ur m source target).
Proof.
  unfold create_snapshot. apply same_run_bind; [| intros _; apply method_run_same].
  unfold prepare_target. rewrite Hdry, Hreal, (proj1 Hbenign (path_parent target)).
  destruct (path_exists w target); split; reflexivity.
Qed.

Lemma remove_old_same m l amount :
  same_run (remove_old w ud m l amount) (remove_old w ur m l amount).
Proof.
  induction l as [| s rest IH]; cbn [remove_old]; [apply same_run_refl |].
  destruct (amount <? Z.of_nat (List.length (s :: rest))); [| apply same_run_refl].
  apply same_run_bind; [apply method_run_same | intros _; exact IH].
Qed.

Lemma do_section_same options section_name :
  same_run (do_section fromisoformat w ud options section_name)
           (do_section fromisoformat w ur options section_name).
Proof.
  unfold do_section.
  apply same_run_bind; [apply same_run_refl |]. intros [so |]; [| apply same_run_refl].
  apply same_run_bind; [apply same_run_refl |]. intros td.
  apply same_run_bind.
  { unfold find_snapshots. destruct (iterdir w _); [| apply same_run_refl].
    rewrite (scan_children_util fromisoformat ud ur). apply same_run_refl. }
  intros snapshots.
  apply same_run_bind; [apply same_run_refl |]. intros shifted_now. cbv zeta.
  apply same_run_bind.
  { rewrite (check_covered_util ud ur). apply same_run_refl. }
  intros covered.
  apply same_run_bind; [| intros amount; apply remove_old_same].
  destruct covered; [apply same_run_refl |].
  apply same_run_bind; [apply same_run_refl |]. intros _.
  apply same_run_bind; [apply create_snapshot_same | intros _; apply same_run_refl].
Qed.

(** X5: where mkdir and every command succeed, a dry run of a section
    announces exactly what the real run of that section, started on the
    same state of the file system, announces and does: the same messages
    and the same command lines in the same order, hence the same snapshots
    named for creation and for removal, and the same outcome. *)
Theorem dry_run_announces_the_real_run options section_name :
  let d := do_section fromisoformat w ud options section_name in
  let r := do_section fromisoformat w ur options section_name in
  announced (trace d) = announced (trace r) /\
  created (trace d) = created (trace r) /\
  removed (trace d) = removed (trace r) /\
  outcome d = outcome r.
Proof.
  cbv zeta.
  destruct (do_section_same options section_name) as [Ht Ho].
  split; [exact Ht |].
  split; [rewrite <- created_announced, Ht, created_announced; reflexivity |].
  split; [rewrite <- removed_announced, Ht, removed_announced; reflexivity |].
  exact Ho.
Qed.

End DryAndReal.

Lemma dry_run_announces_the_real_run_witness :
  removed (trace (do_section fromisoformat_naive Scenarios.five_world
                    MoreScenarios.the_dry_util Scenarios.five_options "daily")) =
  removed (trace (do_section fromisoformat_naive Scenarios.five_world
                    Scenarios.the_util Scenarios.five_options "daily")).
Proof.
  refine (proj1 (proj2 (proj2 (dry_run_announces_the_real_run
            fromisoformat_naive Scenarios.five_world
            MoreScenarios.the_dry_util Scenarios.the_util _ _ _
            Scenarios.five_options "daily")))).
  - split; intros; reflexivity.
  - reflexivity.
  - reflexivity.
Defined.

(** ** What a section run touches *)

Lemma create_snapshot_fresh w util m source target p :
  In p (created (trace (create_snapshot w util m source target))) ->
  path_exists w target = false /\ p = target.
Proof.
  intros Hin.
  destruct (create_snapshot_spec w util m source target) as (C1 & _).
  cbv zeta in C1. split; [| apply C1, Hin].
  destruct (path_exists w target) eqn:Hex; [| reflexivity].
  unfold create_snapshot, prepare_target in Hin. rewrite Hex in Hin.
  destruct Hin.
Qed.

Section Touches.

Variable fromisoformat : string -> option datetime.

(* created and removed paths of do_section, by the course of the run *)
Lemma do_section_touches w util options section_name :
  let section_dir := path_join (snapshot_dir options) section_name in
  let target := path_join section_dir (format_time (time options)) in
  let run := do_section fromisoformat w util options section_name in
  (forall p, In p (created (trace run)) ->
     path_exists w p = false /\ p = target) /\
  exists k, removed (trace run) =
            map path (firstn k (catalog fromisoformat w section_dir)).
Proof.
  intros section_dir target run.
  pose proof (read_section_options_silent util options section_name) as Hs.
  destruct (read_section_options util options section_name)
    as [tr [[so |] | e]] eqn:Hread; cbn [trace fst] in Hs.
  - pose proof (do_section_shape fromisoformat w util options section_name tr so
                  Hread) as Hshape.
    cbv zeta in Hshape. fold section_dir in Hshape. fold target in Hshape.
    unfold run. clear run. rewrite Hshape. clear Hshape.
    destruct (silent_trace _ (catalog_diagnostics_silent fromisoformat w section_dir))
      as (_ & D2 & D3 & _).
    destruct (timedelta_new (offset so) 0 0) as [td |].
    2: { cbn [trace fst]. split; [intros p [] | exists 0%nat; reflexivity]. }
    destruct (datetime_add (time options) td) as [shifted_now |].
    2: { cbn [trace fst]. rewrite D2, D3.
         split; [intros p [] | exists 0%nat; reflexivity]. }
    destruct (check_covered_processed util (interval so) td
                (interval so shifted_now) (catalog fromisoformat w section_dir))
      as (_ & K2 & K3 & _).
    destruct (check_covered util (interval so) td (interval so shifted_now)
                (catalog fromisoformat w section_dir)) as [tc [[|] | e]];
      cbn [trace outcome fst snd] in *.
    + destruct (remove_old_spec w util (method so)
                  (catalog fromisoformat w section_dir) (amount so))
        as (P1 & _ & _ & (k & P4) & _).
      cbv zeta in P1, P4. autorewrite with traces.
      rewrite D2, D3, K2, K3, P1, P4. cbn [app].
      split; [intros p [] | exists k; reflexivity].
    + set (cr := create_snapshot w util (method so) (source_dir options) target).
      pose proof (create_snapshot_fresh w util (method so) (source_dir options)
                    target) as Hfresh. fold cr in Hfresh.
      destruct (create_snapshot_spec w util (method so) (source_dir options)
                  target) as (_ & _ & C3 & _).
      fold cr in C3. cbv zeta in C3.
      destruct (outcome cr) as [[] | e]; cbn [trace fst].
      * destruct (remove_old_spec w util (method so)
                    (catalog fromisoformat w section_dir) (amount so - 1))
          as (P1 & _ & _ & (k & P4) & _).
        cbv zeta in P1, P4. autorewrite with traces.
        rewrite D2, D3, K2, K3, C3, P1, P4. autorewrite with traces.
        cbn [app]. split; [| exists k; reflexivity].
        intros p Hp. destruct (Hfresh p Hp) as [Hex ->]. auto.
      * autorewrite with traces. rewrite D2, D3, K2, K3, C3.
        autorewrite with traces. cbn [app].
        split; [| exists 0%nat; reflexivity].
        intros p Hp. destruct (Hfresh p Hp) as [Hex ->]. auto.
    + autorewrite with traces. rewrite D2, D3, K2, K3. cbn [app].
      split; [intros p [] | exists 0%nat; reflexivity].
  - unfold run, do_section. rewrite Hread. unfold bind, say, emit.
    cbn [trace fst]. destruct (silent_trace tr Hs) as (_ & S2 & S3 & _).
    autorewrite with traces. rewrite S2, S3.
    split; [intros p [] | exists 0%nat; reflexivity].
  - unfold run, do_section. rewrite Hread. unfold bind. cbn [trace fst].
    destruct (silent_trace tr Hs) as (_ & S2 & S3 & _). rewrite S2, S3.
    split; [intros p [] | exists 0%nat; reflexivity].
Qed.

(** X8: do_section never issues a creating command for a path that exists:
    whatever it creates is the path named by format_time of now in the
    section directory, and that path is not in the directory listing. *)
Theorem created_target_is_fresh w util options section_name p :
  In p (created (trace (do_section fromisoformat w util options section_name))) ->
  path_exists w p = false /\
  p = path_join (path_join (snapshot_dir options) section_name)
                (format_time (time options)).
Proof.
  apply (proj1 (do_section_touches w util options section_name)).
Qed.

(** X9: in every run of a section, also one that fails or is skipped, the
    removed paths are an initial segment of the catalog in ascending order
    of timestamp; each is a directory of the section whose name reads as a
    timestamp, never a file or a directory of another name. *)
Theorem removals_are_oldest_catalogued w util options section_name :
  let section_dir := path_join (snapshot_dir options) section_name in
  let run := do_section fromisoformat w util options section_name in
  (exists k, removed (trace run) =
             map path (firstn k (catalog fromisoformat w section_dir))) /\
  StronglySorted when_le (catalog fromisoformat w section_dir) /\
  forall p, In p (removed (trace run)) ->
    exists children name t,
      iterdir w section_dir = Some children /\ In (name, true) children /\
      fromisoformat name = Some t /\ p = path_join section_dir name.
Proof.
  intros section_dir run.
  destruct (do_section_touches w util options section_name) as (_ & k & Hk).
  fold section_dir in Hk. fold run in Hk.
  split; [exists k; exact Hk |]. split; [apply catalog_sorted |].
  intros p Hp. rewrite Hk in Hp. apply in_map_iff in Hp.
  destruct Hp as (s & <- & Hs). apply firstn_in in Hs. apply catalog_in in Hs.
  destruct Hs as (children & name & Hdir & Hin & Hparse & Hpath).
  exists children, name, (when s). auto.
Qed.

End Touches.

Lemma created_target_is_fresh_witness :
  path_exists Scenarios.monthly_empty_world
    ["data-snapshots"; "monthly"; "2024-03-27 10:00"]%string = false.
Proof.
  refine (proj1 (created_target_is_fresh fromisoformat_naive
            Scenarios.monthly_empty_world Scenarios.the_util
            Scenarios.monthly_options "monthly" _ _)).
  vm_compute. left. reflexivity.
Defined.

(** ** Offsets that leave the calendar *)

Section Overflow.

Variable fromisoformat : string -> option datetime.


End Overflow.


(** ** The order of the sections *)

Section Order.

Variable fromisoformat : string -> option datetime.

Lemma do_sections_prefix w util options names :
  prefix_of (processed (trace (do_sections fromisoformat w util options names)))
            names.
Proof.
  induction names as [| name names (rest & IH)]; cbn [do_sections].
  - exists []. reflexivity.
  - pose proof (do_section_processed fromisoformat w util options name) as Hp.
    unfold bind, say, emit.
    destruct (do_section fromisoformat w util options name) as [t1 [[] | e]];
      cbn [trace fst] in Hp.
    + destruct (do_sections fromisoformat w util options names) as [t2 r2].
      cbn [trace fst app] in *.
      unfold processed at 1. cbn [filter_map section_started].
      fold (processed (t1 ++ t2)). rewrite processed_app, Hp. cbn [app].
      exists rest. rewrite IH at 1. reflexivity.
    + cbn [trace fst app].
      unfold processed at 1. cbn [filter_map section_started].
      fold (processed t1). rewrite Hp. exists names. reflexivity.
Qed.

(** X10: the sections are started in the order of the configuration, each
    at most once and none skipped over: the sections a run has started are
    an initial segment of config.sections(); the exit status is 0 or 1, and
    it is 0 only when every section was started and the loop came to its
    end. *)
Theorem sections_are_processed_in_order w options :
  let r := script fromisoformat w options in
  prefix_of (processed (fst r)) (sections (config options)) /\
  (snd r = 0 \/ snd r = 1) /\
  (snd r = 0 -> processed (fst r) = sections (config options) /\
                outcome (main fromisoformat w options) = Ok tt).
Proof.
  cbv zeta.
  set (util := mkUtil "rotate.py" (options_dry_run options)).
  pose proof (do_sections_prefix w util options (sections (config options)))
    as Hprefix.
  pose proof (do_sections_processed fromisoformat w util options
                (sections (config options))) as Hall.
  assert (Hmain : main fromisoformat w options =
    ([Say (MsgSourceDirectory (source_dir options));
      Say (MsgSnapshotDirectory (snapshot_dir options));
      Say (MsgConfigFile (config_file options));
      Say (MsgTime (format_time (time options)));
      Say (MsgDryRun (options_dry_run options));
      Say (MsgSections (sections (config options)))]
     ++ trace (do_sections fromisoformat w util options (sections (config options))),
     outcome (do_sections fromisoformat w util options (sections (config options))))).
  { unfold main. fold util. unfold bind, say, emit.
    destruct (do_sections fromisoformat w util options (sections (config options))).
    reflexivity. }
  unfold script. rewrite Hmain.
  assert (Hhead : forall t,
            processed ([Say (MsgSourceDirectory (source_dir options));
               Say (MsgSnapshotDirectory (snapshot_dir options));
               Say (MsgConfigFile (config_file options));
               Say (MsgTime (format_time (time options)));
               Say (MsgDryRun (options_dry_run options));
               Say (MsgSections (sections (config options)))] ++ t)
            = processed t).
  { intros t. reflexivity. }
  destruct (do_sections fromisoformat w util options (sections (config options)))
    as [t [[] | e]]; cbn [trace outcome fst snd] in *.
  - rewrite Hhead. split; [exact Hprefix |]. split; [left; reflexivity |].
    intros _. split; [apply Hall; reflexivity | reflexivity].
  - assert (Hp : forall h last, section_started last = None ->
              processed ((h ++ t) ++ [last]) = processed (h ++ t)).
    { intros h last Hlast. rewrite (processed_app (h ++ t)).
      unfold processed at 2. cbn [filter_map]. rewrite Hlast. apply app_nil_r. }
    destruct e; cbn [fst snd]; rewrite Hp by reflexivity; rewrite Hhead;
      (split; [exact Hprefix |]); (split; [right; reflexivity | discriminate]).
Qed.

End Order.

(** ** Validation of a section *)

(** X2: when the section exists, the values of its four keys hold no
    interpolation syntax and the amount is absent or an integer literal,
    read_section_options raises nothing and says, in the order method,
    interval, offset, amount, exactly one diagnostic for each key whose
    value is invalid (an amount is invalid when it is not greater than 0),
    and nothing else; it returns options exactly when it said nothing, and
    they hold the method, interval function and offset read from the
    strings, and the amount. *)
Theorem read_section_options_diagnoses util options section_name section n :
  config_getitem (config options) section_name = Some section ->
  (forall k v, In k ["method"; "interval"; "offset"; "amount"]%string ->
     dict_get section k = Some v -> no_percent v = true) ->
  section_getint section "amount" 7 = ([], Ok n) ->
  let method := method_from_string (section_get section "method" "copy") in
  let interval := interval_from_string (section_get section "interval" "daily") in
  let offset := days_from_string (section_get section "offset" "0d") in
  let diagnostics :=
    (match method with None => [Say MsgInvalidMethod] | Some _ => [] end)
    ++ (match interval with None => [Say MsgInvalidInterval] | Some _ => [] end)
    ++ (match offset with None => [Say MsgInvalidOffset] | Some _ => [] end)
    ++ (if n <=? 0 then [Say MsgInvalidAmount] else []) in
  exists r,
    read_section_options util options section_name = (diagnostics, Ok r) /\
    (r = None <-> diagnostics <> []) /\
    (forall so, r = Some so ->
       method = Some (Rotate.method so) /\
       interval = Some (Rotate.interval so) /\
       offset = Some (Rotate.offset so) /\
       amount so = n /\ 0 < n).
Proof.
  intros Hsec _ Hint. cbv zeta.
  unfold section_getint, lift, ret, raise in Hint.
  unfold read_section_options, section_getint, lift, say, emit, bind, ret, raise.
  rewrite Hsec.
  destruct (dict_get section "amount") as [v |];
    [destruct (PyStr.int v) as [n' |]; [| discriminate Hint] |];
    injection Hint as <-.
  all: destruct (method_from_string (section_get section "method" "copy")) as [m |];
  destruct (interval_from_string (section_get section "interval" "daily"))
    as [i |];
  destruct (days_from_string (section_get section "offset" "0d")) as [o |];
  match goal with
  | |- context [?a <=? 0] => destruct (Z.leb_spec a 0) as [Hn | Hn]
  end;
  cbn [app]; eexists; (split; [reflexivity |]);
  (split; [split; [intros Hr; first [discriminate Hr | discriminate]
                  | intros H;
                    first [reflexivity | exfalso; apply H; reflexivity]] |]);
  intros so' Hso; try discriminate Hso;
  injection Hso as <-; cbn [method interval offset amount];
  repeat split; lia.
Qed.

Section Validation.

Variable fromisoformat : string -> option datetime.

(** X3: a section whose options are invalid is passed over and the loop goes
    on: the run says the diagnostics (at least one) and that the section is
    skipped, touches nothing, and continues with the sections that follow. *)
Theorem invalid_section_is_skipped w util options section_name rest tr :
  read_section_options util options section_name = (tr, Ok None) ->
  tr <> [] /\
  Forall (fun ev => exists m, ev = Say m) tr /\
  do_sections fromisoformat w util options (section_name :: rest) =
    (Say MsgBlank :: Say (MsgSection section_name) :: tr
       ++ Say MsgSectionSkipped
       :: trace (do_sections fromisoformat w util options rest),
     outcome (do_sections fromisoformat w util options rest)).
Proof.
  intros Hread.
  destruct (section_skipped_when_invalid fromisoformat w util options
              section_name tr Hread) as [Hne Hrun].
  split; [exact Hne |]. split.
  - pose proof (read_section_options_says util options section_name) as Hs.
    rewrite Hread in Hs. exact Hs.
  - cbn [do_sections]. rewrite Hrun. unfold bind, say, emit.
    destruct (do_sections fromisoformat w util options rest) as [t r].
    cbn [app trace outcome fst snd]. rewrite <- app_assoc. reflexivity.
Qed.

End Validation.

Lemma read_section_options_diagnoses_witness :
  read_section_options Scenarios.the_util MoreScenarios.sloppy_options "a"
  = ([Say MsgInvalidMethod; Say MsgInvalidAmount], Ok None).
Proof.
  destruct (read_section_options_diagnoses Scenarios.the_util
              MoreScenarios.sloppy_options "a"%string
              [("method", "cp"); ("amount", "-1")]%string (-1)
              ltac:(vm_compute; reflexivity))
    as (r & Hrun & Hnone & _).
  - intros k v [<- | [<- | [<- | [<- | []]]]]; vm_compute;
      intros [= <-]; reflexivity.
  - vm_compute. reflexivity.
  - rewrite Hrun. cbv zeta in Hnone.
    rewrite (proj2 Hnone); [vm_compute; reflexivity |].
    vm_compute. discriminate.
Defined.

Lemma invalid_section_is_skipped_witness :
  processed (trace (do_sections fromisoformat_naive Scenarios.before_first_run
                      Scenarios.the_util MoreScenarios.sloppy_options
                      ["a"; "b"]%string)) = ["a"; "b"]%string.
Proof.
  destruct (invalid_section_is_skipped fromisoformat_naive
              Scenarios.before_first_run Scenarios.the_util
              MoreScenarios.sloppy_options "a"%string ["b"%string]
              [Say MsgInvalidMethod; Say MsgInvalidAmount]
              ltac:(vm_compute; reflexivity)) as (_ & _ & Hrun).
  rewrite Hrun. vm_compute. reflexivity.
Defined.

(** ** The covering snapshot *)

(** X7: when the coverage loop ends by break, the snapshot it names is the
    first of the list whose shifted key equals the key of now: every
    snapshot before it has a shifted key, and a different one. *)
Theorem covering_snapshot_is_first util interval td k l tr :
  check_covered util interval td k l = (tr, Ok true) ->
  exists pre s post,
    l = pre ++ s :: post /\
    tr = [Say (MsgAlreadyCovered (path s))] /\
    shifted_key interval td (when s) = Some k /\
    forall s', In s' pre ->
      exists k', shifted_key interval td (when s') = Some k' /\ k' <> k.
Proof.
  revert tr. induction l as [| s rest IH]; intros tr; [discriminate |].
  rewrite check_covered_step.
  destruct (shifted_key interval td (when s)) as [k' |] eqn:Hk; [| discriminate].
  destruct (key_eqb k k') eqn:E.
  - intros [= <-]. apply key_eqb_eq in E. subst k'.
    exists [], s, rest. repeat split; auto. intros s' [].
  - intros Hrest. destruct (IH tr Hrest) as (pre & s0 & post & -> & Htr & Hs0 & Hpre).
    exists (s :: pre), s0, post. repeat split; auto.
    intros s' [<- | Hin]; [| auto].
    exists k'. split; [exact Hk |]. intros ->.
    assert (key_eqb k k = true) by (apply key_eqb_eq; reflexivity). congruence.
Qed.

Lemma covering_snapshot_is_first_witness :
  let s1 := mkSnapshot ["s"; "2024-03-28"]%string (mkdt 2024 3 28 0 0 0 0) in
  let s2 := mkSnapshot ["s"; "2024-03-30"]%string (mkdt 2024 3 30 0 0 0 0) in
  exists pre s post,
    [s1; s2] = pre ++ s :: post /\
    [Say (MsgAlreadyCovered (path s1))] = [Say (MsgAlreadyCovered (path s))] /\
    shifted_key interval_monthly (mktd 5 0 0) (when s) = Some (KTuple [2024; 4]) /\
    forall s', In s' pre ->
      exists k', shifted_key interval_monthly (mktd 5 0 0) (when s') = Some k' /\
                 k' <> KTuple [2024; 4].
Proof.
  intros s1 s2.
  exact (covering_snapshot_is_first Scenarios.the_util interval_monthly
           (mktd 5 0 0) (KTuple [2024; 4]) [s1; s2]
           [Say (MsgAlreadyCovered (path s1))]
           ltac:(vm_compute; reflexivity)).
Defined.

(** ** Snapshot names *)

(** X11: two valid times get the same snapshot name from format_time exactly
    when they agree up to the minute; seconds and microseconds never show
    in a name. *)
Theorem format_time_same_minute (a b : datetime) :
  valid_datetime a -> valid_datetime b ->
  (format_time a = format_time b <-> minute_precision a = minute_precision b).
Proof.
  intros Ha Hb. split.
  - intros E. apply (f_equal fromisoformat_naive) in E.
    rewrite !IsoFacts.fromisoformat_naive_format_time in E by assumption.
    congruence.
  - unfold minute_precision. intros [= Ey Em Ed Eh Emi].
    unfold format_time, PyStr.isoformat_minutes.
    rewrite Ey, Em, Ed, Eh, Emi. reflexivity.
Qed.

Lemma format_time_same_minute_witness :
  format_time (mkdt 2024 3 7 14 30 0 0)
  = format_time (mkdt 2024 3 7 14 30 59 999999).
Proof.
  apply (proj2 (format_time_same_minute (mkdt 2024 3 7 14 30 0 0)
                  (mkdt 2024 3 7 14 30 59 999999)
                  ltac:(cbv; intuition discriminate)
                  ltac:(cbv; intuition discriminate))).
  reflexivity.
Defined.

(** ** The commands of a section *)

Lemma section_event_impl dry create parent (R R' : command -> Prop) ev :
  (forall c, R c -> R' c) ->
  section_event dry create parent R ev -> section_event dry create parent R' ev.
Proof.
  intros HR. destruct ev; cbn [section_event]; try tauto.
  - intros [H | H]; [left | right; apply HR]; exact H.
  - intros [Hd [H | H]]; (split; [exact Hd |]); [left | right; apply HR]; exact H.
Qed.

Lemma says_section_events dry create parent R t :
  Forall (fun ev => exists m, ev = Say m) t ->
  Forall (section_event dry create parent R) t.
Proof. apply Forall_impl. intros ev (m & ->). exact I. Qed.

Lemma logged_nil : logged [].
Proof. intros [| ? ?] c post E; discriminate E. Qed.

Lemma says_logged t : Forall (fun ev => exists m, ev = Say m) t -> logged t.
Proof.
  intros Hs pre c post E. rewrite Forall_forall in Hs.
  assert (Hin : In (Spawn c) t) by (rewrite E; apply in_elt).
  destruct (Hs _ Hin) as (m & Hm). discriminate Hm.
Qed.

Lemma logged_cons_say m t : logged t -> logged (Say m :: t).
Proof.
  intros Ht [| ev pre] c post E; [discriminate E |].
  injection E as <- E. destruct (Ht pre c post E) as (pre' & ->).
  exists (Say m :: pre'). reflexivity.
Qed.

Lemma logged_app t1 t2 : logged t1 -> logged t2 -> logged (t1 ++ t2).
Proof.
  intros H1 H2 pre c post E.
  apply app_eq_app in E.
  destruct E as (l & [[E1 E2] | [E1 E2]]).
  - destruct l as [| x l].
    + cbn [app] in E2. rewrite app_nil_r in E1. subst t1.
      destruct (H2 [] c post (eq_sym E2)) as (pre' & E').
      destruct pre'; discriminate E'.
    + injection E2 as <- E2. exact (H1 pre c l E1).
  - destruct (H2 l c post E2) as (pre' & ->).
    exists (t1 ++ pre'). rewrite E1, app_assoc. reflexivity.
Qed.

Lemma logged_bind {A B} (m : M A) (f : A -> M B) :
  logged (trace m) ->
  (forall a, outcome m = Ok a -> logged (trace (f a))) ->
  logged (trace (bind m f)).
Proof.
  intros Hm Hf. rewrite bind_eq.
  destruct m as [t [a | e]]; cbn [trace outcome fst snd] in *.
  - apply logged_app; [exact Hm | apply Hf; reflexivity].
  - exact Hm.
Qed.

Lemma path_parent_join directory name :
  path_parent (path_join directory name) = directory.
Proof. unfold path_parent, path_join. apply removelast_last. Qed.

Section Commands.

Variable fromisoformat : string -> option datetime.
Variables (w : World) (util : Util).

Lemma method_run_events create parent (R : command -> Prop) c :
  c = create \/ R c ->
  Forall (section_event (dry_run util) create parent R)
         (trace (method_run w util c)) /\
  logged (trace (method_run w util c)).
Proof.
  intros Hc.
  assert (Htrace : exists rest,
            trace (method_run w util c) = Running c :: rest /\
            (rest = [Exited None] /\ dry_run util = true \/
             exists code, rest = [Spawn c; Exited (Some code)] /\
                          dry_run util = false)).
  { unfold method_run, util_run, try_except, bind, emit, ret, raise.
    destruct (dry_run util); [| destruct (returncode w c =? 0)];
      cbn [trace fst app]; eexists; (split; [reflexivity |]); eauto. }
  destruct Htrace as (rest & -> & [[-> Hdry] | (code & -> & Hdry)]);
    rewrite Hdry; split.
  - repeat (apply Forall_cons; [cbn [section_event]; auto |]).
    apply Forall_nil.
  - intros [| ? [| ? [| ? ?]]] c' post E; discriminate E.
  - repeat (apply Forall_cons; [cbn [section_event]; auto |]).
    apply Forall_nil.
  - intros [| ? [| ? [| ? [| ? ?]]]] c' post E; try discriminate E.
    injection E as <- <- _. exists []. reflexivity.
Qed.

Lemma create_snapshot_events m source directory name (R : command -> Prop) :
  let target := path_join directory name in
  let r := create_snapshot w util m source target in
  Forall (section_event (dry_run util) (create_command m source target)
                        directory R) (trace r) /\
  logged (trace r).
Proof.
  cbv zeta. unfold create_snapshot, prepare_target.
  rewrite path_parent_join.
  destruct (method_run_events (create_command m source (path_join directory name))
              directory R
              (create_command m source (path_join directory name))
              (or_introl eq_refl))
    as [He Hl].
  destruct (method_run w util (create_command m source (path_join directory name)))
    as [t r].
  cbn [trace fst] in He, Hl.
  unfold bind, emit, ret, raise.
  destruct (path_exists w (path_join directory name));
    [split; [constructor | apply logged_nil] |].
  destruct (dry_run util) eqn:Hdry; cbn [trace fst app].
  - split; assumption.
  - destruct (mkdir_parents w directory); cbn [trace fst app].
    + split; [constructor; [cbn; auto | exact He] |].
      apply (logged_app [Mkdir directory] t); [| exact Hl].
      intros [| ? [| ? ?]] c post E; discriminate E.
    + split; [repeat constructor; cbn; auto |].
      intros [| ? [| ? ?]] c post E; discriminate E.
Qed.

Lemma remove_old_events m create parent l amount :
  Forall (section_event (dry_run util) create parent
            (fun c => exists s, In s l /\ c = remove_command m (path s)))
         (trace (remove_old w util m l amount)) /\
  logged (trace (remove_old w util m l amount)).
Proof.
  induction l as [| s rest IH]; cbn [remove_old].
  - destruct (amount <? 0); split; try constructor; apply logged_nil.
  - destruct (amount <? Z.of_nat (List.length (s :: rest)));
      [| split; [constructor | apply logged_nil]].
    destruct (method_run_events create parent
                (fun c => exists s', In s' (s :: rest) /\
                                     c = remove_command m (path s'))
                (remove_command m (path s)))
      as [He Hl].
    { right. exists s. split; [left; reflexivity | reflexivity]. }
    destruct IH as [IHe IHl].
    split.
    + apply Forall_bind; [exact He |]. intros _ _.
      revert IHe. apply Forall_impl. intros ev.
      apply section_event_impl. intros c (s' & Hin & ->).
      exists s'. split; [right; exact Hin | reflexivity].
    + apply logged_bind; [exact Hl | intros _ _; exact IHl].
Qed.

(** X17: a well-configured section runs nothing but the commands of its
    method: the creating command of the method, from the source directory to
    the path named by format_time of now, and the removing command of the
    method on snapshots of the catalog; its only call of mkdir is the one
    of prepare_target on the section directory (parents=True: the call
    makes the directories above it that are missing, too); in a dry run it
    starts no process and calls no mkdir; and it starts no process without
    logging its command line just before. *)
Theorem section_runs_only_its_method options section_name tr so :
  read_section_options util options section_name = (tr, Ok (Some so)) ->
  let section_dir := path_join (snapshot_dir options) section_name in
  let target := path_join section_dir (format_time (time options)) in
  let run := trace (do_section fromisoformat w util options section_name) in
  Forall (section_event (dry_run util)
            (create_command (method so) (source_dir options) target)
            section_dir
            (fun c => exists s,
               In s (catalog fromisoformat w section_dir) /\
               c = remove_command (method so) (path s)))
         run /\
  logged run.
Proof.
  intros Hread section_dir target run. subst run.
  pose proof (read_section_options_says util options section_name) as Hsays.
  unfold do_section. rewrite Hread in *. cbn [trace fst] in Hsays.
  rewrite bind_eq. cbn [trace outcome fst snd].
  fold section_dir. fold target.
  set (create := create_command (method so) (source_dir options) target).
  set (R := fun c => exists s, In s (catalog fromisoformat w section_dir) /\
                               c = remove_command (method so) (path s)).
  assert (Hrest :
    forall k : M unit,
      Forall (section_event (dry_run util) create section_dir R) (trace k) ->
      logged (trace k) ->
      Forall (section_event (dry_run util) create section_dir R)
             (tr ++ trace k) /\ logged (tr ++ trace k)).
  { intros k He Hl. split.
    - apply Forall_app. split; [apply says_section_events, Hsays | exact He].
    - apply logged_app; [apply says_logged, Hsays | exact Hl]. }
  apply Hrest.
  - apply Forall_bind; [rewrite lift_trace; constructor |]. intros td _.
    apply Forall_bind;
      [apply says_section_events, find_snapshots_says |].
    intros snapshots Hsn.
    rewrite find_snapshots_catalog_eq in Hsn. injection Hsn as <-.
    apply Forall_bind; [rewrite lift_trace; constructor |].
    intros shifted_now _. cbv zeta.
    apply Forall_bind; [apply says_section_events, check_covered_says |].
    intros covered _.
    apply Forall_bind;
      [| intros amount _;
         apply (remove_old_events (method so) create section_dir)].
    destruct covered; [constructor |].
    apply Forall_bind; [repeat constructor |]. intros _ _.
    apply Forall_bind; [| intros _ _; constructor].
    apply (create_snapshot_events (method so) (source_dir options) section_dir
             (format_time (time options)) R).
  - apply logged_bind; [rewrite lift_trace; apply logged_nil |]. intros td _.
    apply logged_bind; [apply says_logged, find_snapshots_says |].
    intros snapshots _.
    apply logged_bind; [rewrite lift_trace; apply logged_nil |].
    intros shifted_now _. cbv zeta.
    apply logged_bind; [apply says_logged, check_covered_says |].
    intros covered _.
    apply logged_bind;
      [| intros amount _;
         apply (remove_old_events (method so)
                  (create_command (method so) (source_dir options) target)
                  section_dir)].
    destruct covered; [apply logged_nil |].
    apply logged_bind; [apply says_logged; repeat constructor; eexists; reflexivity |].
    intros _ _.
    apply logged_bind; [| intros _ _; apply logged_nil].
    apply (create_snapshot_events (method so) (source_dir options) section_dir
             (format_time (time options)) R).
Qed.

End Commands.

Lemma section_runs_only_its_method_witness :
  logged (trace (do_section fromisoformat_naive Scenarios.five_world
                   Scenarios.the_util Scenarios.five_options "daily")).
Proof.
  set (so := mkSectionOptions CopyMethod interval_daily 0 3).
  assert (Hread : read_section_options Scenarios.the_util
                    Scenarios.five_options "daily" = ([], Ok (Some so)))
    by (vm_compute; reflexivity).
  exact (proj2 (section_runs_only_its_method fromisoformat_naive
                  Scenarios.five_world Scenarios.the_util
                  Scenarios.five_options "daily"%string [] so Hread)).
Defined.

(** ** Ordinals and dates *)

Module CalendarFacts.

Lemma month_day_checked leapyear n :
  0 <= n <= 364 -> month_day_check leapyear n = true.
Proof.
  intros Hn.
  assert (H : forallb (fun n => month_day_check true n
                                && month_day_check false n) day_numbers = true)
    by (vm_compute; reflexivity).
  rewrite forallb_forall in H.
  assert (Hin : In n day_numbers).
  { unfold day_numbers. apply in_map_iff. exists (Z.to_nat n).
    split; [lia | apply in_seq; lia]. }
  apply H in Hin. apply andb_true_iff in Hin.
  destruct leapyear; tauto.
Qed.

Lemma ord2ymd_month_day n0 :
  ord2ymd n0 =
  let n := n0 - 1 in
  let n400 := n / DI400Y in let n := n mod DI400Y in
  let n100 := n / DI100Y in let n := n mod DI100Y in
  let n4 := n / DI4Y in let n := n mod DI4Y in
  let n1 := n / 365 in let n := n mod 365 in
  let y := n400 * 400 + 1 + n100 * 100 + n4 * 4 + n1 in
  if (n1 =? 4) || (n100 =? 4) then (y - 1, 12, 31)
  else
    let '(m, d) :=
      month_day ((n1 =? 3) && (negb (n4 =? 24) || (n100 =? 3))) n in
    (y, m, d).
Proof.
  unfold ord2ymd, month_day. cbv zeta.
  repeat match goal with
         | |- context [if ?c then _ else _] => destruct c
         end; reflexivity.
Qed.

(** A year written with its digits in the 400-, 100-, 4- and 1-year cycles. *)
Lemma year_digits a b c e :
  0 <= b <= 3 -> 0 <= c <= 24 -> 0 <= e <= 3 ->
  let y := 400 * a + 100 * b + 4 * c + e + 1 in
  days_before_year y = 146097 * a + 36524 * b + 1461 * c + 365 * e /\
  is_leap y = (e =? 3) && (negb (c =? 24) || (b =? 3)).
Proof.
  intros Hb Hc He y. split.
  - unfold days_before_year. cbv zeta. subst y.
    Z.div_mod_to_equations. lia.
  - unfold is_leap. subst y.
    destruct (Z.eqb_spec e 3); destruct (Z.eqb_spec c 24);
      destruct (Z.eqb_spec b 3);
      repeat match goal with
             | |- context [?x mod ?k =? 0] => destruct (Z.eqb_spec (x mod k) 0)
             end; cbn; try reflexivity; exfalso;
      Z.div_mod_to_equations; lia.
Qed.

(** The date of a positive ordinal is a date of the calendar, and counts back
    to the ordinal. *)
Lemma ord2ymd_spec n :
  1 <= n ->
  let '(y, m, d) := ord2ymd n in
  1 <= y /\ 1 <= m <= 12 /\ 1 <= d <= days_in_month y m /\ ymd2ord y m d = n.
Proof.
  intros Hn. rewrite ord2ymd_month_day. cbv zeta. unfold DI400Y, DI100Y, DI4Y.
  set (a := (n - 1) / 146097). set (r400 := (n - 1) mod 146097).
  set (b := r400 / 36524). set (r100 := r400 mod 36524).
  set (c := r100 / 1461). set (r4 := r100 mod 1461).
  set (e := r4 / 365). set (r := r4 mod 365).
  assert (Ha : n - 1 = 146097 * a + r400 /\ 0 <= r400 < 146097).
  { subst a r400. split; [apply Z.div_mod | apply Z.mod_pos_bound]; lia. }
  assert (Hb : r400 = 36524 * b + r100 /\ 0 <= r100 < 36524).
  { subst b r100. split; [apply Z.div_mod | apply Z.mod_pos_bound]; lia. }
  assert (Hc : r100 = 1461 * c + r4 /\ 0 <= r4 < 1461).
  { subst c r4. split; [apply Z.div_mod | apply Z.mod_pos_bound]; lia. }
  assert (He : r4 = 365 * e + r /\ 0 <= r < 365).
  { subst e r. split; [apply Z.div_mod | apply Z.mod_pos_bound]; lia. }
  clearbody a r400 b r100 c r4 e r.
  assert (Ha0 : 0 <= a) by lia.
  destruct (Z.eqb_spec e 4) as [He4 | He4];
    [| destruct (Z.eqb_spec b 4) as [Hb4 | Hb4]]; cbn [orb].
  - (* the last day of a leap year that ends a 4-year cycle *)
    replace (a * 400 + 1 + b * 100 + c * 4 + e - 1)
      with (400 * a + 100 * b + 4 * c + 3 + 1) by lia.
    destruct (year_digits a b c 3 ltac:(lia) ltac:(lia) ltac:(lia)) as [Hd Hl].
    cbv zeta in Hd, Hl.
    unfold ymd2ord, days_before_month, days_in_month.
    rewrite Hd, Hl.
    destruct (Z.eqb_spec c 24) as [Hc24 | Hc24]; [lia |].
    change (table DAYS_BEFORE_MONTH 12) with 334.
    change (table DAYS_IN_MONTH 12) with 31.
    change (3 =? 3) with true. change (12 =? 2) with false.
    change (2 <? 12) with true. cbn [andb orb negb]. lia.
  - (* the last day of a 400-year cycle *)
    replace (a * 400 + 1 + b * 100 + c * 4 + e - 1)
      with (400 * a + 100 * 3 + 4 * 24 + 3 + 1) by lia.
    destruct (year_digits a 3 24 3 ltac:(lia) ltac:(lia) ltac:(lia)) as [Hd Hl].
    cbv zeta in Hd, Hl.
    unfold ymd2ord, days_before_month, days_in_month.
    rewrite Hd, Hl.
    change (table DAYS_BEFORE_MONTH 12) with 334.
    change (table DAYS_IN_MONTH 12) with 31.
    change (24 =? 24) with true.
    change (3 =? 3) with true. change (12 =? 2) with false.
    change (2 <? 12) with true. cbn [andb orb negb]. lia.
  - replace (a * 400 + 1 + b * 100 + c * 4 + e)
      with (400 * a + 100 * b + 4 * c + e + 1) by lia.
    destruct (year_digits a b c e ltac:(lia) ltac:(lia) ltac:(lia)) as [Hd Hl].
    cbv zeta in Hd, Hl.
    pose proof (month_day_checked
                  ((e =? 3) && (negb (c =? 24) || (b =? 3))) r ltac:(lia))
      as Hmd.
    unfold month_day_check in Hmd.
    destruct (month_day ((e =? 3) && (negb (c =? 24) || (b =? 3))) r)
      as [m d].
    unfold in_range in Hmd.
    rewrite !andb_true_iff, !Z.leb_le, Z.eqb_eq in Hmd.
    unfold ymd2ord, days_before_month, days_in_month.
    rewrite Hd, Hl. lia.
Qed.

Lemma div_succ k y :
  0 < k -> y / k = (y - 1) / k + (if y mod k =? 0 then 1 else 0).
Proof.
  intros Hk. destruct (Z.eqb_spec (y mod k) 0); Z.div_mod_to_equations; nia.
Qed.

Lemma days_before_year_succ y :
  days_before_year (y + 1) =
  days_before_year y + 365 + (if is_leap y then 1 else 0).
Proof.
  unfold days_before_year, is_leap. cbv zeta.
  replace (y + 1 - 1) with y by lia.
  rewrite (div_succ 4 y), (div_succ 100 y), (div_succ 400 y) by lia.
  destruct (Z.eqb_spec (y mod 4) 0); destruct (Z.eqb_spec (y mod 100) 0);
    destruct (Z.eqb_spec (y mod 400) 0); cbn [andb orb negb]; try lia;
    exfalso; Z.div_mod_to_equations; lia.
Qed.

Lemma days_before_year_mono y y' :
  y <= y' -> days_before_year y + 365 * (y' - y) <= days_before_year y'.
Proof.
  intros Hy. unfold days_before_year. cbv zeta.
  Z.div_mod_to_equations. lia.
Qed.

Lemma month_cases m :
  1 <= m <= 12 ->
  m = 1 \/ m = 2 \/ m = 3 \/ m = 4 \/ m = 5 \/ m = 6 \/ m = 7 \/ m = 8
  \/ m = 9 \/ m = 10 \/ m = 11 \/ m = 12.
Proof. lia. Qed.

Ltac each_month H :=
  repeat (destruct H as [-> | H]); [.. | subst].

(** The days of a month follow those of the months before it, and the last
    month ends the year. *)
Lemma days_before_month_succ y m :
  1 <= m <= 12 ->
  days_before_month y m + days_in_month y m =
  if m =? 12 then 365 + (if is_leap y then 1 else 0)
  else days_before_month y (m + 1).
Proof.
  intros Hm. apply month_cases in Hm.
  unfold days_before_month, days_in_month.
  each_month Hm; destruct (is_leap y); reflexivity.
Qed.

Lemma days_before_month_mono y m m' :
  1 <= m -> m < m' <= 12 ->
  days_before_month y m + days_in_month y m <= days_before_month y m'.
Proof.
  intros Hm Hm'.
  assert (H1 : 1 <= m <= 12) by lia. assert (H2 : 1 <= m' <= 12) by lia.
  apply month_cases in H1. apply month_cases in H2.
  unfold days_before_month, days_in_month.
  each_month H1; each_month H2; try lia; destruct (is_leap y); cbv;
    discriminate.
Qed.

Lemma day_of_year_range y m d :
  1 <= m <= 12 -> 1 <= d <= days_in_month y m ->
  1 <= days_before_month y m + d <= 365 + (if is_leap y then 1 else 0).
Proof.
  intros Hm Hd.
  pose proof (days_before_month_succ y m Hm) as Hs.
  destruct (Z.eqb_spec m 12) as [-> | Hne].
  - split; [| lia].
    unfold days_before_month. change (table DAYS_BEFORE_MONTH 12) with 334.
    destruct ((2 <? 12) && is_leap y); lia.
  - pose proof (days_before_month_mono y m 12 ltac:(lia) ltac:(lia)) as Hmono.
    pose proof (days_before_month_succ y 12 ltac:(lia)) as H12.
    change (12 =? 12) with true in H12. cbv iota in H12.
    assert (0 < days_in_month y 12).
    { unfold days_in_month. destruct ((12 =? 2) && is_leap y); cbv; reflexivity. }
    assert (0 <= days_before_month y m).
    { unfold days_before_month.
      pose proof (table_before_month_range m Hm).
      destruct ((2 <? m) && is_leap y); lia. }
    lia.
Qed.

(** Different dates have different ordinals. *)
Lemma ymd2ord_inj y m d y' m' d' :
  1 <= m <= 12 -> 1 <= d <= days_in_month y m ->
  1 <= m' <= 12 -> 1 <= d' <= days_in_month y' m' ->
  ymd2ord y m d = ymd2ord y' m' d' ->
  y = y' /\ m = m' /\ d = d'.
Proof.
  intros Hm Hd Hm' Hd' E. unfold ymd2ord in E.
  pose proof (day_of_year_range y m d Hm Hd) as R.
  pose proof (day_of_year_range y' m' d' Hm' Hd') as R'.
  pose proof (days_before_year_succ y) as S1.
  pose proof (days_before_year_succ y') as S2.
  assert (Ey : y = y').
  { destruct (Z.lt_trichotomy y y') as [Hlt | [Heq | Hgt]]; [| exact Heq |].
    - pose proof (days_before_year_mono (y + 1) y' ltac:(lia)). lia.
    - pose proof (days_before_year_mono (y' + 1) y ltac:(lia)). lia. }
  subst y'. split; [reflexivity |].
  assert (Em : m = m').
  { destruct (Z.lt_trichotomy m m') as [Hlt | [Heq | Hgt]]; [| exact Heq |].
    - pose proof (days_before_month_mono y m m' ltac:(lia) ltac:(lia)). lia.
    - pose proof (days_before_month_mono y m' m ltac:(lia) ltac:(lia)). lia. }
  subst m'. split; [reflexivity | lia].
Qed.

(** The ordinal of a date leads back to the date. *)
Lemma ord2ymd_ymd2ord y m d :
  1 <= y -> 1 <= m <= 12 -> 1 <= d <= days_in_month y m ->
  ord2ymd (ymd2ord y m d) = (y, m, d).
Proof.
  intros Hy Hm Hd.
  assert (Hn : 1 <= ymd2ord y m d).
  { unfold ymd2ord.
    pose proof (day_of_year_range y m d Hm Hd).
    pose proof (days_before_year_mono 1 y Hy) as H1.
    change (days_before_year 1) with 0 in H1. lia. }
  pose proof (ord2ymd_spec (ymd2ord y m d) Hn) as Hs.
  destruct (ord2ymd (ymd2ord y m d)) as [[y' m'] d'].
  destruct Hs as (_ & Hm' & Hd' & E).
  destruct (ymd2ord_inj y' m' d' y m d Hm' Hd' Hm Hd E) as (-> & -> & ->).
  reflexivity.
Qed.

(** The ordinals up to MAXORDINAL are those of the years up to MAXYEAR. *)
Lemma ord2ymd_valid n h mi s us :
  1 <= n <= MAXORDINAL ->
  0 <= h < 24 -> 0 <= mi < 60 -> 0 <= s < 60 -> 0 <= us < 1000000 ->
  let '(y, m, d) := ord2ymd n in
  valid_datetime (mkdt y m d h mi s us) /\ ymd2ord y m d = n.
Proof.
  intros Hn Hh Hmi Hs Hus.
  pose proof (ord2ymd_spec n ltac:(lia)) as Hspec.
  destruct (ord2ymd n) as [[y m] d].
  destruct Hspec as (Hy & Hm & Hd & E).
  split; [| exact E].
  unfold valid_datetime, MINYEAR, MAXYEAR. cbn [year month day hour minute second microsecond].
  repeat split; try lia.
  destruct (Z.le_gt_cases y 9999) as [Hle | Hgt]; [exact Hle | exfalso].
  pose proof (days_before_year_mono 10000 y ltac:(lia)) as Hmono.
  change (days_before_year 10000) with 3652059 in Hmono.
  pose proof (day_of_year_range y m d Hm Hd).
  unfold ymd2ord in E. unfold MAXORDINAL in Hn. lia.
Qed.

Lemma toordinal_in_range t :
  valid_datetime t -> 1 <= toordinal t <= MAXORDINAL.
Proof.
  intros (Hy & Hm & Hd & _). unfold MINYEAR, MAXYEAR in Hy.
  unfold toordinal, ymd2ord, MAXORDINAL.
  pose proof (day_of_year_range _ _ _ Hm Hd).
  pose proof (days_before_year_succ (year t)).
  pose proof (days_before_year_mono 1 (year t) ltac:(lia)) as H1.
  pose proof (days_before_year_mono (year t + 1) 10000 ltac:(lia)) as H2.
  change (days_before_year 1) with 0 in H1.
  change (days_before_year 10000) with 3652059 in H2.
  lia.
Qed.

Lemma new_year_ordinal_eq y : ymd2ord y 1 1 = days_before_year y + 1.
Proof.
  unfold ymd2ord, days_before_month.
  change (table DAYS_BEFORE_MONTH 1) with 0. change (2 <? 1) with false.
  cbn [andb]. lia.
Qed.

(** The first ISO week of a year starts on the Monday nearest to the first
    of January. *)
Lemma isoweek1monday_spec y :
  ymd2ord y 1 1 - 3 <= isoweek1monday y <= ymd2ord y 1 1 + 3 /\
  (isoweek1monday y + 6) mod 7 = 0.
Proof.
  unfold isoweek1monday. cbv zeta.
  generalize (ymd2ord y 1 1). intros j.
  destruct (Z.ltb_spec 3 ((j + 6) mod 7)); Z.div_mod_to_equations; lia.
Qed.

Lemma isoweek1monday_succ y :
  isoweek1monday y + 364 <= isoweek1monday (y + 1).
Proof.
  pose proof (isoweek1monday_spec y) as [R M].
  pose proof (isoweek1monday_spec (y + 1)) as [R' M'].
  rewrite !new_year_ordinal_eq in *.
  pose proof (days_before_year_succ y).
  destruct (is_leap y); Z.div_mod_to_equations; lia.
Qed.

Lemma isoweek1monday_mono y y' :
  y < y' -> isoweek1monday (y + 1) <= isoweek1monday y'.
Proof.
  intros Hlt.
  destruct (Z.eq_dec (y + 1) y') as [<- | Hne]; [lia |].
  pose proof (isoweek1monday_spec (y + 1)) as [R _].
  pose proof (isoweek1monday_spec y') as [R' _].
  rewrite !new_year_ordinal_eq in *.
  pose proof (days_before_year_mono (y + 1) y' ltac:(lia)). lia.
Qed.

(** The ISO year of a date is the one whose weeks hold it; the week and the
    weekday count from the Monday that starts that year's first week. *)
Lemma isocalendar_spec dt :
  1 <= month dt <= 12 -> 1 <= day dt <= days_in_month (year dt) (month dt) ->
  let '(iy, w, wd) := isocalendar dt in
  isoweek1monday iy <= toordinal dt < isoweek1monday (iy + 1) /\
  w = (toordinal dt - isoweek1monday iy) / 7 + 1 /\
  wd = (toordinal dt - isoweek1monday iy) mod 7 + 1.
Proof.
  intros Hm Hd. unfold isocalendar, toordinal. cbv zeta.
  set (y := year dt).
  assert (Ho : ymd2ord y 1 1 <= ymd2ord y (month dt) (day dt)
               < ymd2ord (y + 1) 1 1).
  { rewrite !new_year_ordinal_eq. unfold ymd2ord.
    pose proof (day_of_year_range y _ _ Hm Hd).
    pose proof (days_before_year_succ y). lia. }
  set (o := ymd2ord y (month dt) (day dt)) in *. clearbody o.
  pose proof (isoweek1monday_spec (y - 1)) as [Rp Mp].
  pose proof (isoweek1monday_spec y) as [R M].
  pose proof (isoweek1monday_spec (y + 1)) as [Rn Mn].
  pose proof (isoweek1monday_succ y) as Sn.
  pose proof (isoweek1monday_succ (y + 1)) as Snn.
  pose proof (isoweek1monday_succ (y - 1)) as Sp.
  replace (y - 1 + 1) with y in * by lia.
  pose proof (days_before_year_succ (y - 1)) as Dp.
  replace (y - 1 + 1) with y in Dp by lia.
  rewrite !new_year_ordinal_eq in *.
  assert (0 <= (if is_leap (y - 1) then 1 else 0) <= 1)
    by (destruct (is_leap (y - 1)); lia).
  destruct (Z.ltb_spec ((o - isoweek1monday y) / 7) 0) as [Hneg | Hpos];
    [| destruct (Z.leb_spec 52 ((o - isoweek1monday y) / 7)) as [Hlast | Hmid];
       [destruct (Z.leb_spec (isoweek1monday (y + 1)) o) as [Hnext | Hthis] |]];
    replace (y - 1 + 1) with y by lia;
    set (Wp := isoweek1monday (y - 1)) in *;
    set (W := isoweek1monday y) in *;
    set (Wn := isoweek1monday (y + 1)) in *;
    set (Wnn := isoweek1monday (y + 1 + 1)) in *;
    clearbody Wp W Wn Wnn;
    repeat split; Z.div_mod_to_equations; lia.
Qed.

(** Two dates have the same ISO year and week exactly when the weeks they
    lie in start on the same Monday. *)
Lemma weekly_key_weeks a b :
  1 <= month a <= 12 -> 1 <= day a <= days_in_month (year a) (month a) ->
  1 <= month b <= 12 -> 1 <= day b <= days_in_month (year b) (month b) ->
  interval_weekly a = interval_weekly b <->
  toordinal a - weekday a = toordinal b - weekday b.
Proof.
  intros Hma Hda Hmb Hdb. unfold interval_weekly, weekday.
  pose proof (isocalendar_spec a Hma Hda) as Sa.
  pose proof (isocalendar_spec b Hmb Hdb) as Sb.
  destruct (isocalendar a) as [[ya wa] da].
  destruct (isocalendar b) as [[yb wb] db].
  destruct Sa as (Ra & -> & _). destruct Sb as (Rb & -> & _).
  pose proof (isoweek1monday_spec ya) as [_ Ma].
  pose proof (isoweek1monday_spec yb) as [_ Mb].
  pose proof (isoweek1monday_spec (ya + 1)) as [_ Man].
  pose proof (isoweek1monday_spec (yb + 1)) as [_ Mbn].
  set (oa := toordinal a) in *. set (ob := toordinal b) in *.
  clearbody oa ob.
  split.
  - intros [= -> E].
    set (W := isoweek1monday yb) in *. clearbody W.
    Z.div_mod_to_equations. lia.
  - intros E.
    assert (Ey : ya = yb).
    { destruct (Z.lt_trichotomy ya yb) as [Hlt | [Heq | Hgt]]; [| exact Heq |].
      - pose proof (isoweek1monday_mono ya yb Hlt).
        set (W := isoweek1monday yb) in *.
        set (V := isoweek1monday (ya + 1)) in *. clearbody W V.
        exfalso. Z.div_mod_to_equations. lia.
      - pose proof (isoweek1monday_mono yb ya ltac:(lia)).
        set (W := isoweek1monday ya) in *.
        set (V := isoweek1monday (yb + 1)) in *. clearbody W V.
        exfalso. Z.div_mod_to_equations. lia. }
    subst ya. f_equal. f_equal. f_equal.
    set (W := isoweek1monday yb) in *. clearbody W.
    Z.div_mod_to_equations. lia.
Qed.

End CalendarFacts.

Import CalendarFacts.

Lemma days_in_month_pos y m : 1 <= m <= 12 -> 1 <= days_in_month y m.
Proof.
  intros Hm. apply month_cases in Hm. unfold days_in_month.
  each_month Hm; destruct (is_leap y); cbv; discriminate.
Qed.

(** The sum of a timestamp and a whole number of days, where it exists. *)
Lemma datetime_add_days t off td t' :
  valid_datetime t -> timedelta_new off 0 0 = Some td ->
  datetime_add t td = Some t' ->
  valid_datetime t' /\ toordinal t' = toordinal t + off /\
  hour t' = hour t /\ minute t' = minute t /\ second t' = second t /\
  microsecond t' = microsecond t.
Proof.
  intros Ht Htd Hadd.
  pose proof (datetime_add_whole_days t off td Ht Htd) as Hw.
  rewrite Hadd in Hw. clear Hadd.
  destruct ((0 <? toordinal t + off) && (toordinal t + off <=? MAXORDINAL))
    eqn:Hc; [| discriminate].
  apply andb_true_iff in Hc. destruct Hc as [Hlo%Z.ltb_lt Hhi%Z.leb_le].
  destruct (valid_datetime_time t Ht) as (Hh & Hmi & Hs & Hus).
  assert (Hrange : 1 <= toordinal t + off <= MAXORDINAL) by lia.
  pose proof (ord2ymd_valid (toordinal t + off) (hour t) (minute t)
                (second t) (microsecond t) Hrange Hh Hmi Hs Hus) as Hv.
  clear Hrange Hlo Hhi Htd Ht.
  generalize dependent (toordinal t + off). intros n Hadd Hv.
  destruct (ord2ymd n) as [[y m] d].
  injection Hadd as ->. destruct Hv as [Hv E].
  split; [exact Hv |]. unfold toordinal at 1.
  cbn [year month day hour minute second microsecond].
  repeat split; try reflexivity. exact E.
Qed.

(** ** Offsets and the calendar *)

(** X12: an offset of a whole number of days moves a valid timestamp to the
    valid timestamp that many days away, at the same time of day, and moves
    its day number J by the offset, so that for n > 0 the shifted custom
    n-day key is floor((J + offset) / n); the sum fails exactly when the day
    reached lies outside the years 1..9999. *)
Theorem offset_shifts_the_date (t : datetime) (off : Z) (td : timedelta) :
  valid_datetime t ->
  timedelta_new off 0 0 = Some td ->
  (datetime_add t td = None <-> ~ 1 <= toordinal t + off <= MAXORDINAL) /\
  forall t', datetime_add t td = Some t' ->
    valid_datetime t' /\
    toordinal t' = toordinal t + off /\
    (hour t', minute t', second t', microsecond t')
    = (hour t, minute t, second t, microsecond t) /\
    julian_day t' = julian_day t + off /\
    forall n, 0 < n ->
      shifted_key (interval_custom n) td t
      = Some (KInt ((julian_day t + off) / n)).
Proof.
  intros Ht Htd. split.
  - rewrite (datetime_add_whole_days t off td Ht Htd).
    destruct (Z.ltb_spec 0 (toordinal t + off));
      destruct (Z.leb_spec (toordinal t + off) MAXORDINAL); cbn [andb].
    + destruct (ord2ymd (toordinal t + off)) as [[y m] d].
      split; [discriminate | lia].
    + split; [lia | reflexivity].
    + split; [lia | reflexivity].
    + split; [lia | reflexivity].
  - intros t' Hadd.
    destruct (datetime_add_days t off td t' Ht Htd Hadd)
      as (Hv & Ho & Hh & Hmi & Hs & Hus).
    assert (HJ : julian_day t' = julian_day t + off).
    { rewrite (julian_day_ordinal t (valid_datetime_time t Ht)).
      rewrite (julian_day_ordinal t' (valid_datetime_time t' Hv)). lia. }
    split; [exact Hv |]. split; [exact Ho |].
    split; [rewrite Hh, Hmi, Hs, Hus; reflexivity |].
    split; [exact HJ |].
    intros n _. unfold shifted_key. rewrite Hadd. cbn [option_map].
    unfold interval_custom. rewrite HJ. reflexivity.
Qed.

Lemma offset_shifts_the_date_witness :
  datetime_add (mkdt 2024 2 28 23 59 0 0) (mktd 2 0 0)
  = Some (mkdt 2024 3 1 23 59 0 0) /\
  julian_day (mkdt 2024 3 1 23 59 0 0) = julian_day (mkdt 2024 2 28 23 59 0 0) + 2.
Proof.
  assert (Hv : valid_datetime (mkdt 2024 2 28 23 59 0 0))
    by (cbv; intuition discriminate).
  assert (Htd : timedelta_new 2 0 0 = Some (mktd 2 0 0))
    by (vm_compute; reflexivity).
  assert (Hadd : datetime_add (mkdt 2024 2 28 23 59 0 0) (mktd 2 0 0)
                 = Some (mkdt 2024 3 1 23 59 0 0))
    by (vm_compute; reflexivity).
  split; [exact Hadd |].
  exact (proj1 (proj2 (proj2 (proj2
           (proj2 (offset_shifts_the_date _ 2 _ Hv Htd) _ Hadd))))).
Defined.

(** X13: an offset of zero days leaves every timestamp, and so every bucket
    key, as it is; and where a timestamp can be moved by a number of days,
    moving the result by the negated number leads back to it. *)
Theorem offset_is_undone_by_its_negation (t : datetime) (off : Z)
    (td back zero : timedelta) :
  valid_datetime t ->
  timedelta_new off 0 0 = Some td ->
  timedelta_new (- off) 0 0 = Some back ->
  timedelta_new 0 0 0 = Some zero ->
  datetime_add t zero = Some t /\
  (forall interval : Interval, shifted_key interval zero t = Some (interval t)) /\
  forall t', datetime_add t td = Some t' -> datetime_add t' back = Some t.
Proof.
  intros Ht Htd Hback Hzero.
  pose proof (toordinal_in_range t Ht) as Hr.
  destruct Ht as (Hy & Hm & Hd & Htime) eqn:Hsplit. clear Hsplit.
  assert (Hv : valid_datetime t) by (unfold valid_datetime; tauto).
  unfold MINYEAR in Hy.
  assert (Hsame : forall a d0 o,
            valid_datetime a -> timedelta_new d0 0 0 = Some o ->
            toordinal a + d0 = toordinal t ->
            (hour a, minute a, second a, microsecond a)
            = (hour t, minute t, second t, microsecond t) ->
            datetime_add a o = Some t).
  { intros a d0 o Ha Ho Hord Htm.
    rewrite (datetime_add_whole_days a d0 o Ha Ho), Hord.
    destruct (Z.ltb_spec 0 (toordinal t)); [| lia].
    destruct (Z.leb_spec (toordinal t) MAXORDINAL); [| lia].
    cbn [andb]. unfold toordinal.
    rewrite (ord2ymd_ymd2ord (year t) (month t) (day t) ltac:(lia) Hm Hd).
    injection Htm as -> -> -> ->. destruct t; reflexivity. }
  assert (H0 : datetime_add t zero = Some t)
    by (apply (Hsame t 0 zero Hv Hzero); [lia | reflexivity]).
  split; [exact H0 |].
  split; [intros interval; unfold shifted_key; rewrite H0; reflexivity |].
  intros t' Hadd.
  destruct (datetime_add_days t off td t' Hv Htd Hadd)
    as (Hv' & Ho & Hh & Hmi & Hs & Hus).
  apply (Hsame t' (- off) back Hv' Hback); [lia |].
  rewrite Hh, Hmi, Hs, Hus. reflexivity.
Qed.

Lemma offset_is_undone_by_its_negation_witness :
  datetime_add (mkdt 2024 3 1 6 30 0 0) (mktd (-1) 0 0)
  = Some (mkdt 2024 2 29 6 30 0 0) /\
  datetime_add (mkdt 2024 2 29 6 30 0 0) (mktd 1 0 0)
  = Some (mkdt 2024 3 1 6 30 0 0).
Proof.
  assert (Hv : valid_datetime (mkdt 2024 3 1 6 30 0 0))
    by (cbv; intuition discriminate).
  assert (Htd : timedelta_new (-1) 0 0 = Some (mktd (-1) 0 0))
    by (vm_compute; reflexivity).
  assert (Hback : timedelta_new (- -1) 0 0 = Some (mktd 1 0 0))
    by (vm_compute; reflexivity).
  assert (Hzero : timedelta_new 0 0 0 = Some (mktd 0 0 0))
    by (vm_compute; reflexivity).
  assert (Hadd : datetime_add (mkdt 2024 3 1 6 30 0 0) (mktd (-1) 0 0)
                 = Some (mkdt 2024 2 29 6 30 0 0))
    by (vm_compute; reflexivity).
  split; [exact Hadd |].
  exact (proj2 (proj2 (offset_is_undone_by_its_negation _ (-1) _ _ _
                         Hv Htd Hback Hzero)) _ Hadd).
Defined.

(** The day after a date: the next day of the month, the first of the next
    month, or the first of January. *)
Lemma next_day t t' one :
  valid_datetime t -> timedelta_new 1 0 0 = Some one ->
  datetime_add t one = Some t' ->
  (year t', month t', day t') =
  if day t <? days_in_month (year t) (month t)
  then (year t, month t, day t + 1)
  else if month t <? 12 then (year t, month t + 1, 1)
       else (year t + 1, 1, 1).
Proof.
  intros Ht Hone Hadd.
  rewrite (datetime_add_whole_days t 1 one Ht Hone) in Hadd.
  destruct ((0 <? toordinal t + 1) && (toordinal t + 1 <=? MAXORDINAL));
    [| discriminate].
  destruct Ht as (Hy & Hm & Hd & _). unfold MINYEAR in Hy.
  assert (Hnext : ord2ymd (toordinal t + 1) =
                  if day t <? days_in_month (year t) (month t)
                  then (year t, month t, day t + 1)
                  else if month t <? 12 then (year t, month t + 1, 1)
                       else (year t + 1, 1, 1)).
  { unfold toordinal.
    pose proof (days_before_month_succ (year t) (month t) Hm) as Hs.
    destruct (Z.ltb_spec (day t) (days_in_month (year t) (month t))).
    - rewrite <- (ord2ymd_ymd2ord (year t) (month t) (day t + 1)) by lia.
      f_equal. unfold ymd2ord. lia.
    - destruct (Z.ltb_spec (month t) 12).
      + destruct (Z.eqb_spec (month t) 12); [lia |].
        pose proof (days_in_month_pos (year t) (month t + 1) ltac:(lia)).
        rewrite <- (ord2ymd_ymd2ord (year t) (month t + 1) 1) by lia.
        f_equal. unfold ymd2ord. lia.
      + destruct (Z.eqb_spec (month t) 12); [| lia].
        rewrite <- (ord2ymd_ymd2ord (year t + 1) 1 1)
          by (try lia; cbv; split; discriminate).
        f_equal. rewrite new_year_ordinal_eq, days_before_year_succ.
        unfold ymd2ord. lia. }
  rewrite Hnext in Hadd.
  destruct (day t <? days_in_month (year t) (month t));
    [| destruct (month t <? 12)]; injection Hadd as <-; reflexivity.
Qed.

(** X14: from one day to the next, the daily key always changes; the
    weekly key changes exactly when the next day is a Monday, the monthly
    key exactly on the first of a month, the half-yearly key exactly on the
    first of January and of July, the yearly key exactly on the first of
    January, and a custom n-day key exactly when n divides the next day's
    number J. *)
Theorem keys_change_at_period_starts (t t' : datetime) (one : timedelta) :
  valid_datetime t ->
  timedelta_new 1 0 0 = Some one ->
  datetime_add t one = Some t' ->
  interval_daily t <> interval_daily t' /\
  (interval_weekly t = interval_weekly t' <-> weekday t' <> 0) /\
  (interval_monthly t = interval_monthly t' <-> day t' <> 1) /\
  (interval_biyearly t = interval_biyearly t' <->
   ~ (day t' = 1 /\ (month t' = 1 \/ month t' = 7))) /\
  (interval_yearly t = interval_yearly t' <->
   ~ (day t' = 1 /\ month t' = 1)) /\
  forall n, 0 < n ->
    (interval_custom n t = interval_custom n t' <-> julian_day t' mod n <> 0).
Proof.
  intros Ht Hone Hadd.
  pose proof (next_day t t' one Ht Hone Hadd) as Hnext.
  destruct (datetime_add_days t 1 one t' Ht Hone Hadd) as (Hv & Ho & _).
  pose proof Ht as (Hy & Hm & Hd & _).
  pose proof Hv as (_ & Hm' & Hd' & _).
  assert (Hdate : (year t' = year t /\ month t' = month t /\
                   day t' = day t + 1) \/
                  (year t' = year t /\ month t' = month t + 1 /\
                   day t' = 1 /\ month t < 12) \/
                  (year t' = year t + 1 /\ month t' = 1 /\ day t' = 1 /\
                   month t = 12)).
  { destruct (Z.ltb_spec (day t) (days_in_month (year t) (month t)));
      [| destruct (Z.ltb_spec (month t) 12)];
      injection Hnext as -> -> ->; [left | right; left | right; right]; lia. }
  split; [| split; [| split; [| split; [| split]]]].
  - unfold interval_daily. intros [= Ey Em Ed]. lia.
  - rewrite (weekly_key_weeks t t' Hm Hd Hm' Hd').
    unfold weekday. rewrite Ho.
    generalize (toordinal t). intros o.
    split; intros H; Z.div_mod_to_equations; lia.
  - unfold interval_monthly. split.
    + intros [= Ey Em]. lia.
    + intros Hne. f_equal. f_equal; [| f_equal]; lia.
  - unfold interval_biyearly.
    destruct (Z.leb_spec (month t) 6); destruct (Z.leb_spec (month t') 6);
      (split; [intros [= Ey] | intros Hne; f_equal; f_equal; lia]); lia.
  - unfold interval_yearly. split.
    + intros [= Ey]. lia.
    + intros Hne. f_equal. lia.
  - intros n Hn. unfold interval_custom.
    rewrite (julian_day_ordinal t (valid_datetime_time t Ht)).
    rewrite (julian_day_ordinal t' (valid_datetime_time t' Hv)).
    rewrite Ho.
    replace (toordinal t + 1 - 1 + 1721426)
      with (toordinal t - 1 + 1721426 + 1) by lia.
    pose proof (floor_succ_boundary (toordinal t - 1 + 1721426) n Hn) as Hb.
    destruct (Z.eqb_spec ((toordinal t - 1 + 1721426) / n)
                         ((toordinal t - 1 + 1721426 + 1) / n)) as [E | E].
    + split; [| intros _; rewrite E; reflexivity].
      intros _ Hz. apply Hb in Hz. discriminate.
    + split; [intros [= E']; contradiction |].
      intros Hnz. exfalso. apply Hnz. apply Hb. reflexivity.
Qed.

Lemma keys_change_at_period_starts_witness :
  interval_weekly (mkdt 2024 12 31 12 0 0 0)
  = interval_weekly (mkdt 2025 1 1 12 0 0 0) /\
  interval_yearly (mkdt 2024 12 31 12 0 0 0)
  <> interval_yearly (mkdt 2025 1 1 12 0 0 0).
Proof.
  assert (Hv : valid_datetime (mkdt 2024 12 31 12 0 0 0))
    by (cbv; intuition discriminate).
  assert (Hone : timedelta_new 1 0 0 = Some (mktd 1 0 0))
    by (vm_compute; reflexivity).
  assert (Hadd : datetime_add (mkdt 2024 12 31 12 0 0 0) (mktd 1 0 0)
                 = Some (mkdt 2025 1 1 12 0 0 0))
    by (vm_compute; reflexivity).
  pose proof (keys_change_at_period_starts _ _ _ Hv Hone Hadd)
    as (_ & [_ Hw] & _ & _ & [Hy _] & _).
  split.
  - apply Hw. vm_compute. discriminate.
  - intros E. apply (Hy E). split; reflexivity.
Defined.

(** X15: two timestamps have the same weekly key exactly when the weeks
    they lie in start on the same Monday, whatever the years of the two
    dates; timestamps with the same weekly key are less than seven days
    apart. *)
Theorem weekly_key_is_the_week (a b : datetime) :
  valid_datetime a -> valid_datetime b ->
  (interval_weekly a = interval_weekly b <->
   toordinal a - weekday a = toordinal b - weekday b) /\
  (interval_weekly a = interval_weekly b ->
   -7 < toordinal a - toordinal b < 7).
Proof.
  intros (_ & Hma & Hda & _) (_ & Hmb & Hdb & _).
  pose proof (weekly_key_weeks a b Hma Hda Hmb Hdb) as Hiff.
  split; [exact Hiff |].
  intros E. apply Hiff in E. unfold weekday in E.
  revert E. generalize (toordinal a) (toordinal b). intros oa ob E.
  Z.div_mod_to_equations. lia.
Qed.

Lemma weekly_key_is_the_week_witness :
  interval_weekly (mkdt 2024 12 30 0 0 0 0)
  = interval_weekly (mkdt 2025 1 5 23 59 0 0).
Proof.
  assert (Ha : valid_datetime (mkdt 2024 12 30 0 0 0 0))
    by (cbv; intuition discriminate).
  assert (Hb : valid_datetime (mkdt 2025 1 5 23 59 0 0))
    by (cbv; intuition discriminate).
  apply (proj2 (proj1 (weekly_key_is_the_week _ _ Ha Hb))).
  vm_compute. reflexivity.
Defined.

(** ** The order of a listing *)

Lemma filter_map_perm {A B} (f : A -> option B) (l l' : list A) :
  Permutation l l' -> Permutation (filter_map f l) (filter_map f l').
Proof.
  induction 1 as [| x l l' _ IH | x y l | l l' l'' _ IH1 _ IH2];
    cbn [filter_map].
  - constructor.
  - destruct (f x); [constructor |]; exact IH.
  - destruct (f x), (f y); try reflexivity. constructor.
  - exact (Permutation_trans IH1 IH2).
Qed.

Lemma list_ltb_total (a b : list Z) :
  List.length a = List.length b ->
  list_ltb a b = false -> list_ltb b a = false -> a = b.
Proof.
  revert b. induction a as [| x a IH]; intros [| y b]; cbn [list_ltb List.length];
    try discriminate; [reflexivity |].
  intros [= L] Hab Hba.
  apply orb_false_iff in Hab. destruct Hab as [Hxy Hab].
  apply orb_false_iff in Hba. destruct Hba as [Hyx Hba].
  apply Z.ltb_ge in Hxy, Hyx. assert (x = y) by lia. subst y.
  rewrite Z.eqb_refl in Hab, Hba. cbn [andb] in Hab, Hba.
  f_equal. exact (IH b L Hab Hba).
Qed.

Lemma when_le_antisym a b : when_le a b -> when_le b a -> when a = when b.
Proof.
  unfold when_le, datetime_ltb. intros Hab Hba.
  assert (E : cmp_fields (when a) = cmp_fields (when b))
    by (apply list_ltb_total; [reflexivity | assumption | assumption]).
  destruct (when a), (when b). unfold cmp_fields in E. cbn in E.
  congruence.
Qed.

(** Two sorted arrangements of the same snapshots are the same list, when
    no two of the snapshots share a timestamp. *)
Lemma sorted_arrangement_unique (l l' : list Snapshot) :
  StronglySorted when_le l -> StronglySorted when_le l' ->
  Permutation l l' ->
  (forall a b, In a l -> In b l -> when a = when b -> a = b) ->
  l = l'.
Proof.
  intros Hs. revert l'. induction Hs as [| x l Hs IH Hx]; intros l' Hs' Hp Hd.
  - apply Permutation_nil in Hp. subst. reflexivity.
  - destruct Hs' as [| y l' Hs' Hy].
    + symmetry in Hp. apply Permutation_nil in Hp. discriminate.
    + assert (E : x = y).
      { assert (Hyin : In y (x :: l))
          by (apply (Permutation_in _ (Permutation_sym Hp)); left; reflexivity).
        assert (Hxin : In x (y :: l'))
          by (apply (Permutation_in _ Hp); left; reflexivity).
        destruct Hyin as [E | Hyin]; [exact E |].
        destruct Hxin as [E | Hxin]; [symmetry; exact E |].
        rewrite Forall_forall in Hx, Hy.
        apply Hd; [left; reflexivity | right; exact Hyin |].
        apply when_le_antisym; [apply Hx, Hyin | apply Hy, Hxin]. }
      subst y. f_equal.
      apply IH; [exact Hs' | exact (Permutation_cons_inv Hp) |].
      intros a b Ha Hb. apply Hd; right; assumption.
Qed.

Section ListingOrder.

Variable fromisoformat : string -> option datetime.

(** X16: the catalog does not depend on the order in which the directory is
    listed, as long as no two of its snapshots share a timestamp: two
    listings of the same entries give the same sorted catalog, and the same
    diagnostics up to their order. *)
Theorem catalog_ignores_listing_order (w w' : World) (util : Util)
    (directory : Path) (children children' : list (string * bool)) :
  iterdir w directory = Some children ->
  iterdir w' directory = Some children' ->
  Permutation children children' ->
  (forall a b,
     In a (parsed_entries fromisoformat directory children) ->
     In b (parsed_entries fromisoformat directory children) ->
     when a = when b -> a = b) ->
  snd (find_snapshots fromisoformat w util directory)
  = snd (find_snapshots fromisoformat w' util directory) /\
  Permutation (fst (find_snapshots fromisoformat w util directory))
              (fst (find_snapshots fromisoformat w' util directory)).
Proof.
  intros Hw Hw' Hp Hd.
  rewrite !find_snapshots_spec, Hw, Hw'. cbn [fst snd]. split.
  - f_equal. apply sorted_arrangement_unique.
    + apply sort_by_when_sorted.
    + apply sort_by_when_sorted.
    + rewrite !sort_by_when_perm. apply filter_map_perm, Hp.
    + intros a b Ha Hb. apply Hd; apply sort_by_when_in; assumption.
  - unfold skip_diagnostics. apply filter_map_perm, Hp.
Qed.

End ListingOrder.

Lemma catalog_ignores_listing_order_witness :
  snd (find_snapshots fromisoformat_naive Scenarios.five_world Scenarios.the_util
         ["data-snapshots"; "daily"]%string)
  = snd (find_snapshots fromisoformat_naive
           (Scenarios.world_of [(["data-snapshots"; "daily"],
                       [("2024-01-02 00:00", true); ("2024-01-03 00:00", true);
                        ("2024-01-05 00:00", true); ("2024-01-01 00:00", true);
                        ("2024-01-04 00:00", true)])]%string)
           Scenarios.the_util ["data-snapshots"; "daily"]%string).
Proof.
  refine (proj1 (catalog_ignores_listing_order fromisoformat_naive
                   Scenarios.five_world _ Scenarios.the_util ["data-snapshots"; "daily"]%string
                   [("2024-01-04 00:00", true); ("2024-01-01 00:00", true);
                    ("2024-01-05 00:00", true); ("2024-01-03 00:00", true);
                    ("2024-01-02 00:00", true)]%string
                   (rev [("2024-01-04 00:00", true); ("2024-01-01 00:00", true);
                         ("2024-01-05 00:00", true); ("2024-01-03 00:00", true);
                         ("2024-01-02 00:00", true)]%string)
                   _ _ _ _)).
  - vm_compute. reflexivity.
  - vm_compute. reflexivity.
  - apply Permutation_rev.
  - intros a b Ha Hb. vm_compute in Ha, Hb.
    repeat (destruct Ha as [<- | Ha]; [| try contradiction]);
      repeat (destruct Hb as [<- | Hb]; [| try contradiction]);
      cbn [when]; intros E; try reflexivity; discriminate E.
Defined.

(** * The evaluator on any directory

    What find_snapshots returns for names of any kind, and what a run of a
    section made and deleted. *)

(** ** The catalog of any directory *)

Module AnyZoneFacts.

Import AnyZone CalendarFacts.

Lemma datetime_lt_cases a b :
  (aware a = aware b /\ exists r, datetime_lt a b = Ok r) \/
  (aware a <> aware b /\ datetime_lt a b = Raise TypeError).
Proof.
  unfold datetime_lt, aware.
  destruct (utcoffset a) as [oa |], (utcoffset b) as [ob |];
    try destruct (oa =? ob);
    try (left; split; [reflexivity | eexists; reflexivity]);
    right; split; [discriminate | reflexivity | discriminate | reflexivity].
Qed.

Lemma datetime_lt_irrefl a : datetime_lt a a = Ok false.
Proof.
  unfold datetime_lt. destruct (utcoffset a) as [oa |].
  - rewrite Z.eqb_refl. unfold datetime_ltb. rewrite list_ltb_irrefl. reflexivity.
  - unfold datetime_ltb. rewrite list_ltb_irrefl. reflexivity.
Qed.

(** *** Which lists list.sort raises on *)

Lemma mixed_false l :
  mixed l = false <->
  forall a b, In a l -> In b l -> aware (when a) = aware (when b).
Proof.
  unfold mixed. split.
  - intros H a b Ha Hb.
    destruct (aware (when a)) eqn:Ea, (aware (when b)) eqn:Eb; try reflexivity;
      exfalso.
    + assert (E1 : existsb (fun s => negb (aware (when s))) l = true)
        by (apply existsb_exists; exists b; rewrite Eb; auto).
      assert (E2 : existsb (fun s => aware (when s)) l = true)
        by (apply existsb_exists; exists a; auto).
      rewrite E1, E2 in H. discriminate.
    + assert (E1 : existsb (fun s => negb (aware (when s))) l = true)
        by (apply existsb_exists; exists a; rewrite Ea; auto).
      assert (E2 : existsb (fun s => aware (when s)) l = true)
        by (apply existsb_exists; exists b; auto).
      rewrite E1, E2 in H. discriminate.
  - intros H. apply andb_false_iff.
    destruct (existsb (fun s => negb (aware (when s))) l) eqn:E1; [| auto].
    right. apply existsb_exists in E1. destruct E1 as (a & Ha & Hna).
    destruct (existsb (fun s => aware (when s)) l) eqn:E2; [| reflexivity].
    apply existsb_exists in E2. destruct E2 as (b & Hb & Hab).
    rewrite (H a b Ha Hb), Hab in Hna. discriminate.
Qed.

Lemma mixed_perm l l' : Permutation l l' -> mixed l = mixed l'.
Proof.
  intros Hp.
  assert (H : forall l1 l2, Permutation l1 l2 -> mixed l1 = false ->
                            mixed l2 = false).
  { intros l1 l2 Hp12. rewrite !mixed_false. intros H a b Ha Hb.
    apply H; eapply Permutation_in; try eassumption;
      apply Permutation_sym; assumption. }
  destruct (mixed l) eqn:E, (mixed l') eqn:E'; try reflexivity.
  - rewrite (H l' l (Permutation_sym Hp) E') in E. discriminate.
  - rewrite (H l l' Hp E) in E'. discriminate.
Qed.

Lemma zoned_insert_perm x l r :
  insert_by_when x l = Ok r -> Permutation r (x :: l).
Proof.
  revert r. induction l as [| y l IH]; cbn [insert_by_when]; intros r.
  - intros [= <-]. reflexivity.
  - destruct (datetime_lt (when y) (when x)) as [[|] | e]; [| | discriminate].
    + destruct (insert_by_when x l) as [r' | e]; [| discriminate].
      intros [= <-]. rewrite (IH r' eq_refl). apply perm_swap.
    + intros [= <-]. reflexivity.
Qed.

Lemma zoned_insert_same_kind x l :
  (forall y, In y l -> aware (when y) = aware (when x)) ->
  exists r, insert_by_when x l = Ok r.
Proof.
  induction l as [| y l IH]; cbn [insert_by_when]; intros H.
  - eexists. reflexivity.
  - destruct (datetime_lt_cases (when y) (when x))
      as [(_ & r & ->) | (Hne & _)].
    + destruct r; [| eexists; reflexivity].
      destruct IH as (r' & ->); [intros z Hz; apply H; right; exact Hz |].
      eexists. reflexivity.
    + exfalso. apply Hne, H. left. reflexivity.
Qed.

Lemma zoned_insert_other_kind x y l :
  aware (when y) <> aware (when x) ->
  insert_by_when x (y :: l) = Raise TypeError.
Proof.
  intros Hne. cbn [insert_by_when].
  destruct (datetime_lt_cases (when y) (when x))
    as [(E & _) | (_ & ->)]; [contradiction | reflexivity].
Qed.

(** list.sort raises TypeError exactly on the lists that hold a naive and
    an aware timestamp; on every other list it returns a rearrangement. *)
Lemma zoned_sort_outcome l :
  match sort_by_when l with
  | Ok r => mixed l = false /\ Permutation r l
  | Raise e => e = TypeError /\ mixed l = true
  end.
Proof.
  induction l as [| x l IH]; cbn [sort_by_when].
  - split; [reflexivity | constructor].
  - destruct (sort_by_when l) as [sorted | e].
    + destruct IH as [Hm Hp].
      pose proof (proj1 (mixed_false l) Hm) as Hkind.
      destruct sorted as [| y sorted].
      * apply Permutation_nil in Hp. subst l. cbn [insert_by_when]. split.
        -- apply mixed_false. intros a b [<- | []] [<- | []]. reflexivity.
        -- apply Permutation_refl.
      * assert (Hy : In y l)
          by (apply (Permutation_in _ Hp); left; reflexivity).
        destruct (bool_dec (aware (when y)) (aware (when x))) as [E | Hne].
        -- destruct (zoned_insert_same_kind x (y :: sorted)) as (r & Hr).
           { intros z Hz. rewrite <- E.
             apply Hkind; [| exact Hy].
             apply (Permutation_in _ Hp), Hz. }
           rewrite Hr. split.
           ++ apply mixed_false. intros a b [<- | Ha] [<- | Hb];
                try reflexivity.
              ** rewrite <- E. apply Hkind; assumption.
              ** rewrite <- E. symmetry. apply Hkind; assumption.
              ** apply Hkind; assumption.
           ++ rewrite (zoned_insert_perm _ _ _ Hr). constructor. exact Hp.
        -- rewrite (zoned_insert_other_kind x y sorted Hne).
           split; [reflexivity |].
           destruct (mixed (x :: l)) eqn:Em; [reflexivity | exfalso].
           apply Hne. apply (proj1 (mixed_false (x :: l)) Em);
             [right; exact Hy | left; reflexivity].
    + destruct IH as [-> Hm]. split; [reflexivity |].
      destruct (mixed (x :: l)) eqn:Em; [reflexivity | exfalso].
      assert (Hl : mixed l = false).
      { apply mixed_false. intros a b Ha Hb.
        apply (proj1 (mixed_false (x :: l)) Em); right; assumption. }
      rewrite Hl in Hm. discriminate.
Qed.

(** *** Entries of one timestamp keep their order *)

Lemma stamp_eqb_eq a b : stamp_eqb a b = true <-> a = b.
Proof.
  unfold stamp_eqb, datetime_eqb. destruct a as [fa oa], b as [fb ob].
  cbn [fields utcoffset]. rewrite andb_true_iff, tuple_eqb_eq. split.
  - intros [Hf Ho].
    assert (fa = fb).
    { destruct fa, fb. unfold cmp_fields in Hf. cbn in Hf. congruence. }
    subst fb. destruct oa as [x |], ob as [y |]; try discriminate;
      [apply Z.eqb_eq in Ho; subst; reflexivity | reflexivity].
  - intros [= -> ->]. split; [reflexivity |].
    destruct ob; [apply Z.eqb_refl | reflexivity].
Qed.

Lemma zoned_insert_stable t x l r :
  insert_by_when x l = Ok r ->
  filter (taken_at t) r = filter (taken_at t) (x :: l).
Proof.
  revert r. induction l as [| y l IH]; cbn [insert_by_when]; intros r.
  - intros [= <-]. reflexivity.
  - destruct (datetime_lt (when y) (when x)) as [[|] | e] eqn:Hlt;
      [| | discriminate].
    + destruct (insert_by_when x l) as [r' | e]; [| discriminate].
      intros [= <-]. cbn [filter] in *. rewrite (IH r' eq_refl).
      destruct (taken_at t x) eqn:Hx; [| reflexivity].
      destruct (taken_at t y) eqn:Hy; [| reflexivity].
      exfalso. unfold taken_at in Hx, Hy.
      apply stamp_eqb_eq in Hx. apply stamp_eqb_eq in Hy.
      rewrite Hx, Hy, datetime_lt_irrefl in Hlt. discriminate.
    + intros [= <-]. reflexivity.
Qed.

Lemma zoned_sort_stable t l r :
  sort_by_when l = Ok r -> filter (taken_at t) r = filter (taken_at t) l.
Proof.
  revert r. induction l as [| x l IH]; cbn [sort_by_when]; intros r.
  - intros [= <-]. reflexivity.
  - destruct (sort_by_when l) as [sorted | e]; [| discriminate].
    intros Hr. rewrite (zoned_insert_stable t x sorted r Hr).
    cbn [filter]. rewrite (IH sorted eq_refl). reflexivity.
Qed.

(** *** The order of valid timestamps *)

Lemma ymd2ord_lt y m d y' m' d' :
  1 <= m <= 12 -> 1 <= d <= days_in_month y m ->
  1 <= m' <= 12 -> 1 <= d' <= days_in_month y' m' ->
  (y < y' \/ (y = y' /\ (m < m' \/ (m = m' /\ d < d')))) ->
  ymd2ord y m d < ymd2ord y' m' d'.
Proof.
  intros Hm Hd Hm' Hd' Hlt. unfold ymd2ord.
  pose proof (day_of_year_range y m d Hm Hd) as R.
  pose proof (day_of_year_range y' m' d' Hm' Hd') as R'.
  destruct Hlt as [Hy | (<- & [Hmm | (<- & Hdd)])].
  - pose proof (days_before_year_succ y).
    pose proof (days_before_year_mono (y + 1) y' ltac:(lia)). lia.
  - pose proof (days_before_month_mono y m m' ltac:(lia) ltac:(lia)). lia.
  - lia.
Qed.

Lemma time_ltb h mi s us h' mi' s' us' :
  0 <= mi < 60 -> 0 <= s < 60 -> 0 <= us < 1000000 ->
  0 <= mi' < 60 -> 0 <= s' < 60 -> 0 <= us' < 1000000 ->
  list_ltb [h; mi; s; us] [h'; mi'; s'; us'] =
  ((h * 3600 + mi * 60 + s) * 1000000 + us
   <? (h' * 3600 + mi' * 60 + s') * 1000000 + us').
Proof.
  intros Hmi Hs Hus Hmi' Hs' Hus'. cbn [list_ltb].
  destruct (Z.lt_trichotomy h h') as [Hh | [-> | Hh]].
  - destruct (Z.ltb_spec h h'); [| lia]. cbn [orb].
    symmetry. apply Z.ltb_lt. lia.
  - rewrite Z.ltb_irrefl, Z.eqb_refl. cbn [orb andb].
    destruct (Z.lt_trichotomy mi mi') as [Hm | [-> | Hm]].
    + destruct (Z.ltb_spec mi mi'); [| lia]. cbn [orb].
      symmetry. apply Z.ltb_lt. lia.
    + rewrite Z.ltb_irrefl, Z.eqb_refl. cbn [orb andb].
      destruct (Z.ltb_spec s s'); destruct (Z.eqb_spec s s');
        destruct (Z.ltb_spec us us'); destruct (Z.eqb_spec us us');
        cbn [orb andb]; symmetry;
        first [apply Z.ltb_lt | apply Z.ltb_ge]; lia.
    + destruct (Z.ltb_spec mi mi'); [lia |].
      destruct (Z.eqb_spec mi mi'); [lia |]. cbn [orb andb].
      symmetry. apply Z.ltb_ge. lia.
  - destruct (Z.ltb_spec h h'); [lia |].
    destruct (Z.eqb_spec h h'); [lia |]. cbn [orb andb].
    symmetry. apply Z.ltb_ge. lia.
Qed.

(** On valid datetimes, the order of the fields is the order of the
    wall-clock times. *)
Lemma datetime_ltb_wall_clock a b :
  valid_datetime a -> valid_datetime b ->
  datetime_ltb a b = (wall_clock a <? wall_clock b).
Proof.
  intros (_ & Hm & Hd & Hh & Hmi & Hs & Hus)
         (_ & Hm' & Hd' & Hh' & Hmi' & Hs' & Hus').
  pose proof (ymd2ord_lt (year a) (month a) (day a) (year b) (month b) (day b)
                Hm Hd Hm' Hd') as Hab.
  pose proof (ymd2ord_lt (year b) (month b) (day b) (year a) (month a) (day a)
                Hm' Hd' Hm Hd) as Hba.
  assert (Heq : year a = year b -> month a = month b -> day a = day b ->
                toordinal a = toordinal b)
    by (unfold toordinal; intros -> -> ->; reflexivity).
  fold (toordinal a) in Hab, Hba. fold (toordinal b) in Hab, Hba.
  unfold datetime_ltb, cmp_fields, wall_clock.
  change (list_ltb
            [year a; month a; day a; hour a; minute a; second a; microsecond a]
            [year b; month b; day b; hour b; minute b; second b; microsecond b])
    with ((year a <? year b)
          || (year a =? year b)
             && ((month a <? month b)
                 || (month a =? month b)
                    && ((day a <? day b)
                        || (day a =? day b)
                           && list_ltb
                                [hour a; minute a; second a; microsecond a]
                                [hour b; minute b; second b; microsecond b]))).
  rewrite (time_ltb _ _ _ _ _ _ _ _ Hmi Hs Hus Hmi' Hs' Hus').
  set (ta := (hour a * 3600 + minute a * 60 + second a) * 1000000
             + microsecond a).
  set (tb := (hour b * 3600 + minute b * 60 + second b) * 1000000
             + microsecond b).
  assert (Ra : 0 <= ta < 86400000000) by (unfold ta; lia).
  assert (Rb : 0 <= tb < 86400000000) by (unfold tb; lia).
  replace (((toordinal a - 1) * 86400 + hour a * 3600 + minute a * 60
            + second a) * 1000000 + microsecond a)
    with ((toordinal a - 1) * 86400000000 + ta) by (unfold ta; lia).
  replace (((toordinal b - 1) * 86400 + hour b * 3600 + minute b * 60
            + second b) * 1000000 + microsecond b)
    with ((toordinal b - 1) * 86400000000 + tb) by (unfold tb; lia).
  clearbody ta tb.
  generalize dependent (toordinal a). generalize dependent (toordinal b).
  intros ob oa Hab Hba Heq.
  destruct (Z.ltb_spec (year a) (year b));
    destruct (Z.eqb_spec (year a) (year b));
    destruct (Z.ltb_spec (month a) (month b));
    destruct (Z.eqb_spec (month a) (month b));
    destruct (Z.ltb_spec (day a) (day b));
    destruct (Z.eqb_spec (day a) (day b));
    destruct (Z.ltb_spec ta tb);
    cbn [orb andb]; symmetry;
    first [apply Z.ltb_lt | apply Z.ltb_ge]; lia.
Qed.

Lemma datetime_lt_instant a b :
  valid_datetime (fields a) -> valid_datetime (fields b) ->
  aware a = aware b ->
  datetime_lt a b = Ok (instant a <? instant b).
Proof.
  intros Ha Hb Hk. unfold datetime_lt, instant, aware in *.
  rewrite (datetime_ltb_wall_clock _ _ Ha Hb).
  destruct (utcoffset a) as [oa |], (utcoffset b) as [ob |];
    try discriminate.
  - destruct (Z.eqb_spec oa ob) as [-> | _]; f_equal.
    destruct (Z.ltb_spec (wall_clock (fields a)) (wall_clock (fields b)));
      symmetry; [apply Z.ltb_lt | apply Z.ltb_ge]; lia.
  - rewrite !Z.sub_0_r. reflexivity.
Qed.

Lemma zoned_insert_in x l r s :
  insert_by_when x l = Ok r -> In s r <-> s = x \/ In s l.
Proof.
  intros Hr. pose proof (zoned_insert_perm x l r Hr) as Hp. split.
  - intros Hin. apply (Permutation_in _ Hp) in Hin.
    destruct Hin; [left; auto | right; auto].
  - intros Hin. apply (Permutation_in _ (Permutation_sym Hp)).
    destruct Hin; [left; auto | right; auto].
Qed.

Lemma zoned_insert_ascending x l r :
  valid_datetime (fields (when x)) ->
  (forall y, In y l -> valid_datetime (fields (when y)) /\
                       aware (when y) = aware (when x)) ->
  ascending l -> insert_by_when x l = Ok r -> ascending r.
Proof.
  intros Hx Hl Hs. revert r. unfold ascending in *.
  induction Hs as [| y l Hs IH Hy]; cbn [insert_by_when]; intros r.
  - intros [= <-]. constructor; constructor.
  - destruct (Hl y (or_introl eq_refl)) as [Hvy Hky].
    rewrite (datetime_lt_instant (when y) (when x) Hvy Hx Hky).
    destruct (Z.ltb_spec (instant (when y)) (instant (when x))) as [Hlt | Hge].
    + destruct (insert_by_when x l) as [r' |] eqn:Hr'; [| discriminate].
      intros [= <-]. constructor.
      * apply IH; [intros z Hz; apply Hl; right; exact Hz | reflexivity].
      * apply Forall_forall. intros s Hin.
        apply (zoned_insert_in x l r' s Hr') in Hin.
        destruct Hin as [-> | Hin]; [lia |].
        rewrite Forall_forall in Hy. apply Hy, Hin.
    + intros [= <-]. constructor; [constructor; assumption |].
      constructor; [exact Hge |].
      apply Forall_forall. intros s Hin. rewrite Forall_forall in Hy.
      pose proof (Hy s Hin). lia.
Qed.

Lemma zoned_sort_ascending l r :
  (forall s, In s l -> valid_datetime (fields (when s))) ->
  sort_by_when l = Ok r -> ascending r.
Proof.
  revert r. induction l as [| x l IH]; cbn [sort_by_when]; intros r Hv.
  - intros [= <-]. constructor.
  - pose proof (zoned_sort_outcome (x :: l)) as Hout.
    cbn [sort_by_when] in Hout.
    destruct (sort_by_when l) as [sorted | e] eqn:Hs; [| discriminate].
    intros Hr. rewrite Hr in Hout. destruct Hout as [Hm _].
    pose proof (zoned_sort_outcome l) as Hl. rewrite Hs in Hl.
    destruct Hl as [_ Hp].
    apply (zoned_insert_ascending x sorted r).
    + apply Hv. left. reflexivity.
    + intros y Hy. apply (Permutation_in _ Hp) in Hy. split.
      * apply Hv. right. exact Hy.
      * apply (proj1 (mixed_false (x :: l)) Hm);
          [right; exact Hy | left; reflexivity].
    + apply IH; [intros s Hin; apply Hv; right; exact Hin | reflexivity].
    + exact Hr.
Qed.

(** *** What find_snapshots returns *)

Section ReaderFacts.

Variable fromisoformat : string -> option stamp.

Lemma zoned_scan_children_spec util directory children acc :
  scan_children fromisoformat util directory children acc =
  (skip_diagnostics fromisoformat directory children,
   Ok (acc ++ parsed_entries fromisoformat directory children)).
Proof.
  revert acc. induction children as [| [name is_dir] rest IH]; intros acc.
  - cbn. unfold ret. rewrite app_nil_r. reflexivity.
  - cbn [scan_children]. unfold skip_diagnostics, parsed_entries.
    cbn [filter_map]. destruct is_dir; cbn [negb].
    + destruct (fromisoformat name) as [dt |]; cbn [option_map].
      * rewrite IH. rewrite <- app_assoc. reflexivity.
      * unfold bind, say, emit. rewrite IH. reflexivity.
    + unfold bind, say, emit. rewrite IH. reflexivity.
Qed.

Lemma zoned_find_snapshots_spec w util directory :
  find_snapshots fromisoformat w util directory =
  match iterdir w directory with
  | None => ([], Ok [])
  | Some children =>
    (skip_diagnostics fromisoformat directory children,
     sort_by_when (parsed_entries fromisoformat directory children))
  end.
Proof.
  unfold find_snapshots. destruct (iterdir w directory) as [children |];
    [| reflexivity].
  rewrite zoned_scan_children_spec. unfold bind. cbn [app].
  rewrite app_nil_r. reflexivity.
Qed.

(** *** Directories of naive names *)

Lemma sort_by_when_of_naive l :
  sort_by_when (map of_naive l) = Ok (map of_naive (Rotate.sort_by_when l)).
Proof.
  assert (Hins : forall x l,
            insert_by_when (of_naive x) (map of_naive l)
            = Ok (map of_naive (Rotate.insert_by_when x l))).
  { intros x l0. induction l0 as [| y l0 IH]; [reflexivity |].
    cbn [map insert_by_when Rotate.insert_by_when].
    unfold datetime_lt. cbn [of_naive when fields utcoffset].
    destruct (datetime_ltb (Rotate.when y) (Rotate.when x)); [| reflexivity].
    rewrite IH. reflexivity. }
  induction l as [| x l IH]; [reflexivity |].
  cbn [map sort_by_when]. rewrite IH.
  change (Rotate.sort_by_when (x :: l))
    with (Rotate.insert_by_when x (Rotate.sort_by_when l)).
  apply Hins.
Qed.

Lemma naive_listing directory children :
  naive_names fromisoformat children = true ->
  parsed_entries fromisoformat directory children
  = map of_naive (Observe.parsed_entries (naive fromisoformat) directory children)
  /\ skip_diagnostics fromisoformat directory children
     = Observe.skip_diagnostics (naive fromisoformat) directory children.
Proof.
  unfold naive_names, parsed_entries, skip_diagnostics,
    Observe.parsed_entries, Observe.skip_diagnostics, naive.
  induction children as [| [name is_dir] rest IH]; [split; reflexivity |].
  cbn [forallb filter_map]. intros H. apply andb_true_iff in H.
  destruct H as [Hc Hrest]. destruct (IH Hrest) as [IH1 IH2].
  destruct is_dir; cbn [negb orb] in *.
  - destruct (fromisoformat name) as [[dt [off |]] |];
      cbn [option_map map]; [discriminate | |];
      rewrite ?IH1, ?IH2; split; reflexivity.
  - rewrite IH1, IH2. split; reflexivity.
Qed.

(** In a directory whose names read as naive datetimes, find_snapshots is
    the find_snapshots of the naive reader. *)
Lemma find_snapshots_naive w util directory :
  naive_directory fromisoformat w directory = true ->
  find_snapshots fromisoformat w util directory =
  (trace (Rotate.find_snapshots (naive fromisoformat) w util directory),
   Ok (map of_naive (catalog (naive fromisoformat) w directory))).
Proof.
  unfold naive_directory. intros Hn.
  rewrite zoned_find_snapshots_spec, find_snapshots_spec. unfold catalog.
  destruct (iterdir w directory) as [children |]; [| reflexivity].
  destruct (naive_listing directory children Hn) as [-> ->].
  rewrite sort_by_when_of_naive. reflexivity.
Qed.




End ReaderFacts.

End AnyZoneFacts.

(** C9 (the code departs from the claim on names with a UTC offset): a
    directory that does not exist gives the empty list and no diagnostic.
    Of a directory that exists, find_snapshots says one diagnostic for each
    entry that is not a directory or whose name fromisoformat refuses, in
    listing order, and nothing else.  If the names read hold a naive and an
    aware datetime, list.sort raises TypeError and there is no catalog;
    otherwise the catalog is a rearrangement of the entries read, entries
    of one timestamp keep their listing order, and if the timestamps are
    valid the catalog ascends.  A name with an offset is read, not skipped:
    the listing of 2024-01-01 00:00 and 2024-01-02 00:00+01:00, both
    directories, gets no diagnostic and ends in TypeError. *)
Theorem find_snapshots_catalog :
  (forall (fromisoformat : string -> option AnyZone.stamp) w util directory,
     let run := AnyZone.find_snapshots fromisoformat w util directory in
     match iterdir w directory with
     | None => run = ([], Ok [])
     | Some children =>
       let entries := AnyZone.parsed_entries fromisoformat directory children in
       trace run = AnyZone.skip_diagnostics fromisoformat directory children /\
       (AnyZone.mixed entries = true -> outcome run = Raise TypeError) /\
       (AnyZone.mixed entries = false ->
        exists snapshots,
          outcome run = Ok snapshots /\
          Permutation snapshots entries /\
          (forall t, filter (AnyZone.taken_at t) snapshots
                     = filter (AnyZone.taken_at t) entries) /\
          ((forall s, In s entries ->
              valid_datetime (AnyZone.fields (AnyZone.when s))) ->
           AnyZone.ascending snapshots))
     end) /\
  AnyZone.find_snapshots AnyZone.fromisoformat_offset MoreScenarios.zoned_world
    Scenarios.the_util ["data-snapshots"; "daily"]%string
  = ([], Raise TypeError).
Proof.
  split; [| vm_compute; reflexivity].
  intros fromisoformat w util directory run. unfold run. clear run.
  rewrite AnyZoneFacts.zoned_find_snapshots_spec.
  destruct (iterdir w directory) as [children |]; [| reflexivity].
  cbv zeta. cbn [trace outcome fst snd].
  set (entries := AnyZone.parsed_entries fromisoformat directory children).
  pose proof (AnyZoneFacts.zoned_sort_outcome entries) as Hout.
  split; [reflexivity |].
  destruct (AnyZone.sort_by_when entries) as [r | e] eqn:Hs.
  - destruct Hout as [Hm Hp]. split; [congruence |].
    intros _. exists r. split; [reflexivity |]. split; [exact Hp |].
    split.
    + intros t. apply AnyZoneFacts.zoned_sort_stable. exact Hs.
    + intros Hv. apply (AnyZoneFacts.zoned_sort_ascending entries r Hv Hs).
  - destruct Hout as [-> Hm]. split; [reflexivity | congruence].
Qed.

(** ** What a run did *)

Lemma succeeded_says t1 t2 :
  Forall (fun ev => exists m, ev = Say m) t1 ->
  succeeded (t1 ++ t2) = succeeded t2.
Proof.
  induction 1 as [| ev t1 (m & ->) _ IH]; [reflexivity |]. exact IH.
Qed.

Lemma method_run_eq w util c :
  method_run w util c =
  if dry_run util then ([Running c; Exited None], Ok tt)
  else ([Running c; Spawn c; Exited (Some (returncode w c))],
        if returncode w c =? 0 then Ok tt else Raise OperationFailedException).
Proof.
  unfold method_run, util_run, try_except, bind, emit, ret, raise.
  destruct (dry_run util); [reflexivity |].
  destruct (returncode w c =? 0); reflexivity.
Qed.

Lemma succeeded_method_run w util c t :
  succeeded (trace (method_run w util c) ++ t) =
  (if negb (dry_run util) && (returncode w c =? 0) then [c] else [])
  ++ succeeded t.
Proof.
  rewrite method_run_eq. destruct (dry_run util); [reflexivity |].
  cbn [trace fst app negb andb].
  destruct (returncode w c) as [| p | p]; reflexivity.
Qed.

(* the creating command runs to the end: the target is free, the run is
   real, the directory can be made and the command exits with 0 *)
Lemma create_snapshot_real w util m source target t :
  let cr := create_snapshot w util m source target in
  let ok := negb (path_exists w target) && negb (dry_run util)
            && mkdir_parents w (path_parent target)
            && (returncode w (create_command m source target) =? 0) in
  succeeded (trace cr ++ t)
  = (if ok then [create_command m source target] else []) ++ succeeded t /\
  (ok = true -> outcome cr = Ok tt) /\
  (outcome cr = Ok tt -> ok = true \/ dry_run util = true).
Proof.
  cbv zeta. unfold create_snapshot, prepare_target.
  destruct (path_exists w target); cbn [negb andb].
  - unfold raise, bind. cbn [trace outcome fst snd app].
    split; [reflexivity |]. split; discriminate.
  - destruct (dry_run util) eqn:Hdry; cbn [negb andb].
    + rewrite bind_eq. unfold ret. cbn [trace outcome fst snd app].
      rewrite succeeded_method_run, Hdry. cbn [negb andb app].
      split; [reflexivity |]. split; [discriminate | auto].
    + destruct (mkdir_parents w (path_parent target)); cbn [andb].
      * rewrite !bind_eq. unfold emit, ret. cbn [trace outcome fst snd app].
        change (succeeded (Mkdir (path_parent target)
                  :: trace (method_run w util (create_command m source target)) ++ t))
          with (succeeded (trace (method_run w util (create_command m source target))
                           ++ t)).
        rewrite succeeded_method_run, Hdry. cbn [negb andb].
        rewrite method_run_eq, Hdry. cbn [outcome snd].
        destruct (returncode w (create_command m source target) =? 0).
        -- split; [reflexivity |]. split; [reflexivity | auto].
        -- split; [reflexivity |]. split; discriminate.
      * rewrite !bind_eq. unfold emit, raise. cbn [trace outcome fst snd app].
        split; [reflexivity |]. split; discriminate.
Qed.

Lemma remove_old_real w util m l amount t :
  let p := remove_old w util m l amount in
  exists k,
    succeeded (trace p ++ t)
    = map (fun s => remove_command m (path s)) (firstn k l) ++ succeeded t /\
    Z.of_nat k <= Z.max 0 (Z.of_nat (List.length l) - amount) /\
    (dry_run util = true -> k = 0%nat) /\
    (dry_run util = false -> outcome p = Ok tt ->
     k = Z.to_nat (Z.of_nat (List.length l) - amount)).
Proof.
  cbv zeta. induction l as [| s rest IH].
  - exists 0%nat. cbn [remove_old].
    destruct (Z.ltb_spec amount 0); cbn [trace outcome fst snd app firstn map];
      (split; [reflexivity |]); (split; [lia |]);
      (split; [reflexivity |]); intros _; try discriminate.
    intros _. cbn [List.length]. lia.
  - cbn [remove_old].
    destruct (Z.ltb_spec amount (Z.of_nat (List.length (s :: rest))))
      as [Hlt | Hge].
    + rewrite bind_eq. unfold remove_snapshot.
      pose proof (succeeded_method_run w util (remove_command m (path s))) as Hrun.
      rewrite method_run_eq in Hrun |- *.
      destruct IH as (k & I1 & I2 & I3 & I4).
      destruct (dry_run util) eqn:Hdry.
      * cbn [trace outcome fst snd] in *. exists 0%nat.
        rewrite <- app_assoc, Hrun, I1, (I3 eq_refl).
        cbn [negb andb app firstn map].
        split; [reflexivity |]. split; [lia |]. split; [reflexivity | discriminate].
      * cbn [trace outcome fst snd negb andb] in *.
        destruct (Z.eqb_spec (returncode w (remove_command m (path s))) 0)
          as [Hz | Hnz]; cbn [trace outcome fst snd] in *.
        -- exists (S k). rewrite <- app_assoc, Hrun, I1.
           cbn [app firstn map].
           split; [reflexivity |]. cbn [List.length] in *.
           split; [lia |]. split; [discriminate |].
           intros _ Hok. rewrite (I4 eq_refl Hok). lia.
        -- exists 0%nat. rewrite Hrun. cbn [app firstn map].
           split; [reflexivity |]. split; [lia |].
           split; [reflexivity |]. intros _. discriminate.
    + exists 0%nat. unfold ret. cbn [trace outcome fst snd app firstn map].
      split; [reflexivity |]. split; [lia |]. split; [reflexivity |].
      intros _ _. lia.
Qed.

Lemma made_by_removals m (l : list Snapshot) :
  filter_map made_by (map (fun s => remove_command m (path s)) l) = [] /\
  filter_map deleted_by (map (fun s => remove_command m (path s)) l) = map path l.
Proof.
  destruct m; (induction l as [| s l [IH1 IH2]]; [split; reflexivity |]);
    cbn in *; rewrite IH2; split; (reflexivity || exact IH1).
Qed.

Lemma made_by_create m source target :
  made_by (create_command m source target) = Some target /\
  deleted_by (create_command m source target) = None.
Proof. destruct m; split; reflexivity. Qed.

Section RealRuns.

Variable fromisoformat : string -> option datetime.

(** What do_section made and deleted on a well-configured section, by the
    course of the run. *)
Lemma do_section_real w util options section_name tr so :
  read_section_options util options section_name = (tr, Ok (Some so)) ->
  let section_dir := path_join (snapshot_dir options) section_name in
  let target := path_join section_dir (format_time (time options)) in
  let create := create_command (method so) (source_dir options) target in
  let snapshots := catalog fromisoformat w section_dir in
  let run := do_section fromisoformat w util options section_name in
  let ok := negb (path_exists w target) && negb (dry_run util)
            && mkdir_parents w section_dir && (returncode w create =? 0) in
  let e := Z.of_nat (List.length snapshots) in
  exists k,
    snapshots_deleted (trace run) = map path (firstn k snapshots) /\
    ((decided_creation (trace run) /\ ok = true /\
      snapshots_made (trace run) = [target] /\
      Z.of_nat k <= Z.max 0 (e + 1 - amount so) /\
      (outcome run = Ok tt -> k = Z.to_nat (e + 1 - amount so)))
     \/
     ((~ decided_creation (trace run) \/ ok = false) /\
      snapshots_made (trace run) = [] /\
      Z.of_nat k <= Z.max 0 (e - amount so) /\
      (dry_run util = true -> k = 0%nat) /\
      (dry_run util = false -> outcome run = Ok tt ->
       ~ decided_creation (trace run) /\ k = Z.to_nat (e - amount so)))).
Proof.
  intros Hread section_dir target create snapshots run ok e.
  pose proof (do_section_shape fromisoformat w util options section_name tr so
                Hread) as Hshape.
  cbv zeta in Hshape. fold section_dir in Hshape. fold target in Hshape.
  fold snapshots in Hshape.
  unfold run. clear run. rewrite Hshape. clear Hshape.
  pose proof (find_snapshots_says fromisoformat w util section_dir) as Hdiag.
  rewrite find_snapshots_catalog_eq in Hdiag. cbn [trace fst] in Hdiag.
  destruct (silent_trace _ (catalog_diagnostics_silent fromisoformat w section_dir))
    as (D1 & _).
  set (diag := catalog_diagnostics fromisoformat w section_dir) in *.
  assert (Hpp : path_parent target = section_dir) by apply path_parent_join.
  assert (Hquiet : forall t (x : exn),
    Forall (fun ev => exists m, ev = Say m) t -> ~ decided_creation t ->
    exists k,
      snapshots_deleted t = map path (firstn k snapshots) /\
      ((decided_creation t /\ ok = true /\
        snapshots_made t = [target] /\
        Z.of_nat k <= Z.max 0 (e + 1 - amount so) /\
        (@Raise unit x = Ok tt -> k = Z.to_nat (e + 1 - amount so)))
       \/
       ((~ decided_creation t \/ ok = false) /\
        snapshots_made t = [] /\
        Z.of_nat k <= Z.max 0 (e - amount so) /\
        (dry_run util = true -> k = 0%nat) /\
        (dry_run util = false -> @Raise unit x = Ok tt ->
         ~ decided_creation t /\ k = Z.to_nat (e - amount so))))).
  { intros t x Ht Hnd. exists 0%nat.
    unfold snapshots_deleted, snapshots_made.
    rewrite <- (app_nil_r t), (succeeded_says t [] Ht), app_nil_r.
    split; [reflexivity |]. right.
    split; [left; exact Hnd |]. split; [reflexivity |]. split; [lia |].
    split; [reflexivity |]. intros _ Hr. discriminate Hr. }
  destruct (timedelta_new (offset so) 0 0) as [td |];
    [| apply (Hquiet [] OverflowError); [constructor | intros []]].
  destruct (datetime_add (time options) td) as [shifted_now |];
    [| apply (Hquiet diag OverflowError); assumption].
  destruct (check_covered_cases util (interval so) td (interval so shifted_now)
              snapshots)
    as [[E _] | [(s & _ & E & _) | (E & _)]];
    cbv zeta in E; rewrite E; cbn [trace outcome fst snd].
  - (* not covered *)
    set (cr := create_snapshot w util (method so) (source_dir options) target).
    assert (Hdec : forall rest,
              decided_creation (diag ++ [] ++ Say MsgMakingNewSnapshot :: rest)).
    { intros rest. apply decided_creation_app. right. left. reflexivity. }
    assert (Hsucc : forall rest,
              succeeded (diag ++ [] ++ Say MsgMakingNewSnapshot :: rest)
              = succeeded rest).
    { intros rest. rewrite (succeeded_says diag _ Hdiag). reflexivity. }
    destruct (made_by_create (method so) (source_dir options) target)
      as [Hmade Hdel]. fold create in Hmade, Hdel.
    destruct (outcome cr) as [[] | x] eqn:Hcr; cbn [trace outcome fst snd].
    + set (p := remove_old w util (method so) snapshots (amount so - 1)).
      destruct (create_snapshot_real w util (method so) (source_dir options)
                  target (trace p)) as (C1 & C2 & C3).
      cbv zeta in C1, C2, C3. fold cr in C1, C2, C3. fold create in C1, C2, C3.
      rewrite Hpp in C1, C2, C3.
      fold ok in C1, C2, C3.
      destruct (remove_old_real w util (method so) snapshots (amount so - 1) [])
        as (k & P1 & P2 & P3 & P4).
      cbv zeta in P1, P2, P3, P4. fold p in P1, P2, P3, P4.
      rewrite !app_nil_r in P1.
      destruct (made_by_removals (method so) (firstn k snapshots)) as [M1 M2].
      exists k. unfold snapshots_deleted, snapshots_made.
      rewrite Hsucc, C1, P1, !filter_map_app, M1, M2.
      destruct ok eqn:Hok.
      * cbn [filter_map app]. rewrite Hmade, Hdel. cbn [app].
        split; [reflexivity |]. left.
        split; [apply Hdec |]. split; [reflexivity |]. split; [reflexivity |].
        fold e in P2 |- *. split; [lia |].
        intros Hp. rewrite P4; [lia | | exact Hp].
        unfold ok in Hok. destruct (dry_run util); [| reflexivity].
        rewrite andb_false_r in Hok. discriminate.
      * cbn [filter_map app].
        destruct (C3 Hcr) as [C | Hdry]; [discriminate |].
        rewrite (P3 Hdry). cbn [firstn map].
        split; [reflexivity |]. right.
        split; [right; reflexivity |]. split; [reflexivity |]. split; [lia |].
        split; [reflexivity |]. intros Hreal. congruence.
    + destruct (create_snapshot_real w util (method so) (source_dir options)
                  target []) as (C1 & C2 & _).
      cbv zeta in C1, C2. fold cr in C1, C2. fold create in C1, C2.
      rewrite Hpp in C1, C2.
      fold ok in C1, C2. rewrite !app_nil_r in C1.
      exists 0%nat. unfold snapshots_deleted, snapshots_made.
      rewrite Hsucc, C1.
      destruct ok; [specialize (C2 eq_refl); congruence |].
      cbn [filter_map firstn map].
      split; [reflexivity |]. right.
      split; [right; reflexivity |]. split; [reflexivity |]. split; [lia |].
      split; [reflexivity |]. intros _ Hr. discriminate Hr.
  - (* covered *)
    set (p := remove_old w util (method so) snapshots (amount so)).
    destruct (remove_old_real w util (method so) snapshots (amount so) [])
      as (k & P1 & P2 & P3 & P4).
    cbv zeta in P1, P2, P3, P4. fold p in P1, P2, P3, P4.
    rewrite !app_nil_r in P1.
    destruct (made_by_removals (method so) (firstn k snapshots)) as [M1 M2].
    destruct (remove_old_spec w util (method so) snapshots (amount so))
      as (_ & R2 & _).
    cbv zeta in R2. fold p in R2.
    assert (Hnot : ~ decided_creation
                     (diag ++ [Say (MsgAlreadyCovered (path s))] ++ trace p)).
    { rewrite !decided_creation_app. intros [H | [H | H]]; try tauto.
      destruct H as [H | []]. discriminate. }
    exists k. unfold snapshots_deleted, snapshots_made.
    rewrite (succeeded_says diag _ Hdiag). cbn [app succeeded].
    rewrite P1, M1, M2.
    split; [reflexivity |]. right.
    split; [left; exact Hnot |]. split; [reflexivity |].
    fold e in P2, P4. split; [exact P2 |]. split; [exact P3 |].
    intros Hreal Hp. split; [exact Hnot | exact (P4 Hreal Hp)].
  - rewrite app_nil_r. apply (Hquiet diag OverflowError); assumption.
Qed.

End RealRuns.

Section Coverage.

Variable fromisoformat : string -> option datetime.

(** The decision of do_section on a well-configured section. *)
Lemma do_section_coverage w util options section_name tr so :
  read_section_options util options section_name = (tr, Ok (Some so)) ->
  let section_dir := path_join (snapshot_dir options) section_name in
  let target := path_join section_dir (format_time (time options)) in
  let snapshots := catalog fromisoformat w section_dir in
  let run := do_section fromisoformat w util options section_name in
  (outcome run = Raise OverflowError -> ~ decided_creation (trace run)) /\
  (outcome run <> Raise OverflowError ->
   exists td,
     timedelta_new (offset so) 0 0 = Some td /\
     shifted_key (interval so) td (time options) <> None /\
     (decided_creation (trace run) <->
      ~ exists s, In s snapshots /\
          shifted_key (interval so) td (when s) =
          shifted_key (interval so) td (time options)) /\
     (~ decided_creation (trace run) ->
      exists s, In s snapshots /\
        In (Say (MsgAlreadyCovered (path s))) (trace run) /\
        shifted_key (interval so) td (when s) =
        shifted_key (interval so) td (time options))) /\
  (forall p, In p (created (trace run)) ->
     decided_creation (trace run) /\ p = target).
Proof.
  intros Hread section_dir target snapshots run.
  destruct (read_section_options_some _ _ _ _ _ Hread) as (_ & Hamount & _).
  pose proof (do_section_shape fromisoformat w util options section_name tr so
                Hread) as Hshape.
  cbv zeta in Hshape. fold section_dir in Hshape. fold target in Hshape.
  fold snapshots in Hshape.
  unfold run. clear run. rewrite Hshape. clear Hshape.
  destruct (silent_trace _ (catalog_diagnostics_silent fromisoformat w section_dir))
    as (D1 & D2 & D3 & D4).
  set (diag := catalog_diagnostics fromisoformat w section_dir) in *.
  destruct (timedelta_new (offset so) 0 0) as [td |].
  2: { cbn [trace outcome fst snd]. split; [intros _ [] |].
       split; [intros H; exfalso; apply H; reflexivity | intros p []]. }
  destruct (datetime_add (time options) td) as [shifted_now |] eqn:Hadd.
  2: { cbn [trace outcome fst snd]. split; [intros _; exact D1 |].
       split; [intros H; exfalso; apply H; reflexivity |].
       rewrite D2. intros p []. }
  assert (Hnow : shifted_key (interval so) td (time options)
                 = Some (interval so shifted_now)).
  { unfold shifted_key. rewrite Hadd. reflexivity. }
  destruct (check_covered_cases util (interval so) td (interval so shifted_now)
              snapshots)
    as [[E Hall] | [(s & Hin & E & Hc) | (E & _)]];
    cbv zeta in E; rewrite E; cbn [trace outcome fst snd].
  - (* nothing covers *)
    set (cr := create_snapshot w util (method so) (source_dir options) target).
    destruct (create_snapshot_spec w util (method so) (source_dir options) target)
      as (C1 & _ & _ & _ & _ & C6).
    fold cr in C1, C6. cbv zeta in C1, C6.
    assert (Hdec : forall rest,
              decided_creation (diag ++ [] ++ Say MsgMakingNewSnapshot :: rest)).
    { intros rest. apply decided_creation_app. right. left. reflexivity. }
    assert (Hnone : ~ exists s,
              In s snapshots /\
              shifted_key (interval so) td (when s) = Some (interval so shifted_now)).
    { intros (s & Hin & Hk). destruct (Hall s Hin) as (t & Ht & Hne).
      unfold shifted_key in Hk. rewrite Ht in Hk. cbn in Hk. congruence. }
    destruct (remove_old_spec w util (method so) snapshots (amount so - 1))
      as (P1 & _ & _ & _ & _ & P6).
    cbv zeta in P1, P6. specialize (P6 ltac:(lia)).
    destruct (outcome cr) as [[] | e] eqn:Hcr; cbn [trace outcome fst snd].
    + split; [intros H; exfalso; destruct P6 as [P | P]; congruence |].
      split.
      * intros _. exists td. rewrite Hnow. split; [reflexivity |]. split; [discriminate |].
        split; [split; [intros _; exact Hnone | intros _; apply Hdec] |].
        intros H. exfalso. apply H, Hdec.
      * autorewrite with traces. rewrite D2, P1. autorewrite with traces.
        intros p Hp. split; [apply Hdec | apply C1, Hp].
    + split; [intros H; exfalso; destruct C6 as [C | C]; congruence |].
      split.
      * intros _. exists td. rewrite Hnow. split; [reflexivity |]. split; [discriminate |].
        split; [split; [intros _; exact Hnone | intros _; apply Hdec] |].
        intros H. exfalso. apply H, Hdec.
      * autorewrite with traces. rewrite D2. autorewrite with traces.
        intros p Hp. split; [apply Hdec | apply C1, Hp].
  - (* covered by s *)
    destruct (remove_old_spec w util (method so) snapshots (amount so))
      as (P1 & P2 & _ & _ & _ & P6).
    cbv zeta in P1, P2, P6. specialize (P6 ltac:(lia)).
    assert (Hnot : ~ decided_creation
              (diag ++ [Say (MsgAlreadyCovered (path s))] ++
               trace (remove_old w util (method so) snapshots (amount so)))).
    { rewrite !decided_creation_app. intros [H | [H | H]]; try tauto.
      destruct H as [H | []]. discriminate. }
    split; [intros _; exact Hnot |]. split.
    + intros _. exists td. rewrite Hnow. split; [reflexivity |]. split; [discriminate |].
      split.
      * split; [intros H; exfalso; exact (Hnot H) |].
        intros Hn. exfalso. apply Hn. exists s. auto.
      * intros _. exists s. split; [exact Hin |]. split; [| exact Hc].
        apply in_or_app. right. left. reflexivity.
    + autorewrite with traces. rewrite D2, P1. autorewrite with traces.
      intros p [].
  - rewrite app_nil_r. split; [intros _; exact D1 |].
    split; [intros H; exfalso; apply H; reflexivity |].
    rewrite D2. intros p [].
Qed.

End Coverage.

Section Evaluator.

Variable reader : string -> option AnyZone.stamp.

(** C1 (amended): on a well-configured section whose directory names read
    as naive datetimes, find_snapshots returns the catalog, and a run that
    does not leave the range of datetime reaches Making a new snapshot
    exactly when no snapshot of the catalog has, after the offset is added,
    the bucket key of now plus the offset.  A snapshot is made (the creating
    command is started and exits with 0) exactly when, besides, the target
    named by format_time of the un-offset now does not exist, the run is not
    a dry run, the section directory can be made and the command succeeds;
    nothing else is ever made, and a run that leaves the range decides and
    makes nothing. *)
Theorem coverage_decision w util options section_name tr so :
  read_section_options util options section_name = (tr, Ok (Some so)) ->
  let section_dir := path_join (snapshot_dir options) section_name in
  AnyZone.naive_directory reader w section_dir = true ->
  let fromisoformat := AnyZone.naive reader in
  let target := path_join section_dir (format_time (time options)) in
  let create := create_command (method so) (source_dir options) target in
  let snapshots := catalog fromisoformat w section_dir in
  let run := do_section fromisoformat w util options section_name in
  outcome (AnyZone.find_snapshots reader w util section_dir)
    = Ok (map AnyZone.of_naive snapshots) /\
  (snapshots_made (trace run) = [target] <->
   decided_creation (trace run) /\ path_exists w target = false /\
   dry_run util = false /\ mkdir_parents w section_dir = true /\
   returncode w create = 0) /\
  (snapshots_made (trace run) = [] \/ snapshots_made (trace run) = [target]) /\
  (outcome run = Raise OverflowError ->
   ~ decided_creation (trace run) /\ snapshots_made (trace run) = []) /\
  (outcome run <> Raise OverflowError ->
   exists td,
     timedelta_new (offset so) 0 0 = Some td /\
     shifted_key (interval so) td (time options) <> None /\
     (decided_creation (trace run) <->
      ~ exists s, In s snapshots /\
          shifted_key (interval so) td (when s) =
          shifted_key (interval so) td (time options))) /\
  (forall p, In p (created (trace run)) ->
     decided_creation (trace run) /\ p = target).
Proof.
  intros Hread section_dir Hnaive fromisoformat target create snapshots run.
  split.
  { rewrite (AnyZoneFacts.find_snapshots_naive reader w util section_dir Hnaive).
    reflexivity. }
  destruct (do_section_real fromisoformat w util options section_name tr so Hread)
    as (k & _ & Hcases).
  fold section_dir target create snapshots run in Hcases.
  destruct (do_section_coverage fromisoformat w util options section_name tr so
              Hread) as (Hover & Hdecide & Hcreated).
  fold section_dir target snapshots run in Hover, Hdecide, Hcreated.
  split; [| split; [| split; [| split]]].
  - split.
    + intros Hm. destruct Hcases as [(Hd & Hok & _) | (_ & Hm0 & _)];
        [| congruence].
      apply andb_true_iff in Hok. destruct Hok as [Hok Hrc].
      apply andb_true_iff in Hok. destruct Hok as [Hok Hmk].
      apply andb_true_iff in Hok. destruct Hok as [Hex Hdry].
      apply negb_true_iff in Hex, Hdry. apply Z.eqb_eq in Hrc. auto.
    + intros (Hd & Hex & Hdry & Hmk & Hrc).
      destruct Hcases as [(_ & _ & Hm & _) | ([Hnd | Hok] & _)];
        [exact Hm | contradiction |].
      rewrite Hex, Hdry, Hmk, Hrc in Hok. discriminate Hok.
  - destruct Hcases as [(_ & _ & Hm & _) | (_ & Hm & _)]; auto.
  - intros Ho. pose proof (Hover Ho) as Hnd. split; [exact Hnd |].
    destruct Hcases as [(Hd & _) | (_ & Hm & _)]; [contradiction | exact Hm].
  - intros Ho. destruct (Hdecide Ho) as (td & Htd & Hkey & Hiff & _).
    exists td. auto.
  - exact Hcreated.
Qed.

End Evaluator.

(** C1 (as the spec states it, refuted): no snapshot of the section has the
    bucket key of now, so that the claim has a snapshot created; but a
    regular file has the name of the snapshot to make, prepare_target raises
    and no creating command is started or even logged. *)
Lemma existing_target_blocks_creation :
  let reader := AnyZone.naive AnyZone.fromisoformat_offset in
  let run := do_section reader Scenarios.collision_world Scenarios.the_util
               Scenarios.collision_options "a" in
  let snapshots := catalog reader Scenarios.collision_world
                     ["data-snapshots"; "a"]%string in
  read_section_options Scenarios.the_util Scenarios.collision_options "a"
    = ([], Ok (Some (mkSectionOptions CopyMethod interval_daily 0 7))) /\
  forallb (fun s => negb (key_eqb
                      (interval_daily (when s))
                      (interval_daily (time Scenarios.collision_options))))
          snapshots = true /\
  List.length snapshots = 8%nat /\
  decided_creation (trace run) /\
  snapshots_made (trace run) = [] /\
  created (trace run) = [] /\
  outcome run = Raise OperationFailedException.
Proof.
  vm_compute. repeat split. right. left. reflexivity.
Qed.

(** The monthly section with offset 5d at 2024-03-27 10:00: the snapshot of
    2024-03-30 00:00 covers the bucket (2024, 4), nothing is made; with no
    snapshot at all, the new one is named after the un-offset time. *)
Lemma coverage_decision_witness :
  let reader := AnyZone.naive AnyZone.fromisoformat_offset in
  let run := trace (do_section reader Scenarios.monthly_world
                      Scenarios.the_util Scenarios.monthly_options "monthly") in
  let run0 := trace (do_section reader Scenarios.monthly_empty_world
                       Scenarios.the_util Scenarios.monthly_options "monthly") in
  ~ decided_creation run /\ snapshots_made run = [] /\
  snapshots_made run0 = [["data-snapshots"; "monthly"; "2024-03-27 10:00"]]%string.
Proof.
  intros reader run run0.
  set (so := mkSectionOptions CopyMethod interval_monthly 5 7).
  assert (Hread : read_section_options Scenarios.the_util
                    Scenarios.monthly_options "monthly" = ([], Ok (Some so)))
    by (vm_compute; reflexivity).
  assert (Hn : AnyZone.naive_directory AnyZone.fromisoformat_offset
                 Scenarios.monthly_world
                 (path_join (snapshot_dir Scenarios.monthly_options) "monthly")
               = true) by (vm_compute; reflexivity).
  assert (Hn0 : AnyZone.naive_directory AnyZone.fromisoformat_offset
                  Scenarios.monthly_empty_world
                  (path_join (snapshot_dir Scenarios.monthly_options) "monthly")
                = true) by (vm_compute; reflexivity).
  assert (Hno : outcome (do_section reader Scenarios.monthly_world
                  Scenarios.the_util Scenarios.monthly_options "monthly")
                <> Raise OverflowError) by (vm_compute; discriminate).
  pose proof (coverage_decision AnyZone.fromisoformat_offset
                Scenarios.monthly_world
                Scenarios.the_util Scenarios.monthly_options "monthly" [] so
                Hread Hn) as H.
  cbv zeta in H.
  destruct H as (_ & [Hmade _] & Hcases & _ & Hdec & _).
  destruct (Hdec Hno) as (td & Htd & _ & [Hfw _]).
  fold reader in Hmade, Hcases, Hfw. fold run in Hmade, Hcases, Hfw.
  assert (Hnot : ~ decided_creation run).
  { intros H. apply Hfw in H. apply H.
    vm_compute in Htd. injection Htd as <-.
    exists (mkSnapshot ["data-snapshots"; "monthly"; "2024-03-30 00:00"]%string
                       (mkdt 2024 3 30 0 0 0 0)).
    split; [vm_compute; left; reflexivity | vm_compute; reflexivity]. }
  split; [exact Hnot |]. split.
  - destruct Hcases as [Hc | Hc]; [exact Hc |].
    exfalso. exact (Hnot (proj1 (Hmade Hc))).
  - pose proof (coverage_decision AnyZone.fromisoformat_offset
                  Scenarios.monthly_empty_world
                  Scenarios.the_util Scenarios.monthly_options "monthly" [] so
                  Hread Hn0) as H.
    cbv zeta in H.
    destruct H as (_ & [_ Hbw] & _).
    fold reader in Hbw. fold run0 in Hbw.
    refine (Hbw _). split; [vm_compute; left; reflexivity |].
    repeat split; vm_compute; reflexivity.
Defined.

Section Pruning.

Variable reader : string -> option AnyZone.stamp.


End Pruning.



Section Idempotence.

Variable reader : string -> option AnyZone.stamp.


End Idempotence.

